(* ===== verification/_CoqProject ===== *)
-Q . S2P
Prelude.v
JsValue.v
JsString.v
VersionCompare.v
Merge.v
Archive.v
Digest.v
Json.v
MergeOutput.v
JsonParse.v
JsonRoundtrip.v
Run.v
Schedule.v
TwoManifests.v
