(* ===== verification/Prelude.v ===== *)
(** * A verification library for firefox-addons-add-update-version

    The program ([src/updater.js], the [faauv] command) adds a freshly
    packaged WebExtension archive (an [.xpi] zip file) to a Firefox
    update manifest ([update.json]).  It reads its options (lines
    43-73), scans the archive with [unzip.Parse] (lines 75-99), hands
    the text of [manifest.json] to [HandleManifest] (lines 101-167),
    which filters the add-on's [updates], resolves the update link and
    asks [Sha256FromFile] (lines 169-183) for the archive's digest; the
    [.then] continuation pushes the new entry and writes the manifest.

    Files, leaf to root:

    - [Prelude.v] (this file): the error monad [result] with its
      notation in [faauv_scope], the class [CompareLaws] of three-way
      comparisons that are total preorders with instances for [N],
      ascii, strings, lexicographic lists, pairs and sums, list lemmas,
      the hint databases [faauv] and [faauv_rw].
    - [JsValue.v]: the JavaScript semantics the script relies on, on
      the trees [JSON.parse] returns ([jsval]; objects as association
      lists in insertion order): property reads and sloppy-mode writes
      ([js_get], [js_set], with ArraySetLength for an array's
      [length]), truthiness, [||], [&&], [===], [ToString],
      [Object.assign], [Array.prototype.filter] with a stateful
      callback ([filter_st]) and [.push].  Exceptions are the values of
      [exn]; a throwing operation returns [Err].
    - [JsString.v]: [String.prototype.replace] with a string pattern
      (first occurrence, [$]-patterns of the replacement) and
      [encodeURIComponent] (UTF-8 bytes, the input being a byte
      string).  Theorems: only the first occurrence is replaced; the
      encoding never contains [$], so it is inserted literally.
    - [VersionCompare.v]: the comparator [compver] is the npm package
      [mozilla-version-comparator], not code of this repository.  The
      class [VersionComparator] is what the merge needs (a total
      preorder); [mozilla_compver] is one instance modelled on spec
      section 4.1, proved equal to a lexicographic order of run keys,
      hence a preorder (and checked on the spec's examples).
    - [Merge.v]: [HandleManifest] after its [JSON.parse] and the
      [.then] continuation, in [Section Merge] over any
      [VersionComparator]: [addon_id_of], [ensure_record],
      [filter_updates] (the filter callback [scan_step] with the
      running maximum [lastVersion]), [resolve_url], [new_entry]
      ([Object.assign]), [push_entry], composed as [handle_parsed],
      [on_hash] and [merge], which returns the document written at
      line 148 or the [stop] reason of a [process.exit(-1)].  The
      contract of spec 4.4 ([spec_updates], [spec_url]) is refined by
      [merge] on well-shaped documents; further theorems: the running
      maximum is the first maximal entry, versions stay unique, a
      second merge replaces the first, fields carry forward, the error
      exits; a record that is a truthy primitive makes the run fail
      only at the push in [.then] ([merge_primitive_record_fails_late]).
      The concrete runs of spec section 8 and of two divergences are
      kept as examples.
    - [Archive.v]: the scanner's two flags as the record [scanner], the
      [entry] and [close] handlers ([on_entry], [on_close]) and their
      fold [run_scanner] over the entries and chunks [unzip2] delivers.
      Theorems: which entries reach [HandleManifest], are drained, and
      which lines are logged at [close].
    - [Digest.v]: [Sha256FromFile] over an abstract incremental hash
      (class [StreamingHash]); the promise as the state [pstate], the
      [data]/[end]/[error] handlers as the step relation [digest_step]
      and the function [digest_next] (shown to agree).  Theorems: the
      digest covers the whole file whatever its chunking, an error
      rejects.
    - [Json.v]: the built-ins [JSON.stringify(update,null,4)] (line
      149: [ser], key order of [OrdinaryOwnPropertyKeys] in
      [json_order], [QuoteJSONString] in [quote], [undefined]
      properties and array named properties dropped) and [JSON.parse]
      (lines 68 and 104: [parse_value], [parse_elems],
      [parse_members], on a fuel argument; duplicate keys keep the
      first position and the last value), with the normal form
      [json_norm] and the well-formedness [json_wf] of values.
    - [MergeOutput.v]: what [merge] writes through [JSON.stringify]:
      with an array as the add-on's record, the file written is the
      file read, byte for byte ([merge_array_record_hides_entry]).
    - [JsonParse.v]: lemmas on the parser model: it consumes input at
      every level ([parse_progress]), so the fuel it is given never runs
      out ([json_parse_terminates]), and the values it returns are well
      formed ([json_parse_wf]).
    - [JsonRoundtrip.v]: [json_roundtrip], [JSON.parse] reads back what
      [JSON.stringify] writes (as [json_norm v]) for well-formed
      values.
    - [Run.v]: the whole script.  [start] is the synchronous phase
      (lines 43-73: usage, [statSync], the [||] resolution of the
      paths, loading [update.json]); [step] is one event of the event
      loop (an [unzip] entry or close, or the next event of the i-th
      digest stream), with [handle_manifest] (lines 101-167) and
      [then_callback] (lines 139-160) on the shared state [world];
      [run] folds a list of events, the interleaving being an input.
      [Usage()] prints the template literal of lines 20-40
      ([usage_text]).  Theorems: the usage, missing-manifest,
      unreadable-update-file and digest-error runs; a run whose input
      file holds what an earlier run wrote starts from that manifest
      ([start_loads_written]).
    - [Schedule.v]: schedules as [interleaving]s of two event sources.
      The archive's events after its [manifest.json] entry change only
      what the digest continuation never reads (the projection [view]
      of the state is preserved), so with one [manifest.json] every
      schedule of the remaining entries, [close] and the digest stream
      writes the merged manifest once and exits 0
      ([run_one_manifest_any_schedule], a liveness property on finite
      schedules): it writes [JSON.stringify] of [merge] of the SHA-256
      of the archive, a refinement of Merge.v and Digest.v.
    - [TwoManifests.v]: two [manifest.json] entries of the same version
      read before either digest ends: the two [HandleManifest] calls
      filter the shared [update] before either entry is pushed
      ([concurrent_handlers], from [Merge.handle_parsed_shape]); an
      invariant of the two digest streams ([inv], [slot], kept by
      [stream_step]) holds along every interleaving of the two streams
      ([two_streams]), so every schedule writes the file twice and the
      last manifest holds the version twice
      ([run_two_manifests_duplicate]).

    Recursion and bounds.  Everything is structurally recursive except
    [JSON.parse], which is a fixpoint on fuel: [json_parse] gives
    [S (2 * length text)], enough because each nesting level and each
    element consumes at least one character and every level spends at
    most two units per character ([JsonParse.parse_progress]).  JSON
    numbers are [Z] restricted to integers of magnitude at most 2^53,
    the integers a double holds exactly; a text with a fraction, an
    exponent or a larger integer, or a lone surrogate escape, is
    reported as outside the model ([Beyond] in Run.v) rather than
    approximated.  No arithmetic of the program can overflow.

    Not modelled: the libraries the script only calls ([fs] is the
    record [Run.fs_env] of readable files and writable paths,
    [console] is the list of outputs; [yargs] parsing, [unzip2]'s
    decoding of the zip format, [crypto]'s SHA-256 itself, abstracted
    by [Digest.StreamingHash]); the messages of exceptions inside
    console lines; the information and warning lines 120 and 131; the
    operating system's encoding of [process.exit(-1)] as status 255
    ([Run.exit_code] records the argument); the properties a key
    inherits from [Object.prototype] ([constructor], [toString],
    [__proto__], ...), which [js_get] reads as [undefined]: for an
    add-on id naming one of them the script writes the new entry into
    that shared object and the file written lacks it, which the model
    does not show; an ['error'] event of the [unzip] stream (a corrupt
    archive), for which the script registers no handler; a
    [manifest.json] entry's [data] and [end] events are delivered
    together with the entry. *)

From Stdlib Require Import List String Ascii NArith Lia.
Import ListNotations.

Declare Scope faauv_scope.
Delimit Scope faauv_scope with faauv.

Create HintDb faauv discriminated.
Create Rewrite HintDb faauv_rw.

(** ** The error monad

    JavaScript code that can throw is modelled as a function into
    [result E A]: [Ok] is a normal completion, [Err] an exception. *)

Inductive result (E A : Type) : Type :=
| Ok (a : A)
| Err (e : E).
Arguments Ok {E A} a.
Arguments Err {E A} e.

Definition bind {E A B} (r : result E A) (k : A -> result E B) : result E B :=
  match r with
  | Ok a => k a
  | Err e => Err e
  end.

Notation "x <- c1 ;; c2" := (bind c1 (fun x => c2))
  (at level 61, c1 at next level, right associativity) : faauv_scope.
Notation "' pat <- c1 ;; c2" := (bind c1 (fun x => match x with pat => c2 end))
  (at level 61, pat pattern, c1 at next level, right associativity) : faauv_scope.

Open Scope faauv_scope.

Lemma bind_ok {E A B} (a : A) (k : A -> result E B) : bind (Ok a) k = k a.
Proof. reflexivity. Qed.

Lemma bind_err {E A B} (e : E) (k : A -> result E B) : bind (Err e) k = Err e.
Proof. reflexivity. Qed.

Lemma bind_eq_ok {E A B} (r : result E A) (k : A -> result E B) (b : B) :
  bind r k = Ok b -> exists a, r = Ok a /\ k a = Ok b.
Proof. destruct r; simpl; [eauto | discriminate]. Qed.

#[export] Hint Rewrite @bind_ok @bind_err : faauv_rw.

(** Peel the [bind]s of a hypothesis [bind r k = Ok b]. *)
Ltac inv_bind H :=
  let a := fresh "a" in let Ha := fresh "Ha" in
  apply bind_eq_ok in H; destruct H as [a [Ha H]].

(** ** Three-way comparisons that are total preorders *)

(** [cmp_then c k] is the comparison that looks at [k] when [c] ties. *)
Definition cmp_then (c k : comparison) : comparison :=
  match c with Eq => k | _ => c end.

Class CompareLaws {A : Type} (cmp : A -> A -> comparison) : Prop := {
  cmp_antisym : forall a b, cmp b a = CompOpp (cmp a b);
  cmp_lt_trans : forall a b c, cmp a b = Lt -> cmp b c = Lt -> cmp a c = Lt;
  cmp_eq_left : forall a b c, cmp a b = Eq -> cmp a c = cmp b c
}.
Arguments cmp_antisym {A} cmp {_} a b.
Arguments cmp_lt_trans {A} cmp {_} a b c _ _.
Arguments cmp_eq_left {A} cmp {_} a b c _.

Section CompareLawsFacts.
Context {A : Type} (cmp : A -> A -> comparison) `{!CompareLaws cmp}.

Lemma cmp_refl a : cmp a a = Eq.
Proof. pose proof (cmp_antisym cmp a a) as H. destruct (cmp a a); easy. Qed.

Lemma cmp_gt_lt a b : cmp a b = Gt <-> cmp b a = Lt.
Proof. rewrite (cmp_antisym cmp a b). destruct (cmp a b); easy. Qed.

Lemma cmp_eq_sym a b : cmp a b = Eq -> cmp b a = Eq.
Proof. rewrite (cmp_antisym cmp a b). now intros ->. Qed.

Lemma cmp_eq_right a b c : cmp b c = Eq -> cmp a b = cmp a c.
Proof.
  intros H. rewrite (cmp_antisym cmp b a), (cmp_antisym cmp c a).
  now rewrite (cmp_eq_left cmp b c a H).
Qed.

(** [cmp a b <> Gt] is the "at most" relation; it is transitive. *)
Lemma cmp_le_trans a b c : cmp a b <> Gt -> cmp b c <> Gt -> cmp a c <> Gt.
Proof.
  destruct (cmp a b) eqn:Hab, (cmp b c) eqn:Hbc; try easy; intros _ _.
  - now rewrite (cmp_eq_left cmp a b c Hab), Hbc.
  - now rewrite (cmp_eq_left cmp a b c Hab), Hbc.
  - now rewrite <- (cmp_eq_right a b c Hbc), Hab.
  - now rewrite (cmp_lt_trans cmp a b c Hab Hbc).
Qed.

Lemma cmp_le_lt_trans a b c : cmp a b <> Gt -> cmp b c = Lt -> cmp a c = Lt.
Proof.
  destruct (cmp a b) eqn:Hab; try easy; intros _ Hbc.
  - now rewrite (cmp_eq_left cmp a b c Hab).
  - exact (cmp_lt_trans cmp a b c Hab Hbc).
Qed.
End CompareLawsFacts.

(** ** Instances *)

#[export] Instance N_compare_laws : CompareLaws N.compare.
Proof.
  split.
  - intros a b. apply N.compare_antisym.
  - intros a b c. rewrite !N.compare_lt_iff. lia.
  - intros a b c H. apply N.compare_eq_iff in H. now subst.
Qed.

#[export] Instance Ascii_compare_laws : CompareLaws Ascii.compare.
Proof.
  unfold Ascii.compare. split.
  - intros a b. apply N.compare_antisym.
  - intros a b c. rewrite !N.compare_lt_iff. lia.
  - intros a b c H. apply N.compare_eq_iff in H. now rewrite H.
Qed.

(** Lexicographic comparison of lists: a proper prefix is smaller. *)
Fixpoint lex_cmp {A} (cmp : A -> A -> comparison) (l m : list A) : comparison :=
  match l, m with
  | [], [] => Eq
  | [], _ :: _ => Lt
  | _ :: _, [] => Gt
  | x :: l', y :: m' => cmp_then (cmp x y) (lex_cmp cmp l' m')
  end.

Lemma cmp_then_opp c k : CompOpp (cmp_then c k) = cmp_then (CompOpp c) (CompOpp k).
Proof. now destruct c. Qed.

Section Lex.
Context {A : Type} (cmp : A -> A -> comparison) `{!CompareLaws cmp}.

Lemma lex_cmp_eq_left l m n :
  lex_cmp cmp l m = Eq -> lex_cmp cmp l n = lex_cmp cmp m n.
Proof.
  revert m n; induction l as [|x l IH]; intros [|y m] [|z n]; simpl; try easy.
  destruct (cmp x y) eqn:Hxy; try easy. simpl. intros H.
  now rewrite (cmp_eq_left cmp x y z Hxy), (IH m n H).
Qed.

Lemma lex_cmp_lt_trans l m n :
  lex_cmp cmp l m = Lt -> lex_cmp cmp m n = Lt -> lex_cmp cmp l n = Lt.
Proof.
  revert m n; induction l as [|x l IH]; intros [|y m] [|z n]; simpl; try easy.
  destruct (cmp x y) eqn:Hxy, (cmp y z) eqn:Hyz; simpl; try easy.
  - rewrite (cmp_eq_left cmp x y z Hxy), Hyz. simpl. apply IH.
  - now rewrite (cmp_eq_left cmp x y z Hxy), Hyz.
  - now rewrite <- (cmp_eq_right cmp x y z Hyz), Hxy.
  - now rewrite (cmp_lt_trans cmp x y z Hxy Hyz).
Qed.

#[export] Instance lex_cmp_laws : CompareLaws (lex_cmp cmp).
Proof.
  split; [| exact lex_cmp_lt_trans | exact lex_cmp_eq_left].
  induction a as [|x l IH]; destruct b as [|y m]; simpl; try easy.
  now rewrite cmp_then_opp, IH, (cmp_antisym cmp x y).
Qed.
End Lex.

Lemma string_compare_lex s t :
  String.compare s t = lex_cmp Ascii.compare (list_ascii_of_string s) (list_ascii_of_string t).
Proof.
  revert t; induction s as [|c s IH]; intros [|d t]; simpl; try easy.
  now destruct (Ascii.compare c d); simpl.
Qed.

#[export] Instance String_compare_laws : CompareLaws String.compare.
Proof.
  split; intros *; rewrite !string_compare_lex.
  - apply cmp_antisym, lex_cmp_laws, Ascii_compare_laws.
  - apply cmp_lt_trans, lex_cmp_laws, Ascii_compare_laws.
  - intros H. now apply (cmp_eq_left (lex_cmp Ascii.compare)) with (b := list_ascii_of_string b).
Qed.

(** Two strings with different first characters compare as those characters. *)
Lemma string_compare_head c d s t :
  c <> d -> String.compare (String c s) (String d t) = Ascii.compare c d.
Proof.
  intros Hcd. simpl. destruct (Ascii.compare c d) eqn:E; try easy.
  now apply Ascii.compare_eq_iff in E.
Qed.

(** Comparison of a pair: first component, then second. *)
Definition pair_cmp {A B} (ca : A -> A -> comparison) (cb : B -> B -> comparison)
  (x y : A * B) : comparison :=
  cmp_then (ca (fst x) (fst y)) (cb (snd x) (snd y)).

#[export] Instance pair_cmp_laws {A B} (ca : A -> A -> comparison) (cb : B -> B -> comparison)
  `{!CompareLaws ca} `{!CompareLaws cb} : CompareLaws (pair_cmp ca cb).
Proof.
  unfold pair_cmp. split.
  - intros [a1 b1] [a2 b2]; simpl.
    now rewrite cmp_then_opp, (cmp_antisym ca a1 a2), (cmp_antisym cb b1 b2).
  - intros [a1 b1] [a2 b2] [a3 b3]; simpl.
    destruct (ca a1 a2) eqn:H12, (ca a2 a3) eqn:H23; simpl; try easy.
    + rewrite (cmp_eq_left ca a1 a2 a3 H12), H23. simpl. apply cmp_lt_trans. exact _.
    + now rewrite (cmp_eq_left ca a1 a2 a3 H12), H23.
    + now rewrite <- (cmp_eq_right ca a1 a2 a3 H23), H12.
    + now rewrite (cmp_lt_trans ca a1 a2 a3 H12 H23).
  - intros [a1 b1] [a2 b2] [a3 b3]; simpl.
    destruct (ca a1 a2) eqn:H12; try easy. simpl. intros H.
    now rewrite (cmp_eq_left ca a1 a2 a3 H12), (cmp_eq_left cb b1 b2 b3 H).
Qed.

(** Comparison of a sum: every [inl] is below every [inr]. *)
Definition sum_cmp {A B} (ca : A -> A -> comparison) (cb : B -> B -> comparison)
  (x y : A + B) : comparison :=
  match x, y with
  | inl a, inl a' => ca a a'
  | inr b, inr b' => cb b b'
  | inl _, inr _ => Lt
  | inr _, inl _ => Gt
  end.

#[export] Instance sum_cmp_laws {A B} (ca : A -> A -> comparison) (cb : B -> B -> comparison)
  `{!CompareLaws ca} `{!CompareLaws cb} : CompareLaws (sum_cmp ca cb).
Proof.
  split.
  - intros [a|b] [a'|b']; simpl; try easy; apply cmp_antisym; exact _.
  - intros [a|b] [a'|b'] [a''|b'']; simpl; try easy; apply cmp_lt_trans; exact _.
  - intros [a|b] [a'|b'] [a''|b'']; simpl; try easy; apply cmp_eq_left; exact _.
Qed.

(** ** Generic list facts *)

Lemma NoDup_map_filter {A B} (f : A -> B) (p : A -> bool) l :
  NoDup (map f l) -> NoDup (map f (filter p l)).
Proof.
  induction l as [|x l IH]; simpl; [easy|]. intros Hnd. inversion Hnd as [|? ? Hn Hnd']; subst.
  destruct (p x); simpl; [|now apply IH].
  constructor; [|now apply IH]. intros Hin. apply Hn.
  apply in_map_iff in Hin as (y & <- & Hy). apply in_map. now apply filter_In in Hy as [? _].
Qed.

Lemma NoDup_snoc {A} (l : list A) x : NoDup l -> ~ In x l -> NoDup (l ++ [x]).
Proof.
  intros Hl Hx. apply NoDup_app; auto using NoDup_cons, NoDup_nil.
  intros y Hy [<-|[]]. exact (Hx Hy).
Qed.

(** Filtering with [p] what a filter with [q] kept leaves nothing when
    [q] rejects every element [p] accepts. *)
Lemma filter_filter_none {A} (p q : A -> bool) l :
  (forall x, p x = true -> q x = false) -> filter p (filter q l) = [].
Proof.
  intros H. induction l as [|x l IH]; simpl; [reflexivity|].
  destruct (q x) eqn:Hq; simpl; [|exact IH].
  destruct (p x) eqn:Hp; [|exact IH]. rewrite (H x Hp) in Hq. discriminate.
Qed.
