(* ===== verification/JsValue.v ===== *)
(** * JavaScript values as [src/updater.js] uses them

    The script only handles values that [JSON.parse] produced (the
    update manifest read at line 68 and the archive's [manifest.json]
    parsed at line 104), plus the [undefined] that property reads
    return, so values are trees: [jsval] below.  Objects are lists of
    own properties in insertion order; arrays carry their elements and
    the named (non-index) properties a script may add to them, which
    [JSON.stringify] ignores.  Numbers are kept as integers [Z] (the
    manifests the script reads carry version strings, not fractional
    numbers).

    What is modelled, for the operations the script performs:
    - property read [o[k]] ([js_get]): [TypeError] on [undefined] and
      [null]; own properties of objects; [length] and indices of arrays
      and strings; [undefined] otherwise.  Properties inherited from
      [Object.prototype] (a key such as ["toString"]) are not modelled.
    - property write [o[k] = v] ([js_set]) in sloppy mode (the script has
      no ["use strict"]): [TypeError] on [undefined] and [null], silently
      ignored on other primitives, [RangeError] when the [length] of an
      array is set to an object (the only value the script may store
      under an arbitrary key, line 114).
    - truthiness, [a || b], [a && b], [===], [ToString],
      [Object.assign], [Array.prototype.filter] with a stateful callback,
      [Array.prototype.push]. *)

From Stdlib Require Import List String Ascii ZArith Bool DecimalString.
From S2P Require Import Prelude.
Import ListNotations.
Open Scope string_scope.
Open Scope faauv_scope.

(** ** Values and exceptions *)

#[warnings="-register-all"]
Inductive jsval : Type :=
| JUndefined
| JNull
| JBool (b : bool)
| JNum (n : Z)
| JStr (s : string)
| JArr (elems : list jsval) (props : list (string * jsval))
| JObj (props : list (string * jsval)).

Inductive exn : Type :=
| TypeError (what : string)
| RangeError (what : string)
| SyntaxError (what : string).

Abbreviation js A := (result exn A).

(** ** Decimal numerals, used for [ToString] and array indices *)

Definition string_of_nat (n : nat) : string :=
  NilEmpty.string_of_uint (Nat.to_uint n).

Definition string_of_Z (z : Z) : string :=
  NilEmpty.string_of_int (Z.to_int z).

(** The array index a property key denotes: the canonical decimal
    numeral of a number below [2^32 - 1] (ECMA-262 6.1.7, "array
    index").  The numeral is read in [N]; other keys, such as
    ["01"] or ["4294967295"], are ordinary names. *)
Definition array_index (k : string) : option N :=
  match NilEmpty.uint_of_string k with
  | Some u =>
      let n := N.of_uint u in
      if String.eqb (NilEmpty.string_of_uint (N.to_uint n)) k && (n <? 4294967295)%N
      then Some n else None
  | None => None
  end.

Definition index_of_key (k : string) : option nat := option_map N.to_nat (array_index k).

(** ** Own properties of objects *)

Fixpoint assoc_get (k : string) (ps : list (string * jsval)) : option jsval :=
  match ps with
  | [] => None
  | (k', v) :: ps' => if String.eqb k k' then Some v else assoc_get k ps'
  end.

(** Writing a property keeps the position of an existing key and
    appends a new one. *)
Fixpoint assoc_set (k : string) (v : jsval) (ps : list (string * jsval))
  : list (string * jsval) :=
  match ps with
  | [] => [(k, v)]
  | (k', v') :: ps' =>
      if String.eqb k k' then (k', v) :: ps' else (k', v') :: assoc_set k v ps'
  end.

Definition option_undef (o : option jsval) : jsval :=
  match o with Some v => v | None => JUndefined end.

(** One-character strings, as [s[i]] returns them. *)
Definition char_at (s : string) (i : nat) : option jsval :=
  match String.get i s with
  | Some c => Some (JStr (String c EmptyString))
  | None => None
  end.

(** [o[k]] *)
Definition js_get (o : jsval) (k : string) : js jsval :=
  match o with
  | JUndefined => Err (TypeError ("Cannot read properties of undefined (reading '" ++ k ++ "')"))
  | JNull => Err (TypeError ("Cannot read properties of null (reading '" ++ k ++ "')"))
  | JBool _ | JNum _ => Ok JUndefined
  | JStr s =>
      if String.eqb k "length" then Ok (JNum (Z.of_nat (String.length s)))
      else match index_of_key k with
           | Some i => Ok (option_undef (char_at s i))
           | None => Ok JUndefined
           end
  | JArr es ps =>
      if String.eqb k "length" then Ok (JNum (Z.of_nat (List.length es)))
      else match index_of_key k with
           | Some i => Ok (option_undef (nth_error es i))
           | None => Ok (option_undef (assoc_get k ps))
           end
  | JObj ps => Ok (option_undef (assoc_get k ps))
  end.

(** ** Operators *)

(** [if (v)], [!v]: [undefined], [null], [false], [0] and [""] are falsy. *)
Definition truthy (v : jsval) : bool :=
  match v with
  | JUndefined | JNull => false
  | JBool b => b
  | JNum n => negb (Z.eqb n 0)
  | JStr s => negb (String.eqb s "")
  | JArr _ _ | JObj _ => true
  end.

(** [a || b] and [a && b] return one of their operands. *)
Definition js_or (a b : jsval) : jsval := if truthy a then a else b.

Definition js_and (a : jsval) (b : js jsval) : js jsval :=
  if truthy a then b else Ok a.

(** [a === b].  Two objects or arrays are [===] only when they are the
    same reference; the script compares values of two different
    [JSON.parse] results (line 119), which never share a reference. *)
Definition strict_eq (a b : jsval) : bool :=
  match a, b with
  | JUndefined, JUndefined | JNull, JNull => true
  | JBool x, JBool y => Bool.eqb x y
  | JNum x, JNum y => Z.eqb x y
  | JStr x, JStr y => String.eqb x y
  | _, _ => false
  end.

(** [ToString(v)], as [encodeURIComponent] applies it to its argument
    and as string concatenation does. *)
Fixpoint to_string (v : jsval) : string :=
  match v with
  | JUndefined => "undefined"
  | JNull => "null"
  | JBool true => "true"
  | JBool false => "false"
  | JNum n => string_of_Z n
  | JStr s => s
  | JArr es _ =>
      (* Array.prototype.join(","): undefined and null elements print as "" *)
      let elem (e : jsval) :=
        match e with JUndefined | JNull => "" | _ => to_string e end in
      (fix join (es : list jsval) : string :=
         match es with
         | [] => ""
         | [e] => elem e
         | e :: es' => elem e ++ "," ++ join es'
         end) es
  | JObj _ => "[object Object]"
  end.

(** [ToUint32(v) = ToNumber(v)] of ArraySetLength (ECMA-262 10.4.2.4):
    the new length [v] denotes, when it is a valid one.  A string
    denotes a length when it is empty or made of decimal digits; the
    other numerals [ToNumber] accepts (white space, signs, fractions
    such as ["2.0"], exponents, hexadecimal) are not recognised. *)
Definition string_length_value (s : string) : option N :=
  if String.eqb s "" then Some 0%N
  else match NilEmpty.uint_of_string s with
       | Some u => let n := N.of_uint u in if (n <=? 4294967295)%N then Some n else None
       | None => None
       end.

Definition array_length_of (v : jsval) : option N :=
  match v with
  | JNum n => if (0 <=? n)%Z && (n <=? 4294967295)%Z then Some (Z.to_N n) else None
  | JBool b => Some (if b then 1%N else 0%N)
  | JNull => Some 0%N
  | JStr s => string_length_value s
  | JArr _ _ => string_length_value (to_string v)
  | JUndefined | JObj _ => None
  end.

(** Setting [length]: elements past it are removed, a longer array
    gets holes, which read as [undefined]. *)
Definition resize (n : nat) (es : list jsval) : list jsval :=
  firstn n es ++ repeat JUndefined (n - List.length es).

(** Writing element [i] of an array: in place below the length, past
    the end the array grows and the gap reads as [undefined]. *)
Fixpoint list_set_grow (i : nat) (v : jsval) (es : list jsval) : list jsval :=
  match i, es with
  | O, [] => [v]
  | O, _ :: es' => v :: es'
  | S i', [] => JUndefined :: list_set_grow i' v []
  | S i', e :: es' => e :: list_set_grow i' v es'
  end.

(** [o[k] = v]; the result is the new value of [o]. *)
Definition js_set (o : jsval) (k : string) (v : jsval) : js jsval :=
  match o with
  | JUndefined => Err (TypeError ("Cannot set properties of undefined (setting '" ++ k ++ "')"))
  | JNull => Err (TypeError ("Cannot set properties of null (setting '" ++ k ++ "')"))
  | JBool _ | JNum _ | JStr _ => Ok o
  | JArr es ps =>
      if String.eqb k "length" then
        match array_length_of v with
        | Some n => Ok (JArr (resize (N.to_nat n) es) ps)
        | None => Err (RangeError "Invalid array length")
        end
      else match index_of_key k with
           | Some i => Ok (JArr (list_set_grow i v es) ps)
           | None => Ok (JArr es (assoc_set k v ps))
           end
  | JObj ps => Ok (JObj (assoc_set k v ps))
  end.

(** ** [Object.assign] *)

Definition indexed {A} (xs : list A) : list (string * A) :=
  combine (map string_of_nat (seq 0 (List.length xs))) xs.

(** The own enumerable properties [Object.assign] copies from a source:
    none for [undefined], [null], booleans and numbers, the characters
    of a string, the elements and then the named properties of an
    array, the properties of an object. *)
Definition own_props (v : jsval) : list (string * jsval) :=
  match v with
  | JUndefined | JNull | JBool _ | JNum _ => []
  | JStr s => indexed (map (fun c => JStr (String c EmptyString)) (list_ascii_of_string s))
  | JArr es ps => indexed es ++ ps
  | JObj ps => ps
  end.

Definition assign_props (target : list (string * jsval)) (ps : list (string * jsval))
  : list (string * jsval) :=
  fold_left (fun t kv => assoc_set (fst kv) (snd kv) t) ps target.

(** [Object.assign({}, s1, ..., sn)] for a fresh target. *)
Definition object_assign (sources : list jsval) : jsval :=
  JObj (fold_left (fun t s => assign_props t (own_props s)) sources []).

(** ** Arrays *)

(** [a.filter(cb)] with a callback that threads a state (the closure
    variables it assigns).  A receiver that is not an array has no
    [filter] method. *)
Fixpoint filter_st {S} (cb : S -> jsval -> js (S * bool)) (s : S) (es : list jsval)
  : js (S * list jsval) :=
  match es with
  | [] => Ok (s, [])
  | e :: es' =>
      '(s1, keep) <- cb s e ;;
      '(s2, kept) <- filter_st cb s1 es' ;;
      Ok (s2, if keep then e :: kept else kept)
  end.

Definition js_filter {S} (a : jsval) (cb : S -> jsval -> js (S * bool)) (s : S)
  : js (S * jsval) :=
  match a with
  | JArr es _ => '(s', kept) <- filter_st cb s es ;; Ok (s', JArr kept [])
  | _ => Err (TypeError "filter is not a function")
  end.

(** [a.push(x)]; the result is the new value of [a]. *)
Definition js_push (a x : jsval) : js jsval :=
  match a with
  | JArr es ps => Ok (JArr (es ++ [x]) ps)
  | JUndefined => Err (TypeError "Cannot read properties of undefined (reading 'push')")
  | JNull => Err (TypeError "Cannot read properties of null (reading 'push')")
  | _ => Err (TypeError "push is not a function")
  end.

(** ** Laws of properties *)

Lemma assoc_get_set_eq k v ps : assoc_get k (assoc_set k v ps) = Some v.
Proof.
  induction ps as [|[k' v'] ps IH]; simpl.
  - now rewrite String.eqb_refl.
  - destruct (String.eqb k k') eqn:E; simpl; rewrite ?E; auto.
Qed.

Lemma assoc_get_set_ne k k' v ps :
  k <> k' -> assoc_get k' (assoc_set k v ps) = assoc_get k' ps.
Proof.
  intros Hne. induction ps as [|[k'' v'] ps IH]; simpl.
  - apply String.eqb_neq in Hne. now rewrite String.eqb_sym, Hne.
  - destruct (String.eqb k k'') eqn:E; simpl.
    + apply String.eqb_eq in E. subst k''.
      apply String.eqb_neq in Hne. now rewrite String.eqb_sym, Hne.
    + now rewrite IH.
Qed.

Lemma assoc_get_app k ps qs :
  assoc_get k (ps ++ qs) =
  match assoc_get k ps with Some v => Some v | None => assoc_get k qs end.
Proof.
  induction ps as [|[k' v'] ps IH]; simpl; [easy|].
  now destruct (String.eqb k k').
Qed.

Lemma assoc_get_In k v ps : assoc_get k ps = Some v -> In (k, v) ps.
Proof.
  induction ps as [|[k' v'] ps IH]; simpl; [easy|].
  destruct (String.eqb k k') eqn:E; intros H.
  - apply String.eqb_eq in E. inversion H. subst. now left.
  - right. now apply IH.
Qed.

Lemma assoc_get_none k ps : ~ In k (map fst ps) -> assoc_get k ps = None.
Proof.
  induction ps as [|[k' v'] ps IH]; simpl; [easy|]. intros Hn.
  destruct (String.eqb k k') eqn:E.
  - apply String.eqb_eq in E. subst. tauto.
  - tauto.
Qed.

(** With distinct keys, the first binding of a key is the last one. *)
Lemma assoc_get_rev k ps : NoDup (map fst ps) -> assoc_get k (rev ps) = assoc_get k ps.
Proof.
  induction ps as [|[k' v'] ps IH]; simpl; [easy|]. intros Hnd.
  inversion Hnd as [|? ? Hnin Hnd']; subst.
  rewrite assoc_get_app, IH by exact Hnd'. simpl.
  destruct (String.eqb k k') eqn:E.
  - apply String.eqb_eq in E. subst k'. now rewrite assoc_get_none.
  - now destruct (assoc_get k ps).
Qed.

Lemma assoc_get_assign k t ps :
  assoc_get k (assign_props t ps) =
  match assoc_get k (rev ps) with Some v => Some v | None => assoc_get k t end.
Proof.
  revert t. induction ps as [|[k' v'] ps IH]; intros t; simpl; [easy|].
  rewrite IH, assoc_get_app. simpl.
  destruct (assoc_get k (rev ps)); [easy|].
  destruct (String.eqb k k') eqn:E.
  - apply String.eqb_eq in E. subst. apply assoc_get_set_eq.
  - apply assoc_get_set_ne. intros ->. now rewrite String.eqb_refl in E.
Qed.

#[export] Hint Rewrite assoc_get_set_eq assoc_get_app assoc_get_assign : faauv_rw.

Lemma js_set_obj ps k v : js_set (JObj ps) k v = Ok (JObj (assoc_set k v ps)).
Proof. reflexivity. Qed.

Lemma js_get_obj ps k : js_get (JObj ps) k = Ok (option_undef (assoc_get k ps)).
Proof. reflexivity. Qed.

#[export] Hint Rewrite js_set_obj js_get_obj : faauv_rw.

Lemma assoc_set_set k v1 v2 ps : assoc_set k v2 (assoc_set k v1 ps) = assoc_set k v2 ps.
Proof.
  induction ps as [|[k' v'] ps IH]; simpl.
  - now rewrite String.eqb_refl.
  - destruct (String.eqb k k') eqn:E; simpl; rewrite E; congruence.
Qed.

Lemma assoc_set_get_id k v ps : assoc_get k ps = Some v -> assoc_set k v ps = ps.
Proof.
  induction ps as [|[k' v'] ps IH]; simpl; [discriminate|].
  destruct (String.eqb k k') eqn:E; [congruence|]. intros H. now rewrite IH.
Qed.

#[export] Hint Rewrite assoc_set_set : faauv_rw.
