(* ===== verification/JsString.v ===== *)
(** * String primitives of [src/updater.js]

    The script builds the new [update_link] with two built-ins:
    - [String.prototype.replace] with a string pattern (lines 128-130
      and 137).  With a string pattern only the FIRST occurrence is
      replaced, and the replacement string is scanned for the
      substitution patterns [$$], [$&], [$`] and [$'] (ECMAScript
      GetSubstitution; with no capture groups, [$1] and [$<] stay
      literal).  Modelled by [split_first], [get_substitution] and
      [js_replace].
    - [encodeURIComponent] (lines 129, 130, 137) on the [ToString] of its
      argument.  A string is modelled by the bytes of its UTF-8
      encoding; the built-in percent-encodes each byte of every code
      point outside the unreserved set A-Z a-z 0-9 - _ . ! ~ * ' ( ),
      with upper-case hex digits, which is what [encode_uri_component]
      does byte by byte.  (Lone UTF-16 surrogates, for which the
      built-in throws [URIError], have no UTF-8 form and are not
      modelled.)

    The main facts: the output of [encode_uri_component] contains no
    [$], so the replacement is literal; [js_replace] splits at the
    first occurrence and leaves every later occurrence in place;
    [encode_uri_component] is injective (it has a left inverse). *)

From Stdlib Require Import List String Ascii NArith Bool Lia.
From S2P Require Import Prelude JsValue.
Import ListNotations.
Open Scope string_scope.
Open Scope faauv_scope.

(** ** [String.prototype.replace] with a string pattern *)

Fixpoint drop (n : nat) (s : string) : string :=
  match n, s with
  | O, _ => s
  | S _, EmptyString => EmptyString
  | S n', String _ s' => drop n' s'
  end.

(** The text before and after the first occurrence of [pat] in [s]
    ([s.indexOf(pat)]); the empty pattern occurs at position 0. *)
Fixpoint split_first (pat s : string) : option (string * string) :=
  if String.prefix pat s then Some (EmptyString, drop (String.length pat) s)
  else match s with
       | EmptyString => None
       | String c s' =>
           match split_first pat s' with
           | Some (pre, post) => Some (String c pre, post)
           | None => None
           end
       end.

(** GetSubstitution(matched, str, position, replacement) with no
    captures: [pre] and [post] are the text before and after the match. *)
Fixpoint get_substitution (matched pre post r : string) : string :=
  match r with
  | EmptyString => EmptyString
  | String c r1 =>
      if Ascii.eqb c "$" then
        match r1 with
        | String d r2 =>
            if Ascii.eqb d "$" then String "$" (get_substitution matched pre post r2)
            else if Ascii.eqb d "&" then matched ++ get_substitution matched pre post r2
            else if Ascii.eqb d "`" then pre ++ get_substitution matched pre post r2
            else if Ascii.eqb d "'" then post ++ get_substitution matched pre post r2
            else String c (get_substitution matched pre post r1)
        | EmptyString => String c EmptyString
        end
      else String c (get_substitution matched pre post r1)
  end.

(** [s.replace(pat, r)] for strings [pat] and [r]. *)
Definition js_replace (s pat r : string) : string :=
  match split_first pat s with
  | None => s
  | Some (pre, post) => pre ++ get_substitution pat pre post r ++ post
  end.

(** The method call [recv.replace(pat, r)]: only strings have it. *)
Definition js_replace_call (recv : jsval) (pat r : string) : js string :=
  match recv with
  | JStr s => Ok (js_replace s pat r)
  | JUndefined => Err (TypeError "Cannot read properties of undefined (reading 'replace')")
  | JNull => Err (TypeError "Cannot read properties of null (reading 'replace')")
  | _ => Err (TypeError "replace is not a function")
  end.

(** ** [encodeURIComponent] *)

Definition is_alnum (c : ascii) : bool :=
  let n := N_of_ascii c in
  (((48 <=? n) && (n <=? 57)) || ((65 <=? n) && (n <=? 90)) || ((97 <=? n) && (n <=? 122)))%N.

Definition uri_unreserved (c : ascii) : bool :=
  is_alnum c || existsb (Ascii.eqb c) (list_ascii_of_string "-_.!~*'()").

Definition hex_digit (n : N) : ascii :=
  if (n <? 10)%N then ascii_of_N (48 + n)%N else ascii_of_N (55 + n)%N.

Definition percent_encode (c : ascii) : string :=
  String "%" (String (hex_digit (N_of_ascii c / 16)) (String (hex_digit (N_of_ascii c mod 16)) EmptyString)).

Fixpoint encode_uri_component (s : string) : string :=
  match s with
  | EmptyString => EmptyString
  | String c s' =>
      (if uri_unreserved c then String c EmptyString else percent_encode c)
        ++ encode_uri_component s'
  end.

(** [encodeURIComponent(v)] converts its argument with [ToString]. *)
Definition js_encodeURIComponent (v : jsval) : string :=
  encode_uri_component (to_string v).

(** ** Laws of [replace] *)

Lemma prefix_iff pat s : String.prefix pat s = true <-> exists b, s = pat ++ b.
Proof.
  revert s; induction pat as [|c pat IH]; intros [|d s]; simpl.
  - split; eauto.
  - split; eauto.
  - split; [discriminate | intros [b Hb]; discriminate].
  - destruct (ascii_dec c d) as [->|Hne].
    + rewrite IH. split; intros [b Hb]; exists b; congruence.
    + split; [discriminate | intros [b Hb]; congruence].
Qed.

Lemma drop_app pat b : drop (String.length pat) (pat ++ b) = b.
Proof. induction pat; simpl; auto. Qed.

Ltac case_prefix :=
  match goal with |- context [String.prefix ?p ?x] => destruct (String.prefix p x) eqn:Hp end.

(** [split_first] returns the text around an occurrence of [pat] ... *)
Lemma split_first_some pat s pre post :
  split_first pat s = Some (pre, post) -> s = pre ++ pat ++ post.
Proof.
  revert pre post; induction s as [|c s IH]; intros pre post; cbn [split_first]; case_prefix.
  - intros [= <- <-]. destruct pat; [reflexivity | discriminate].
  - discriminate.
  - intros [= <- <-]. apply prefix_iff in Hp as [b Hb]. rewrite Hb, drop_app. reflexivity.
  - destruct (split_first pat s) as [[pre' post']|]; [|discriminate].
    intros [= <- <-]. simpl. f_equal. now apply IH.
Qed.

(** ... and that occurrence is the first one. *)
Lemma split_first_first pat s pre post a b :
  split_first pat s = Some (pre, post) -> s = a ++ pat ++ b ->
  String.length pre <= String.length a.
Proof.
  revert pre post a; induction s as [|c s IH]; intros pre post a; cbn [split_first]; case_prefix.
  - intros [= <- _] _. simpl. lia.
  - discriminate.
  - intros [= <- _] _. simpl. lia.
  - destruct (split_first pat s) as [[pre' post']|] eqn:Hs; [|discriminate].
    intros [= <- <-] Ha. destruct a as [|c' a]; simpl in Ha.
    + exfalso. rewrite Ha in Hp. assert (String.prefix pat (pat ++ b) = true) as Hq
        by (apply prefix_iff; eauto). congruence.
    + inversion Ha; subst. simpl. specialize (IH pre' post' a eq_refl eq_refl). lia.
Qed.

Lemma split_first_none pat s a b : split_first pat s = None -> s <> a ++ pat ++ b.
Proof.
  revert a; induction s as [|c s IH]; intros a; cbn [split_first]; case_prefix; try discriminate.
  - intros _ Hs. destruct a, pat; simpl in *; discriminate.
  - destruct (split_first pat s) as [[? ?]|]; [discriminate|]. intros _ Hs.
    destruct a as [|c' a]; simpl in Hs.
    + rewrite Hs in Hp. assert (String.prefix pat (pat ++ b) = true) as Hq
        by (apply prefix_iff; eauto). congruence.
    + inversion Hs; subst. now apply (IH a).
Qed.

(** A replacement string with no [$] is inserted literally. *)
Definition no_dollar (r : string) : bool :=
  forallb (fun c => negb (Ascii.eqb c "$")) (list_ascii_of_string r).

Lemma get_substitution_literal m pre post r :
  no_dollar r = true -> get_substitution m pre post r = r.
Proof.
  unfold no_dollar. induction r as [|c r IH]; simpl; [easy|].
  intros H. apply andb_prop in H as [Hc Hr]. apply negb_true_iff in Hc.
  rewrite Hc. f_equal. now apply IH.
Qed.

Lemma js_replace_literal s pat r pre post :
  no_dollar r = true -> split_first pat s = Some (pre, post) ->
  js_replace s pat r = pre ++ r ++ post.
Proof. intros Hr Hs. unfold js_replace. now rewrite Hs, get_substitution_literal. Qed.

Lemma js_replace_absent s pat r : split_first pat s = None -> js_replace s pat r = s.
Proof. intros Hs. unfold js_replace. now rewrite Hs. Qed.

(** ** Laws of [encodeURIComponent] *)

Lemma list_ascii_of_string_app a b :
  list_ascii_of_string (a ++ b) = (list_ascii_of_string a ++ list_ascii_of_string b)%list.
Proof. induction a; simpl; congruence. Qed.

Lemma no_dollar_app a b : no_dollar (a ++ b) = no_dollar a && no_dollar b.
Proof. unfold no_dollar. now rewrite list_ascii_of_string_app, forallb_app. Qed.

Lemma hex_digit_code n : (n < 16)%N ->
  N_of_ascii (hex_digit n) = if (n <? 10)%N then (48 + n)%N else (55 + n)%N.
Proof.
  intros Hn. unfold hex_digit.
  destruct (N.ltb_spec n 10); apply N_ascii_embedding; lia.
Qed.

Lemma hex_digit_inj n m : (n < 16)%N -> (m < 16)%N -> hex_digit n = hex_digit m -> n = m.
Proof.
  intros Hn Hm H. apply (f_equal N_of_ascii) in H.
  rewrite !hex_digit_code in H by assumption.
  destruct (N.ltb_spec n 10), (N.ltb_spec m 10); lia.
Qed.

Lemma ascii_div16_lt (c : ascii) : (N_of_ascii c / 16 < 16)%N.
Proof. pose proof (N_ascii_bounded c). apply N.Div0.div_lt_upper_bound. lia. Qed.

Lemma ascii_mod16_lt (c : ascii) : (N_of_ascii c mod 16 < 16)%N.
Proof. now apply N.mod_lt. Qed.

(** One input byte becomes one chunk of the output. *)
Definition uri_chunk (c : ascii) : string :=
  if uri_unreserved c then String c EmptyString else percent_encode c.

Lemma encode_uri_component_cons c s :
  encode_uri_component (String c s) = uri_chunk c ++ encode_uri_component s.
Proof. reflexivity. Qed.

Lemma uri_chunk_no_dollar c : no_dollar (uri_chunk c) = true.
Proof.
  unfold uri_chunk, no_dollar. destruct (uri_unreserved c) eqn:Hu; simpl.
  - destruct (Ascii.eqb_spec c "$"); [subst; discriminate | reflexivity].
  - assert (Hd : forall n, (n < 16)%N -> Ascii.eqb (hex_digit n) "$" = false).
    { intros n Hn. apply Ascii.eqb_neq. intros He. apply (f_equal N_of_ascii) in He.
      rewrite hex_digit_code in He by exact Hn. change (N_of_ascii "$") with 36%N in He.
      destruct (N.ltb_spec n 10); lia. }
    now rewrite !Hd by (apply ascii_div16_lt || apply ascii_mod16_lt).
Qed.

Lemma uri_chunk_inj c1 c2 r1 r2 :
  uri_chunk c1 ++ r1 = uri_chunk c2 ++ r2 -> c1 = c2 /\ r1 = r2.
Proof.
  unfold uri_chunk, percent_encode.
  destruct (uri_unreserved c1) eqn:H1, (uri_unreserved c2) eqn:H2; simpl;
    intros H; inversion H; subst; try easy;
    try (vm_compute in H1; discriminate); try (vm_compute in H2; discriminate).
  assert (Hq : (N_of_ascii c1 / 16 = N_of_ascii c2 / 16)%N)
    by (apply hex_digit_inj; auto using ascii_div16_lt).
  assert (Hm : (N_of_ascii c1 mod 16 = N_of_ascii c2 mod 16)%N)
    by (apply hex_digit_inj; auto using ascii_mod16_lt).
  split; [|reflexivity].
  rewrite <- (ascii_N_embedding c1), <- (ascii_N_embedding c2). f_equal.
  rewrite (N.div_mod (N_of_ascii c1) 16), (N.div_mod (N_of_ascii c2) 16) by lia.
  now rewrite Hq, Hm.
Qed.

Lemma string_app_inv a b x y :
  a ++ x = b ++ y -> String.length a = String.length b -> a = b /\ x = y.
Proof.
  revert b; induction a as [|c a IH]; intros [|d b]; simpl; try easy.
  intros H Hl. inversion H; subst. destruct (IH b) as [-> ->]; auto.
Qed.

(** ** Theorems *)

(** C10: the output of [encodeURIComponent] never contains [$], so when
    the script passes it as the replacement string of [replace] (lines
    128-130 and 137) none of the [$]-patterns of GetSubstitution apply. *)
Theorem encode_uri_component_no_dollar s : no_dollar (encode_uri_component s) = true.
Proof.
  induction s as [|c s IH]; [reflexivity|].
  rewrite encode_uri_component_cons, no_dollar_app, uri_chunk_no_dollar. exact IH.
Qed.

(** [encodeURIComponent] is injective: two different version strings
    never have the same encoded form, so the old version's encoded form
    searched for at line 129 identifies that version. *)
Theorem encode_uri_component_inj s t :
  encode_uri_component s = encode_uri_component t -> s = t.
Proof.
  revert t; induction s as [|c s IH]; intros [|d t]; simpl; try easy.
  - unfold uri_chunk. destruct (uri_unreserved d); discriminate.
  - unfold uri_chunk. destruct (uri_unreserved c); discriminate.
  - intros H. apply uri_chunk_inj in H as [-> H]. f_equal. now apply IH.
Qed.

(** C9: with a [$]-free replacement, [s.replace(pat, r)] replaces
    exactly the first occurrence of [pat]: if [pre] is the text before
    the first occurrence, the result is [pre ++ r ++ post], where [post]
    is left verbatim even when it contains [pat] again. *)
Theorem js_replace_first_occurrence pre pat post r :
  (forall a b, pre ++ pat ++ post = a ++ pat ++ b -> String.length pre <= String.length a) ->
  no_dollar r = true ->
  js_replace (pre ++ pat ++ post) pat r = pre ++ r ++ post.
Proof.
  intros Hfirst Hr. destruct (split_first pat (pre ++ pat ++ post)) as [[pre' post']|] eqn:Hs.
  - pose proof (split_first_some _ _ _ _ Hs) as Heq.
    pose proof (split_first_first _ _ _ _ _ _ Hs eq_refl) as Hle.
    specialize (Hfirst pre' post' Heq).
    destruct (string_app_inv pre pre' (pat ++ post) (pat ++ post')) as [<- Hp]; [exact Heq | lia|].
    rewrite (js_replace_literal _ _ _ _ _ Hr Hs).
    apply (string_app_inv pat pat) in Hp as [_ ->]; auto.
  - exfalso. exact (split_first_none pat _ pre post Hs eq_refl).
Qed.

(** ** Witnesses *)

Lemma js_replace_first_occurrence_witness :
  js_replace ("https://y/" ++ "@version@" ++ "/@version@.xpi") "@version@" "2.0"
  = "https://y/" ++ "2.0" ++ "/@version@.xpi".
Proof.
  apply js_replace_first_occurrence; [|reflexivity].
  intros a b Hab. destruct (split_first "@version@" ("https://y/" ++ "@version@" ++ "/@version@.xpi"))
    as [[pre post]|] eqn:Hs; [|discriminate].
  pose proof (split_first_first _ _ _ _ a b Hs Hab) as Hle.
  vm_compute in Hs. injection Hs as <- <-. exact Hle.
Defined.
