(* ===== verification/VersionCompare.v ===== *)
(** * The version comparator

    [src/updater.js] compares versions with [compver], the npm package
    [mozilla-version-comparator] (line 17, used at line 117 as
    [compver(entry.version, lastVersion.version) > 0]).  The package is
    not code of this repository.  This file states what the merge engine
    relies on, as the class [VersionComparator]: a three-way comparison
    of version strings that is a total preorder ([CompareLaws]).

    It then models one comparator from the spec (section 4.1): the
    strings are split into maximal runs of digits and of non-digits
    ([runs]); runs are compared position by position, digit runs as
    integers, other runs lexically; a list that ends first is smaller;
    when the runs at a position are of different kinds, the remaining
    texts are compared lexically ([compare_runs]).  The theorem
    [mozilla_compver_lex] shows that this is the lexicographic order of
    a key per run (a class, then the integer or the text), from which
    the preorder laws follow. *)

From Stdlib Require Import List String Ascii NArith Bool Lia.
From S2P Require Import Prelude.
Import ListNotations.
Open Scope string_scope.

(** ** The interface the merge engine uses *)

Class VersionComparator : Type := {
  compver : string -> string -> comparison;
  compver_laws :: CompareLaws compver
}.

(** ** A comparator modelled on the spec *)

Inductive vrun : Type :=
| RNum (digits : string)
| RStr (text : string).

Definition is_digit (c : ascii) : bool :=
  ((48 <=? N_of_ascii c) && (N_of_ascii c <=? 57))%N.

(** Maximal runs of digits and of non-digits, left to right. *)
Fixpoint runs (s : string) : list vrun :=
  match s with
  | EmptyString => []
  | String c s' =>
      match runs s' with
      | RNum d :: rs =>
          if is_digit c then RNum (String c d) :: rs
          else RStr (String c EmptyString) :: RNum d :: rs
      | RStr t :: rs =>
          if is_digit c then RNum (String c EmptyString) :: RStr t :: rs
          else RStr (String c t) :: rs
      | [] => [if is_digit c then RNum (String c EmptyString) else RStr (String c EmptyString)]
      end
  end.

(** The integer a run of decimal digits denotes. *)
Fixpoint digits_value_acc (acc : N) (d : string) : N :=
  match d with
  | EmptyString => acc
  | String c d' => digits_value_acc (10 * acc + (N_of_ascii c - 48)) d'
  end.

Definition digits_value (d : string) : N := digits_value_acc 0 d.

Definition run_text (r : vrun) : string :=
  match r with RNum d => d | RStr t => t end.

Fixpoint runs_text (rs : list vrun) : string :=
  match rs with
  | [] => EmptyString
  | r :: rs' => run_text r ++ runs_text rs'
  end.

Fixpoint compare_runs (a b : list vrun) : comparison :=
  match a, b with
  | [], [] => Eq
  | [], _ :: _ => Lt
  | _ :: _, [] => Gt
  | RNum x :: a', RNum y :: b' => cmp_then (N.compare (digits_value x) (digits_value y)) (compare_runs a' b')
  | RStr x :: a', RStr y :: b' => cmp_then (String.compare x y) (compare_runs a' b')
  | _, _ => String.compare (runs_text a) (runs_text b)
  end.

Definition mozilla_compver (a b : string) : comparison :=
  compare_runs (runs a) (runs b).

(** ** The reference order: lexicographic on run keys *)

(** Non-digit runs starting below ['0'] (such as ["."]) come first,
    then digit runs, then the other non-digit runs (letters). *)
Definition run_key (r : vrun) : N * (N + string) :=
  match r with
  | RNum d => (1%N, inl (digits_value d))
  | RStr (String c _ as t) => (if (N_of_ascii c <? 48)%N then 0%N else 2%N, inr t)
  | RStr t => (0%N, inr t)
  end.

Definition key_cmp : N * (N + string) -> N * (N + string) -> comparison :=
  pair_cmp N.compare (sum_cmp N.compare String.compare).

Definition ref_compare (a b : list vrun) : comparison :=
  lex_cmp key_cmp (map run_key a) (map run_key b).

(** ** The tokenizer produces well-formed runs *)

(** A digit run starts with a digit, a text run with a non-digit. *)
Definition wf_run (r : vrun) : bool :=
  match r with
  | RNum (String c _) => is_digit c
  | RStr (String c _) => negb (is_digit c)
  | _ => false
  end.

Lemma runs_wf s : Forall (fun r => wf_run r = true) (runs s).
Proof.
  induction s as [|c s IH]; simpl; [constructor|].
  destruct (runs s) as [|[d|t] rs]; inversion IH; subst;
    destruct (is_digit c) eqn:Hc; simpl; repeat constructor; simpl; rewrite ?Hc; auto.
Qed.

Definition text_class (c : ascii) : N := if (N_of_ascii c <? 48)%N then 0%N else 2%N.

Lemma digit_vs_text c d :
  is_digit c = true -> is_digit d = false ->
  Ascii.compare c d = N.compare 1 (text_class d).
Proof.
  unfold is_digit, text_class, Ascii.compare. intros Hc Hd.
  apply andb_prop in Hc as [Hc1 Hc2]. apply N.leb_le in Hc1, Hc2.
  destruct (N.ltb_spec (N_of_ascii d) 48); simpl.
  - apply N.compare_gt_iff. lia.
  - assert (57 < N_of_ascii d)%N.
    { destruct (N.leb_spec 48 (N_of_ascii d)), (N.leb_spec (N_of_ascii d) 57);
        simpl in Hd; try discriminate; lia. }
    apply N.compare_lt_iff. lia.
Qed.

Lemma ascii_ne_of_code c d : N_of_ascii c <> N_of_ascii d -> c <> d.
Proof. intros H ->. now apply H. Qed.

Lemma text_vs_text c x d y :
  is_digit c = false -> is_digit d = false ->
  cmp_then (N.compare (text_class c) (text_class d)) (String.compare (String c x) (String d y))
  = String.compare (String c x) (String d y).
Proof.
  unfold is_digit, text_class. intros Hc Hd.
  assert (Hcd : forall e, is_digit e = false -> (48 <= N_of_ascii e)%N -> (57 < N_of_ascii e)%N).
  { unfold is_digit. intros e He H48.
    destruct (N.leb_spec (N_of_ascii e) 57); [|lia].
    apply N.leb_le in H48. now rewrite H48 in He. }
  destruct (N.ltb_spec (N_of_ascii c) 48), (N.ltb_spec (N_of_ascii d) 48); cbn -[String.compare N_of_ascii]; try reflexivity.
  - pose proof (Hcd d Hd ltac:(lia)).
    rewrite string_compare_head by (apply ascii_ne_of_code; lia).
    symmetry. apply N.compare_lt_iff. lia.
  - pose proof (Hcd c Hc ltac:(lia)).
    rewrite string_compare_head by (apply ascii_ne_of_code; lia).
    symmetry. apply N.compare_gt_iff. lia.
Qed.

(** ** The comparator is the lexicographic order of run keys *)

Lemma compare_runs_ref a b :
  Forall (fun r => wf_run r = true) a -> Forall (fun r => wf_run r = true) b ->
  compare_runs a b = ref_compare a b.
Proof.
  unfold ref_compare.
  revert b; induction a as [|ra a IH]; intros [|rb b] Ha Hb; try reflexivity; try (destruct ra; reflexivity).
  apply Forall_cons_iff in Ha as [Hra Ha']. apply Forall_cons_iff in Hb as [Hrb Hb'].
  destruct ra as [[|c x]|[|c x]], rb as [[|d y]|[|d y]]; simpl in Hra, Hrb; cbn -[String.compare N_of_ascii];
    try discriminate; unfold key_cmp, pair_cmp; cbn -[String.compare N_of_ascii]; rewrite ?(IH b) by assumption.
  - reflexivity.
  - apply negb_true_iff in Hrb.
    rewrite string_compare_head by (intros ->; congruence).
    fold (text_class d). rewrite (digit_vs_text c d Hra Hrb).
    unfold text_class. now destruct (N_of_ascii d <? 48)%N.
  - apply negb_true_iff in Hra.
    rewrite string_compare_head by (intros ->; congruence).
    fold (text_class c). rewrite Ascii.compare_antisym, (digit_vs_text d c Hrb Hra).
    unfold text_class. now destruct (N_of_ascii c <? 48)%N.
  - apply negb_true_iff in Hra, Hrb. fold (text_class c) (text_class d).
    now rewrite (text_vs_text c x d y Hra Hrb).
Qed.

#[export] Instance mozilla_compver_laws : CompareLaws mozilla_compver.
Proof.
  assert (H : forall a b, mozilla_compver a b = ref_compare (runs a) (runs b))
    by (intros; apply compare_runs_ref; apply runs_wf).
  unfold ref_compare in H. split; intros *; rewrite ?H.
  - apply cmp_antisym. exact _.
  - apply cmp_lt_trans. exact _.
  - intros E. now rewrite (cmp_eq_left _ _ _ _ E).
Qed.

#[export] Instance mozilla_version_comparator : VersionComparator :=
  {| compver := mozilla_compver |}.

(** ** Theorems *)

(** C11: the modelled comparator is the lexicographic order of the run
    keys: digit runs compare as integers, text runs as strings, and a
    text run starting below ['0'] sorts before a digit run, which sorts
    before any other text run. *)
Theorem mozilla_compver_lex a b :
  mozilla_compver a b = ref_compare (runs a) (runs b).
Proof. apply compare_runs_ref; apply runs_wf. Qed.

(** C12: [compare(a,a)] is zero and [compare] is antisymmetric
    (spec section 8). *)
Theorem mozilla_compver_refl_antisym a b :
  mozilla_compver a a = Eq /\ mozilla_compver b a = CompOpp (mozilla_compver a b).
Proof. split; [apply cmp_refl | apply cmp_antisym]; exact _. Qed.

(** C13: "at most" is transitive for the modelled comparator, so the
    running maximum the merge keeps is a maximum of the whole list. *)
Theorem mozilla_compver_le_trans a b c :
  mozilla_compver a b <> Gt -> mozilla_compver b c <> Gt -> mozilla_compver a c <> Gt.
Proof. apply cmp_le_trans. exact _. Qed.

Lemma mozilla_compver_le_trans_witness :
  mozilla_compver "1.0" "1.0.1" <> Gt /\ mozilla_compver "1.0.1" "1.0.10" <> Gt /\
  mozilla_compver "1.0" "1.0.10" <> Gt.
Proof.
  split; [vm_compute; discriminate|]. split; [vm_compute; discriminate|].
  apply (mozilla_compver_le_trans "1.0" "1.0.1" "1.0.10"); vm_compute; discriminate.
Defined.

(** Example: the concrete comparisons of spec section 8: ["1.0.1" < "1.0.2"],
    ["1.0.10" > "1.0.2"], and the degenerate ["1.0" <= "1.0.0"] (here
    strictly smaller: a missing trailing segment sorts lower). *)
Theorem mozilla_compver_spec_examples :
  mozilla_compver "1.0.1" "1.0.2" = Lt /\ mozilla_compver "1.0.10" "1.0.2" = Gt /\
  mozilla_compver "1.0" "1.0.0" = Lt.
Proof. vm_compute. repeat split. Qed.
