(* ===== verification/Merge.v ===== *)
(** * The merge engine: [HandleManifest] and the hash continuation

    [src/updater.js] lines 101-167 handle the parsed [manifest.json] of
    the archive: they find the add-on id (lines 106-112), make sure the
    add-on has a record in the update manifest (113-114), rebuild its
    [updates] array with a filter whose callback also tracks the latest
    version (115-124), resolve the download URL (125-137) and start the
    hash; when the hash arrives, the new entry is built by
    [Object.assign] from the latest entry and pushed (139-145).

    The model is generic in the comparator: [Section Merge] takes any
    [VersionComparator].  Exceptions are values of [exn] (JsValue.v);
    the ways the handler stops are values of [stop]:
    - [StopThrow e]: an exception inside the [try] of lines 103-166,
      caught at line 163 ("Could not parse manifest", exit -1);
    - [StopNoAddonId]: line 109-111, exit -1;
    - [StopNoUpdateUrl]: lines 132-134, exit -1;
    - [StopThenThrow e]: an exception inside the [.then] callback, caught
      by the [.catch] of line 157 ("Could not compute hash", exit -1).

    The script reads and writes nested properties through chains such
    as [update.addons[addonId].updates]; the model reads each level with
    [js_get] and writes a changed level back with [js_set]
    ([update_in]).  On objects and arrays this is the in-place update
    the script performs; on primitives [js_set] is a no-op, as a
    sloppy-mode write is.

    [compver] is applied at line 117 to whatever the [version]
    properties hold; the class fixes its result on strings only, and the
    model treats a non-string version as a [TypeError] thrown by the
    package ([js_compver]). *)

From Stdlib Require Import List String Ascii ZArith Bool Lia.
From S2P Require Import Prelude JsValue JsString VersionCompare.
Import ListNotations.
Open Scope string_scope.
Open Scope faauv_scope.

(** The ways [HandleManifest] and its continuation stop the process. *)
Inductive stop : Type :=
| StopThrow (e : exn)
| StopNoAddonId
| StopNoUpdateUrl
| StopThenThrow (e : exn).

Definition lift {A} (r : js A) : result stop A :=
  match r with Ok a => Ok a | Err e => Err (StopThrow e) end.

(** The globals [HandleManifest] reads besides [update]. *)
Record config : Type := {
  update_output_path : jsval;   (** [updateOutputPath], line 59 *)
  update_link_arg : jsval       (** [argv["update-link"]], line 125 *)
}.

(** What the hash continuation needs: the closure variables of lines
    139-145. *)
Record pending : Type := {
  p_key : string;               (** the property key of [addonId] *)
  p_last : option jsval;        (** [lastVersion], [None] for [null] *)
  p_version : jsval;            (** [manifest.version] *)
  p_url : string                (** [updateUrl] *)
}.

(** [o[k] = f(o[k])] on a tree. *)
Definition update_in (o : jsval) (k : string) (f : jsval -> js jsval) : js jsval :=
  v <- js_get o k ;; v' <- f v ;; js_set o k v'.

Section Merge.
Context `{VC : VersionComparator}.

Definition js_compver (a b : jsval) : js comparison :=
  match a, b with
  | JStr x, JStr y => Ok (compver x y)
  | _, _ => Err (TypeError "compver: version is not a string")
  end.

(** Lines 106-108: [manifest && manifest.applications &&
    manifest.applications.gecko && manifest.applications.gecko.id]. *)
Definition addon_id_of (manifest : jsval) : js jsval :=
  js_and manifest (
    apps <- js_get manifest "applications" ;;
    js_and apps (
      gecko <- js_get apps "gecko" ;;
      js_and gecko (js_get gecko "id"))).

(** Lines 113-114: [if(!update.addons[addonId]) update.addons[addonId] = {}]. *)
Definition ensure_record (update : jsval) (key : string) : js jsval :=
  addons <- js_get update "addons" ;;
  rec <- js_get addons key ;;
  if truthy rec then Ok update
  else update_in update "addons" (fun addons => js_set addons key (JObj [])).

(** The filter callback, lines 116-124, with its closure variable
    [lastVersion] threaded as state. *)
Definition scan_step (manifest : jsval) (last : option jsval) (entry : jsval)
  : js (option jsval * bool) :=
  last' <- match last with
           | None => Ok (Some entry)
           | Some l =>
               ev <- js_get entry "version" ;;
               lv <- js_get l "version" ;;
               c <- js_compver ev lv ;;
               Ok (match c with Gt => Some entry | _ => last end)
           end ;;
  ev <- js_get entry "version" ;;
  mv <- js_get manifest "version" ;;
  Ok (last', negb (strict_eq ev mv)).

(** Lines 115-124: [update.addons[addonId].updates =
    (update.addons[addonId].updates || []).filter(...)]. *)
Definition filter_updates (update : jsval) (key : string) (manifest : jsval)
  : js (jsval * option jsval) :=
  addons <- js_get update "addons" ;;
  rec <- js_get addons key ;;
  ups <- js_get rec "updates" ;;
  '(last, kept) <- js_filter (js_or ups (JArr [] [])) (scan_step manifest) None ;;
  update' <- update_in update "addons" (fun addons =>
               update_in addons key (fun rec => js_set rec "updates" kept)) ;;
  Ok (update', last).

(** Lines 125-137: the download URL of the new version. *)
Definition resolve_url (link : jsval) (last : option jsval) (manifest : jsval)
  : result stop string :=
  if truthy link then
    mv <- lift (js_get manifest "version") ;;
    lift (js_replace_call link "@version@" (js_encodeURIComponent mv))
  else
    match last with
    | Some l =>
        if truthy l then
          ul <- lift (js_get l "update_link") ;;
          if truthy ul then
            lv <- lift (js_get l "version") ;;
            mv <- lift (js_get manifest "version") ;;
            lift (js_replace_call ul (js_encodeURIComponent lv) (js_encodeURIComponent mv))
          else Err StopNoUpdateUrl
        else Err StopNoUpdateUrl
    | None => Err StopNoUpdateUrl
    end.

(** Lines 105-162 after [JSON.parse]: [None] when no output path is
    given (line 162), otherwise the mutated [update] and the pending
    hash continuation. *)
Definition handle_parsed (cfg : config) (update manifest : jsval)
  : result stop (option (jsval * pending)) :=
  if negb (truthy (update_output_path cfg)) then Ok None
  else
    addonId <- lift (addon_id_of manifest) ;;
    if negb (truthy addonId) then Err StopNoAddonId
    else
      let key := to_string addonId in
      update1 <- lift (ensure_record update key) ;;
      '(update2, last) <- lift (filter_updates update1 key manifest) ;;
      url <- resolve_url (update_link_arg cfg) last manifest ;;
      mv <- lift (js_get manifest "version") ;;
      Ok (Some (update2, {| p_key := key; p_last := last; p_version := mv; p_url := url |})).

(** Lines 140-144: [Object.assign({}, lastVersion, {version, update_hash,
    update_link})]. *)
Definition new_entry (p : pending) (hash : string) : jsval :=
  object_assign
    [match p_last p with Some l => l | None => JNull end;
     JObj [("version", p_version p);
           ("update_hash", JStr ("sha256:" ++ hash));
           ("update_link", JStr (p_url p))]].

(** Line 145: [update.addons[addonId].updates.push(entry)]. *)
Definition push_entry (update : jsval) (key : string) (entry : jsval) : js jsval :=
  update_in update "addons" (fun addons =>
    update_in addons key (fun rec =>
      update_in rec "updates" (fun ups => js_push ups entry))).

(** Lines 139-145: the [.then] callback; its exceptions reach the
    [.catch] of line 157. *)
Definition on_hash (update : jsval) (p : pending) (hash : string) : result stop jsval :=
  match push_entry update (p_key p) (new_entry p hash) with
  | Ok u => Ok u
  | Err e => Err (StopThenThrow e)
  end.

(** One manifest handled and its hash delivered: the document line
    148 writes, or [None] when there is no output path. *)
Definition merge (cfg : config) (update manifest : jsval) (hash : string)
  : result stop (option jsval) :=
  r <- handle_parsed cfg update manifest ;;
  match r with
  | None => Ok None
  | Some (update', p) => u <- on_hash update' p hash ;; Ok (Some u)
  end.

(** ** Views of well-shaped documents

    The abstraction functions of the refinement theorems: the
    [updates] list of one add-on in an update manifest whose [addons]
    property is an object ([doc_updates]), and the version of an
    entry. *)

Definition doc_addons (update : jsval) : option (list (string * jsval)) :=
  match update with
  | JObj ups => match assoc_get "addons" ups with Some (JObj a) => Some a | _ => None end
  | _ => None
  end.

(** A missing record or a record without [updates] reads as the empty
    list, as [update.addons[addonId].updates || []] does. *)
Definition record_updates (rec : option jsval) : option (list jsval) :=
  match rec with
  | None => Some []
  | Some (JObj r) =>
      match assoc_get "updates" r with
      | None => Some []
      | Some (JArr es _) => Some es
      | Some _ => None
      end
  | Some _ => None
  end.

Definition doc_updates (update : jsval) (key : string) : option (list jsval) :=
  match doc_addons update with
  | Some a => record_updates (assoc_get key a)
  | None => None
  end.

Definition entry_version (e : jsval) : option string :=
  match e with
  | JObj ps => match assoc_get "version" ps with Some (JStr v) => Some v | _ => None end
  | _ => None
  end.

Definition ver (e : jsval) : string :=
  match entry_version e with Some v => v | None => EmptyString end.

(** An entry this tool can read back: an object whose [version] is a
    string and whose [update_link], when present, is a string. *)
Definition wf_entry (e : jsval) : bool :=
  match e with
  | JObj ps =>
      match assoc_get "version" ps, assoc_get "update_link" ps with
      | Some (JStr _), (None | Some (JStr _)) => true
      | _, _ => false
      end
  | _ => false
  end.

(** ** The filter callback as a pure fold (spec section 9) *)

(** The running maximum: an entry replaces it only when strictly greater. *)
Definition max_step (last : option jsval) (e : jsval) : option jsval :=
  match last with
  | None => Some e
  | Some l => match compver (ver e) (ver l) with Gt => Some e | _ => Some l end
  end.

Definition scan_last (es : list jsval) : option jsval := fold_left max_step es None.

(** The declarative specification of [lastVersion] (spec 4.4 step 2):
    [m] is at some position [i], no entry is greater than [m], and
    every entry before position [i] is strictly smaller (ties keep the
    earliest maximum). *)
Definition is_first_max (es : list jsval) (m : jsval) : Prop :=
  exists i, nth_error es i = Some m /\
    (forall e, In e es -> compver (ver e) (ver m) <> Gt) /\
    (forall j e, j < i -> nth_error es j = Some e -> compver (ver e) (ver m) = Lt).

(** The entries the filter keeps: those whose version is not [===]
    to [manifest.version]. *)
Definition keep_entry (mv : jsval) (e : jsval) : bool :=
  negb (strict_eq (JStr (ver e)) mv).

(** ** The abstract contract of the merge (spec 4.4) *)

(** The parsed archive manifest: a non-empty string id under
    [applications.gecko.id], and whatever [version] holds. *)
Definition manifest_view (m : jsval) : option (string * jsval) :=
  match m with
  | JObj ps =>
      match assoc_get "applications" ps with
      | Some (JObj a) =>
          match assoc_get "gecko" a with
          | Some (JObj g) =>
              match assoc_get "id" g with
              | Some (JStr id) =>
                  if String.eqb id "" then None
                  else Some (id, option_undef (assoc_get "version" ps))
              | _ => None
              end
          | _ => None
          end
      | _ => None
      end
  | _ => None
  end.

(** The [--update-link] template, when one is given. *)
Definition link_template (link : jsval) : option string :=
  match link with
  | JStr t => if String.eqb t "" then None else Some t
  | _ => None
  end.

Definition entry_link (e : jsval) : option string :=
  match e with
  | JObj ps => match assoc_get "update_link" ps with Some (JStr u) => Some u | _ => None end
  | _ => None
  end.

(** Step 3 of spec 4.4: the template with its (first) placeholder
    replaced, else the latest entry's non-empty link with the old
    version replaced, else no URL. *)
Definition spec_url (template : option string) (last : option jsval) (mv : jsval)
  : option string :=
  match template with
  | Some t => Some (js_replace t "@version@" (js_encodeURIComponent mv))
  | None =>
      match last with
      | Some l =>
          match entry_link l with
          | Some u =>
              if String.eqb u "" then None
              else Some (js_replace u (encode_uri_component (ver l)) (js_encodeURIComponent mv))
          | None => None
          end
      | None => None
      end
  end.

(** Steps 2, 4 and 5: drop the entries of the same version, append
    the new entry built from the latest one. *)
Definition spec_updates (es : list jsval) (mv : jsval) (url hash key : string) : list jsval :=
  filter (keep_entry mv) es ++
    [new_entry {| p_key := key; p_last := scan_last es; p_version := mv; p_url := url |} hash].

(** The record of an add-on, [{}] when it has none yet. *)
Definition rec0 (A : list (string * jsval)) (key : string) : list (string * jsval) :=
  match assoc_get key A with Some (JObj r) => r | _ => [] end.
End Merge.

Section MergeFacts.
Context `{VC : VersionComparator}.

Lemma wf_entry_version e : wf_entry e = true -> js_get e "version" = Ok (JStr (ver e)).
Proof.
  destruct e as [| | | | | |ps]; try discriminate. unfold wf_entry, ver, entry_version. simpl.
  destruct (assoc_get "version" ps) as [[| | | |v| |]|]; try discriminate. reflexivity.
Qed.

Lemma scan_step_wf manifest mv last e :
  js_get manifest "version" = Ok mv -> wf_entry e = true ->
  (forall l, last = Some l -> wf_entry l = true) ->
  scan_step manifest last e = Ok (max_step last e, keep_entry mv e).
Proof.
  intros Hm He Hl. unfold scan_step. rewrite (wf_entry_version e He), Hm.
  destruct last as [l|]; [|reflexivity].
  rewrite (wf_entry_version l (Hl l eq_refl)). simpl.
  now destruct (compver (ver e) (ver l)).
Qed.

Lemma max_step_wf last e :
  wf_entry e = true -> (forall l, last = Some l -> wf_entry l = true) ->
  forall l, max_step last e = Some l -> wf_entry l = true.
Proof.
  intros He Hl l. destruct last as [l'|]; simpl; [|congruence].
  destruct (compver (ver e) (ver l')); intros [= <-]; auto.
Qed.

(** The stateful filter of lines 116-124 computes the pair
    (kept entries, running maximum) of a pure fold. *)
Lemma filter_st_scan manifest mv es last :
  js_get manifest "version" = Ok mv -> Forall (fun e => wf_entry e = true) es ->
  (forall l, last = Some l -> wf_entry l = true) ->
  filter_st (scan_step manifest) last es =
  Ok (fold_left max_step es last, filter (keep_entry mv) es).
Proof.
  intros Hm. revert last; induction es as [|e es IH]; intros last Hes Hl; [reflexivity|].
  apply Forall_cons_iff in Hes as [He Hes]. simpl.
  rewrite (scan_step_wf manifest mv last e Hm He Hl). simpl.
  rewrite (IH _ Hes (max_step_wf last e He Hl)). simpl.
  now destruct (keep_entry mv e).
Qed.
End MergeFacts.

Section MaxFacts.
Context `{VC : VersionComparator}.

Lemma is_first_max_single e : is_first_max [e] e.
Proof.
  exists 0. split; [reflexivity|]. split.
  - intros x [<-|[]]. now rewrite (cmp_refl compver).
  - intros j x Hj. lia.
Qed.

Lemma is_first_max_snoc p l e :
  is_first_max p l -> is_first_max (p ++ [e]) (match max_step (Some l) e with Some m => m | None => l end).
Proof.
  intros (i & Hi & Hle & Hlt). simpl.
  assert (Hip : i < List.length p) by (apply nth_error_Some; congruence).
  destruct (compver (ver e) (ver l)) eqn:Hel.
  3: { (* e is strictly greater: it becomes the maximum at position |p| *)
    apply (cmp_gt_lt compver) in Hel.
    exists (List.length p). split; [now rewrite nth_error_app2, Nat.sub_diag by lia|]. split.
    - intros x Hx. apply in_app_or in Hx as [Hx|[<-|[]]].
      + rewrite (cmp_le_lt_trans compver _ _ _ (Hle x Hx) Hel). discriminate.
      + now rewrite (cmp_refl compver).
    - intros j x Hj Hx. rewrite nth_error_app1 in Hx by exact Hj.
      apply (cmp_le_lt_trans compver _ (ver l)); [|exact Hel].
      apply Hle. eapply nth_error_In. exact Hx. }
  all: exists i; split; [now rewrite nth_error_app1|]; split;
    [ intros x Hx; apply in_app_or in Hx as [Hx|Hx];
      [now apply Hle | destruct Hx as [<-|[]]; rewrite Hel; discriminate]
    | intros j x Hj Hx; rewrite nth_error_app1 in Hx by lia; now apply (Hlt j) ].
Qed.

Lemma fold_max_first_max es p l :
  is_first_max p l ->
  exists m, fold_left max_step es (Some l) = Some m /\ is_first_max (p ++ es) m.
Proof.
  revert p l; induction es as [|e es IH]; intros p l Hpl.
  - exists l. now rewrite app_nil_r.
  - cbn [fold_left]. pose proof (is_first_max_snoc p l e Hpl) as Hs.
    destruct (max_step (Some l) e) as [m|] eqn:Hm;
      [|simpl in Hm; destruct (compver (ver e) (ver l)); discriminate].
    destruct (IH (p ++ [e])%list m Hs) as (m' & Hf & Hm'). exists m'.
    split; [exact Hf|]. rewrite <- app_assoc in Hm'. exact Hm'.
Qed.
End MaxFacts.

Lemma update_in_obj ps k f v' :
  f (option_undef (assoc_get k ps)) = Ok v' ->
  update_in (JObj ps) k f = Ok (JObj (assoc_set k v' ps)).
Proof. intros H. unfold update_in. simpl. now rewrite H. Qed.

(** The document after writing [addons[key]]: the other add-ons and the
    other top-level properties are untouched. *)
Definition set_record (ups : list (string * jsval)) (A : list (string * jsval))
  (key : string) (r : list (string * jsval)) : jsval :=
  JObj (assoc_set "addons" (JObj (assoc_set key (JObj r) A)) ups).

Section ShapeFacts.
Context `{VC : VersionComparator}.

Lemma doc_addons_set ups A key r :
  doc_addons (set_record ups A key r) = Some (assoc_set key (JObj r) A).
Proof. unfold doc_addons, set_record. now rewrite assoc_get_set_eq. Qed.

Lemma doc_updates_set_ne ups A key key' r :
  key <> key' ->
  doc_updates (set_record ups A key r) key' = record_updates (assoc_get key' A).
Proof. intros Hne. unfold doc_updates. rewrite doc_addons_set. now rewrite assoc_get_set_ne. Qed.

Lemma doc_updates_set_eq ups A key r :
  doc_updates (set_record ups A key r) key = record_updates (Some (JObj r)).
Proof. unfold doc_updates. rewrite doc_addons_set. now rewrite assoc_get_set_eq. Qed.

Lemma doc_addons_inv update A :
  doc_addons update = Some A ->
  exists ups, update = JObj ups /\ assoc_get "addons" ups = Some (JObj A).
Proof.
  unfold doc_addons. destruct update as [| | | | | |ups]; try discriminate.
  destruct (assoc_get "addons" ups) as [[| | | | | |A']|] eqn:E; try discriminate.
  intros [= <-]. eauto.
Qed.
End ShapeFacts.

(** Compute reads and writes of a document along [assoc_set]s. *)
Ltac doc_simpl := repeat progress (simpl; rewrite ?assoc_get_set_eq, ?assoc_set_set).

Section Pipeline.
Context `{VC : VersionComparator}.

Lemma addon_id_of_view m id mv :
  manifest_view m = Some (id, mv) ->
  addon_id_of m = Ok (JStr id) /\ js_get m "version" = Ok mv.
Proof.
  unfold manifest_view, addon_id_of.
  destruct m as [| | | | | |ps]; try discriminate.
  destruct (assoc_get "applications" ps) as [[| | | | | |a]|] eqn:Ha; try discriminate.
  destruct (assoc_get "gecko" a) as [[| | | | | |g]|] eqn:Hg; try discriminate.
  destruct (assoc_get "id" g) as [[| | | |i| |]|] eqn:Hi; try discriminate.
  destruct (String.eqb i "") eqn:He; [discriminate|]. intros [= <- <-].
  simpl. rewrite Ha. simpl. rewrite Hg. simpl. rewrite Hi. simpl. split; reflexivity.
Qed.

Lemma ensure_record_ok ups A key es :
  assoc_get "addons" ups = Some (JObj A) -> record_updates (assoc_get key A) = Some es ->
  ensure_record (JObj ups) key = Ok (set_record ups A key (rec0 A key)).
Proof.
  intros HA Hr. unfold ensure_record, set_record, rec0. simpl. rewrite HA. simpl.
  destruct (assoc_get key A) as [[| | | | | |r]|] eqn:Hk; try discriminate; simpl.
  - now rewrite (assoc_set_get_id key (JObj r) A Hk), (assoc_set_get_id "addons" (JObj A) ups HA).
  - unfold update_in. simpl. now rewrite HA.
Qed.

Lemma fold_max_wf es last :
  Forall (fun e => wf_entry e = true) es -> (forall l, last = Some l -> wf_entry l = true) ->
  forall l, fold_left max_step es last = Some l -> wf_entry l = true.
Proof.
  revert last; induction es as [|e es IH]; intros last Hes Hlast; simpl; [exact Hlast|].
  apply Forall_cons_iff in Hes as [He Hes].
  exact (IH _ Hes (max_step_wf last e He Hlast)).
Qed.

Lemma scan_last_wf es :
  Forall (fun e => wf_entry e = true) es -> forall l, scan_last es = Some l -> wf_entry l = true.
Proof. intros Hes. apply fold_max_wf; [exact Hes | discriminate]. Qed.

Lemma filter_updates_ok ups A key r es manifest mv :
  assoc_get "addons" ups = Some (JObj A) ->
  record_updates (Some (JObj r)) = Some es -> Forall (fun e => wf_entry e = true) es ->
  js_get manifest "version" = Ok mv ->
  filter_updates (set_record ups A key r) key manifest =
  Ok (set_record ups A key (assoc_set "updates" (JArr (filter (keep_entry mv) es) []) r),
      scan_last es).
Proof.
  intros HA Hr Hes Hm. unfold filter_updates, set_record. simpl.
  rewrite !assoc_get_set_eq. simpl.
  assert (Hf : js_filter (js_or (option_undef (assoc_get "updates" r)) (JArr [] []))
                 (scan_step manifest) None = Ok (scan_last es, JArr (filter (keep_entry mv) es) [])).
  { unfold record_updates in Hr.
    destruct (assoc_get "updates" r) as [[| | | | |es' ps|]|]; try discriminate;
      injection Hr as Hr; subst; simpl;
      try rewrite (filter_st_scan manifest mv _ None Hm Hes) by discriminate; reflexivity. }
  rewrite assoc_get_set_eq. simpl. rewrite Hf. unfold update_in. doc_simpl. reflexivity.
Qed.

Lemma push_entry_ok ups A key r es ps e :
  assoc_get "updates" r = Some (JArr es ps) ->
  push_entry (set_record ups A key r) key e =
  Ok (set_record ups A key (assoc_set "updates" (JArr (es ++ [e]) ps) r)).
Proof.
  intros Hr. unfold push_entry, update_in, set_record. doc_simpl. rewrite Hr. doc_simpl. reflexivity.
Qed.

Lemma resolve_url_ok link last manifest mv :
  (truthy link = false \/ exists t, link = JStr t) ->
  (forall l, last = Some l -> wf_entry l = true) ->
  js_get manifest "version" = Ok mv ->
  resolve_url link last manifest =
  match spec_url (link_template link) last mv with
  | Some url => Ok url
  | None => Err StopNoUpdateUrl
  end.
Proof.
  intros Hlink Hlast Hm. unfold resolve_url, spec_url.
  assert (Hfb : truthy link = false -> link_template link = None).
  { destruct link; simpl; try easy. destruct (String.eqb s ""); easy. }
  destruct (truthy link) eqn:Ht.
  - destruct Hlink as [Hf|[t ->]]; [discriminate|]. simpl in Ht |- *.
    destruct (String.eqb t ""); [discriminate|]. simpl. now rewrite Hm.
  - rewrite (Hfb eq_refl). destruct last as [l|]; [|reflexivity].
    specialize (Hlast l eq_refl). unfold wf_entry, entry_link, ver, entry_version in *.
    destruct l as [| | | | | |lp]; try discriminate. simpl.
    destruct (assoc_get "version" lp) as [[| | | |v| |]|]; try discriminate.
    destruct (assoc_get "update_link" lp) as [[| | | |u| |]|]; try discriminate; simpl; [|reflexivity].
    destruct (String.eqb u ""); simpl; [reflexivity|]. now rewrite Hm.
Qed.
End Pipeline.

Section Shape.
Context `{VC : VersionComparator}.

Lemma manifest_view_id_nonempty m id mv : manifest_view m = Some (id, mv) -> String.eqb id "" = false.
Proof.
  unfold manifest_view. destruct m as [| | | | | |ps]; try discriminate.
  destruct (assoc_get "applications" ps) as [[| | | | | |a]|]; try discriminate.
  destruct (assoc_get "gecko" a) as [[| | | | | |g]|]; try discriminate.
  destruct (assoc_get "id" g) as [[| | | |i| |]|]; try discriminate.
  destruct (String.eqb i "") eqn:E; [discriminate|]. now intros [= <- _].
Qed.

Lemma rec0_updates A key es :
  record_updates (assoc_get key A) = Some es -> record_updates (Some (JObj (rec0 A key))) = Some es.
Proof.
  unfold rec0. destruct (assoc_get key A) as [[| | | | | |r]|]; simpl; try discriminate; auto.
Qed.

(** [HandleManifest] on a well-shaped document: the add-on's
    [updates] filtered, and the continuation holding [lastVersion] and
    the resolved URL. *)
Lemma handle_parsed_shape cfg ups A manifest id mv es :
  truthy (update_output_path cfg) = true ->
  manifest_view manifest = Some (id, mv) ->
  assoc_get "addons" ups = Some (JObj A) ->
  record_updates (assoc_get id A) = Some es -> Forall (fun e => wf_entry e = true) es ->
  (truthy (update_link_arg cfg) = false \/ exists t, update_link_arg cfg = JStr t) ->
  handle_parsed cfg (JObj ups) manifest =
  match spec_url (link_template (update_link_arg cfg)) (scan_last es) mv with
  | Some url =>
      Ok (Some (set_record ups A id (assoc_set "updates" (JArr (filter (keep_entry mv) es) []) (rec0 A id)),
                {| p_key := id; p_last := scan_last es; p_version := mv; p_url := url |}))
  | None => Err StopNoUpdateUrl
  end.
Proof.
  intros Hout Hm HA Hr Hes Hlink.
  destruct (addon_id_of_view _ _ _ Hm) as [Hid Hv].
  unfold handle_parsed. rewrite Hout. simpl negb. cbv iota.
  rewrite Hid. simpl bind. simpl truthy. rewrite (manifest_view_id_nonempty _ _ _ Hm). simpl.
  rewrite (ensure_record_ok ups A id es HA Hr). simpl.
  rewrite (filter_updates_ok ups A id (rec0 A id) es manifest mv HA (rec0_updates A id es Hr) Hes Hv).
  simpl. rewrite (resolve_url_ok _ _ manifest mv Hlink (scan_last_wf es Hes) Hv).
  destruct (spec_url _ _ _) as [url|]; [|reflexivity]. simpl. now rewrite Hv.
Qed.

(** The [.then] callback on a well-shaped document appends the new
    entry to the add-on's [updates]. *)
Lemma on_hash_shape ups A key r es p hash :
  p_key p = key -> assoc_get "updates" r = Some (JArr es []) ->
  on_hash (set_record ups A key r) p hash =
  Ok (set_record ups A key (assoc_set "updates" (JArr (es ++ [new_entry p hash]) []) r)).
Proof. intros <- Hr. unfold on_hash. now rewrite (push_entry_ok _ _ _ _ es []). Qed.

(** The whole handler and its continuation on a well-shaped document:
    the document written is the input with the add-on's [updates]
    replaced by [spec_updates]. *)
Lemma merge_shape cfg ups A manifest hash id mv es :
  truthy (update_output_path cfg) = true ->
  manifest_view manifest = Some (id, mv) ->
  assoc_get "addons" ups = Some (JObj A) ->
  record_updates (assoc_get id A) = Some es -> Forall (fun e => wf_entry e = true) es ->
  (truthy (update_link_arg cfg) = false \/ exists t, update_link_arg cfg = JStr t) ->
  merge cfg (JObj ups) manifest hash =
  match spec_url (link_template (update_link_arg cfg)) (scan_last es) mv with
  | Some url =>
      Ok (Some (set_record ups A id
                  (assoc_set "updates" (JArr (spec_updates es mv url hash id) []) (rec0 A id))))
  | None => Err StopNoUpdateUrl
  end.
Proof.
  intros Hout Hm HA Hr Hes Hlink. unfold merge.
  rewrite (handle_parsed_shape cfg ups A manifest id mv es Hout Hm HA Hr Hes Hlink).
  destruct (spec_url _ _ _) as [url|]; [|reflexivity]. simpl.
  rewrite (on_hash_shape ups A id _ (filter (keep_entry mv) es)) by (reflexivity || apply assoc_get_set_eq).
  simpl.
  now rewrite assoc_set_set.
Qed.

(** The fields of the new entry: the three written ones, then those
    copied from [lastVersion] (the last binding of a key wins). *)
Lemma new_entry_get p hash k :
  js_get (new_entry p hash) k =
  Ok (if String.eqb k "update_link" then JStr (p_url p)
      else if String.eqb k "update_hash" then JStr ("sha256:" ++ hash)
      else if String.eqb k "version" then p_version p
      else option_undef (assoc_get k (rev (own_props (match p_last p with Some l => l | None => JNull end))))).
Proof.
  unfold new_entry, object_assign. cbn [fold_left own_props]. rewrite js_get_obj, assoc_get_assign.
  simpl. destruct (String.eqb k "update_link"); [reflexivity|].
  destruct (String.eqb k "update_hash"); [reflexivity|].
  destruct (String.eqb k "version"); [reflexivity|].
  rewrite assoc_get_assign. simpl. now destruct (assoc_get k _).
Qed.
End Shape.

Section EntryFacts.
Context `{VC : VersionComparator}.

Lemma js_get_obj_str ps k s : js_get (JObj ps) k = Ok (JStr s) -> assoc_get k ps = Some (JStr s).
Proof. simpl. destruct (assoc_get k ps); simpl; congruence. Qed.

Lemma new_entry_obj p hash : exists ps, new_entry p hash = JObj ps.
Proof. eexists. reflexivity. Qed.

(** The new entry of a string version is a well-formed entry of that version. *)
Lemma new_entry_wf p hash V :
  p_version p = JStr V -> wf_entry (new_entry p hash) = true /\ ver (new_entry p hash) = V.
Proof.
  intros Hv. destruct (new_entry_obj p hash) as [ps Hps].
  assert (Gv : js_get (new_entry p hash) "version" = Ok (JStr V))
    by (rewrite new_entry_get, Hv; reflexivity).
  assert (Gl : js_get (new_entry p hash) "update_link" = Ok (JStr (p_url p)))
    by (rewrite new_entry_get; reflexivity).
  rewrite Hps in Gv, Gl. apply js_get_obj_str in Gv, Gl. rewrite Hps. unfold wf_entry, ver, entry_version.
  now rewrite Gv, Gl.
Qed.

Lemma new_entry_wf_str key last V url hash :
  wf_entry (new_entry {| p_key := key; p_last := last; p_version := JStr V; p_url := url |} hash) = true /\
  ver (new_entry {| p_key := key; p_last := last; p_version := JStr V; p_url := url |} hash) = V.
Proof. now apply new_entry_wf. Qed.

Lemma link_template_some link t : link_template link = Some t -> link = JStr t.
Proof.
  destruct link; simpl; try discriminate. destruct (String.eqb s ""); congruence.
Qed.

Lemma keep_entry_str V e : keep_entry (JStr V) e = negb (String.eqb (ver e) V).
Proof. reflexivity. Qed.

Lemma spec_updates_unique es V url hash id :
  Forall (fun e => wf_entry e = true) es -> NoDup (map ver es) ->
  Forall (fun e => wf_entry e = true) (spec_updates es (JStr V) url hash id) /\
  NoDup (map ver (spec_updates es (JStr V) url hash id)).
Proof.
  intros Hes Hnd. unfold spec_updates.
  destruct (new_entry_wf {| p_key := id; p_last := scan_last es; p_version := JStr V; p_url := url |}
              hash V eq_refl) as [Hwf Hver].
  split.
  - apply Forall_app. split; [|now constructor].
    apply Forall_forall. intros e He. apply filter_In in He as [He _].
    exact (proj1 (Forall_forall _ _) Hes e He).
  - rewrite map_app. simpl. rewrite Hver. apply NoDup_snoc; [now apply NoDup_map_filter|].
    intros Hin. apply in_map_iff in Hin as (e & He & Hin).
    apply filter_In in Hin as [_ Hk]. rewrite keep_entry_str, He, String.eqb_refl in Hk.
    discriminate.
Qed.
End EntryFacts.

(** ** Theorems *)

Section Theorems.
Context `{VC : VersionComparator}.

(** C1: refinement.  On an update manifest whose [addons] is an object
    and whose add-on record holds well-formed entries, [HandleManifest]
    followed by the hash continuation implements the contract of spec
    4.4: the URL is [spec_url]; when there is one, the add-on's
    [updates] become [spec_updates] (same-version entries dropped, new
    entry appended) and every other add-on is unchanged; when there is
    none, the run stops with "No update URL". *)
Theorem merge_refines cfg update manifest hash id mv es :
  truthy (update_output_path cfg) = true ->
  manifest_view manifest = Some (id, mv) ->
  doc_updates update id = Some es -> Forall (fun e => wf_entry e = true) es ->
  (truthy (update_link_arg cfg) = false \/ exists t, update_link_arg cfg = JStr t) ->
  match spec_url (link_template (update_link_arg cfg)) (scan_last es) mv with
  | Some url =>
      exists update', merge cfg update manifest hash = Ok (Some update') /\
        doc_updates update' id = Some (spec_updates es mv url hash id) /\
        (forall k, k <> id -> doc_updates update' k = doc_updates update k)
  | None => merge cfg update manifest hash = Err StopNoUpdateUrl
  end.
Proof.
  intros Hout Hm Hdoc Hes Hlink. unfold doc_updates in Hdoc.
  destruct (doc_addons update) as [A|] eqn:HA; [|discriminate].
  destruct (doc_addons_inv _ _ HA) as (ups & -> & Hups).
  rewrite (merge_shape cfg ups A manifest hash id mv es Hout Hm Hups Hdoc Hes Hlink).
  destruct (spec_url _ _ _) as [url|]; [|reflexivity].
  eexists. split; [reflexivity|]. split.
  - rewrite doc_updates_set_eq. simpl. now rewrite assoc_get_set_eq.
  - intros k Hk. rewrite doc_updates_set_ne by congruence. unfold doc_updates. now rewrite HA.
Qed.


(** C2: the [lastVersion] that the filter callback tracks (lines
    117-118) is the earliest maximal entry: no entry has a greater
    version, every entry before it has a strictly smaller one, and it
    is [null] only for an empty [updates]. *)
Theorem scan_last_first_max es :
  match scan_last es with
  | None => es = []
  | Some m => is_first_max es m
  end.
Proof.
  destruct es as [|e es]; [reflexivity|]. unfold scan_last. cbn [fold_left max_step].
  destruct (fold_max_first_max es [e] e (is_first_max_single e)) as (m & -> & Hm). exact Hm.
Qed.

(** C3: the stateful filter of lines 116-124, run on well-formed
    entries, computes the pure fold of spec section 9: the entries
    whose version is not [===] to the new version, and the running
    maximum. *)
Theorem js_filter_scan manifest mv es ps :
  js_get manifest "version" = Ok mv -> Forall (fun e => wf_entry e = true) es ->
  js_filter (JArr es ps) (scan_step manifest) None =
  Ok (scan_last es, JArr (filter (keep_entry mv) es) []).
Proof.
  intros Hm Hes. simpl. rewrite (filter_st_scan manifest mv es None Hm Hes) by discriminate.
  reflexivity.
Qed.


(** C4: invariant.  If the add-on's entries are well formed and no two
    share a version, then after merging a string version the entries are
    still well formed and still have pairwise distinct versions (spec
    section 3: "no two entries share the same version"). *)
Theorem merge_unique_versions cfg update manifest hash id V es update' :
  truthy (update_output_path cfg) = true ->
  manifest_view manifest = Some (id, JStr V) ->
  doc_updates update id = Some es -> Forall (fun e => wf_entry e = true) es ->
  NoDup (map ver es) ->
  (truthy (update_link_arg cfg) = false \/ exists t, update_link_arg cfg = JStr t) ->
  merge cfg update manifest hash = Ok (Some update') ->
  exists es', doc_updates update' id = Some es' /\
    Forall (fun e => wf_entry e = true) es' /\ NoDup (map ver es') /\ In V (map ver es').
Proof.
  intros Hout Hm Hdoc Hes Hnd Hlink Hmerge. unfold doc_updates in Hdoc.
  destruct (doc_addons update) as [A|] eqn:HA; [|discriminate].
  destruct (doc_addons_inv _ _ HA) as (ups & -> & Hups).
  rewrite (merge_shape cfg ups A manifest hash id (JStr V) es Hout Hm Hups Hdoc Hes Hlink) in Hmerge.
  destruct (spec_url _ _ _) as [url|]; [|discriminate]. injection Hmerge as <-.
  exists (spec_updates es (JStr V) url hash id).
  rewrite doc_updates_set_eq. simpl. rewrite assoc_get_set_eq. split; [reflexivity|].
  destruct (spec_updates_unique es V url hash id Hes Hnd) as [Hwf Hnd']. split; [exact Hwf|].
  split; [exact Hnd'|]. unfold spec_updates. rewrite map_app. apply in_or_app. right.
  left. exact (proj2 (new_entry_wf {| p_key := id; p_last := scan_last es; p_version := JStr V;
                                      p_url := url |} hash V eq_refl)).
Qed.

(** C5: "replace, not duplicate" (spec section 8).  Merging version [V]
    twice, with a download-link template, with digests [h1] then [h2],
    leaves exactly one entry of version [V]: the last one, carrying the
    second digest. *)
Theorem merge_twice_replaces cfg update manifest id V es t h1 h2 :
  truthy (update_output_path cfg) = true ->
  manifest_view manifest = Some (id, JStr V) ->
  doc_updates update id = Some es -> Forall (fun e => wf_entry e = true) es ->
  link_template (update_link_arg cfg) = Some t ->
  exists u1 u2 es2 e2,
    merge cfg update manifest h1 = Ok (Some u1) /\ merge cfg u1 manifest h2 = Ok (Some u2) /\
    doc_updates u2 id = Some es2 /\ filter (fun e => String.eqb (ver e) V) es2 = [e2] /\
    last es2 JNull = e2 /\ js_get e2 "update_hash" = Ok (JStr ("sha256:" ++ h2)).
Proof.
  intros Hout Hm Hdoc Hes Ht.
  assert (Hlink : truthy (update_link_arg cfg) = false \/ exists t, update_link_arg cfg = JStr t)
    by (right; exists t; exact (link_template_some _ _ Ht)).
  unfold doc_updates in Hdoc. destruct (doc_addons update) as [A|] eqn:HA; [|discriminate].
  destruct (doc_addons_inv _ _ HA) as (ups & -> & Hups).
  pose proof (merge_shape cfg ups A manifest h1 id (JStr V) es Hout Hm Hups Hdoc Hes Hlink) as M1.
  unfold spec_url in M1 at 1. rewrite Ht in M1.
  set (es1 := spec_updates es (JStr V) _ h1 id) in M1.
  set (r1 := assoc_set "updates" (JArr es1 []) (rec0 A id)).
  assert (Hwf1 : Forall (fun e => wf_entry e = true) es1).
  { apply Forall_app. split; [|constructor; [exact (proj1 (new_entry_wf_str _ _ _ _ h1))|constructor]].
    apply Forall_forall. intros e He. apply filter_In in He as [He _].
    exact (proj1 (Forall_forall _ _) Hes e He). }
  assert (Hups1 : assoc_get "addons" (assoc_set "addons" (JObj (assoc_set id (JObj r1) A)) ups)
                  = Some (JObj (assoc_set id (JObj r1) A))) by apply assoc_get_set_eq.
  assert (Hdoc1 : record_updates (assoc_get id (assoc_set id (JObj r1) A)) = Some es1)
    by (rewrite assoc_get_set_eq; simpl; unfold r1; now rewrite assoc_get_set_eq).
  pose proof (merge_shape cfg _ _ manifest h2 id (JStr V) es1 Hout Hm Hups1 Hdoc1 Hwf1 Hlink) as M2.
  unfold spec_url in M2 at 1. rewrite Ht in M2.
  set (url := js_replace t "@version@" (js_encodeURIComponent (JStr V))) in *.
  do 2 eexists.
  exists (spec_updates es1 (JStr V) url h2 id),
    (new_entry {| p_key := id; p_last := scan_last es1; p_version := JStr V; p_url := url |} h2).
  split; [exact M1|]. split; [exact M2|]. split.
  { rewrite doc_updates_set_eq. simpl. now rewrite assoc_get_set_eq. }
  unfold spec_updates. split; [|split; [now rewrite last_last|]].
  - rewrite filter_app. rewrite filter_filter_none by (intros e; rewrite keep_entry_str;
      destruct (String.eqb (ver e) V); easy).
    simpl. rewrite (proj2 (new_entry_wf_str _ _ _ _ h2)), String.eqb_refl. reflexivity.
  - rewrite new_entry_get. reflexivity.
Qed.

(** C6: carry-forward (spec 4.4 step 4).  A property of the latest entry
    other than [version], [update_hash] and [update_link] is copied
    unchanged into the new entry. *)
Theorem new_entry_carry_forward key ps mv url hash k :
  NoDup (map fst ps) -> k <> "version" -> k <> "update_hash" -> k <> "update_link" ->
  js_get (new_entry {| p_key := key; p_last := Some (JObj ps); p_version := mv; p_url := url |} hash) k =
  js_get (JObj ps) k.
Proof.
  intros Hnd H1 H2 H3. rewrite new_entry_get. simpl p_last.
  apply String.eqb_neq in H1, H2, H3. rewrite H1, H2, H3. simpl own_props.
  now rewrite assoc_get_rev.
Qed.

(** C7: error path.  When [manifest.applications.gecko.id] is falsy
    (missing, [""], ...), the handler stops with "Add-on id not found"
    whatever the update manifest holds (lines 109-111). *)
Theorem merge_no_addon_id cfg update manifest hash v :
  truthy (update_output_path cfg) = true ->
  addon_id_of manifest = Ok v -> truthy v = false ->
  merge cfg update manifest hash = Err StopNoAddonId.
Proof.
  intros Hout Hid Hv. unfold merge, handle_parsed. rewrite Hout. simpl negb. cbv iota.
  rewrite Hid. simpl. now rewrite Hv.
Qed.

(** C8: without an output path the handler changes nothing and writes
    nothing (lines 105 and 161-162). *)
Theorem merge_no_output_path cfg update manifest hash :
  truthy (update_output_path cfg) = false -> merge cfg update manifest hash = Ok None.
Proof. intros Hout. unfold merge, handle_parsed. now rewrite Hout. Qed.
End Theorems.
(** ** A primitive add-on record *)

Section PrimitiveRecord.
Context `{VC : VersionComparator}.

(** Booleans, numbers and strings: property writes to them are
    ignored in sloppy mode and their [updates] reads as [undefined]. *)
Definition primitive (v : jsval) : bool :=
  match v with JBool _ | JNum _ | JStr _ => true | _ => false end.

Lemma js_get_primitive_updates v : primitive v = true -> js_get v "updates" = Ok JUndefined.
Proof. destruct v; try discriminate; reflexivity. Qed.

Lemma js_set_primitive v k x : primitive v = true -> js_set v k x = Ok v.
Proof. destruct v; try discriminate; reflexivity. Qed.

(** C14: finding.  When the add-on's record in [update.json] is a
    truthy boolean, number or string, [HandleManifest] succeeds without
    changing [update] (the write of line 116 to a primitive is ignored),
    and the [push] of line 145 then throws inside the [.then] callback:
    the run stops with the misleading "Could not compute hash". *)
Theorem merge_primitive_record_fails_late cfg ups A manifest id mv hash v t :
  truthy (update_output_path cfg) = true -> manifest_view manifest = Some (id, mv) ->
  assoc_get "addons" ups = Some (JObj A) -> assoc_get id A = Some v ->
  primitive v = true -> truthy v = true -> link_template (update_link_arg cfg) = Some t ->
  (exists p, handle_parsed cfg (JObj ups) manifest = Ok (Some (JObj ups, p))) /\
  merge cfg (JObj ups) manifest hash =
  Err (StopThenThrow (TypeError "Cannot read properties of undefined (reading 'push')")).
Proof.
  intros Hout Hm HA Hk Hp Ht Hl.
  destruct (addon_id_of_view _ _ _ Hm) as [Hid Hv].
  assert (Hlink : truthy (update_link_arg cfg) = false \/ exists t, update_link_arg cfg = JStr t)
    by (right; exists t; exact (link_template_some _ _ Hl)).
  assert (Hh : handle_parsed cfg (JObj ups) manifest =
               Ok (Some (JObj ups, {| p_key := id; p_last := None; p_version := mv;
                                      p_url := js_replace t "@version@" (js_encodeURIComponent mv) |}))).
  { unfold handle_parsed. rewrite Hout. simpl negb. cbv iota.
    rewrite Hid. simpl bind. simpl truthy. rewrite (manifest_view_id_nonempty _ _ _ Hm). simpl.
    unfold ensure_record. simpl. rewrite HA. simpl. rewrite Hk. simpl. rewrite Ht. simpl.
    unfold filter_updates. simpl. rewrite HA. simpl. rewrite Hk. simpl.
    rewrite js_get_primitive_updates by exact Hp. simpl.
    unfold update_in. simpl. rewrite HA. simpl. rewrite Hk. simpl.
    rewrite js_set_primitive by exact Hp. simpl.
    rewrite (assoc_set_get_id _ _ _ Hk), (assoc_set_get_id _ _ _ HA). simpl.
    rewrite (resolve_url_ok _ None manifest mv Hlink) by (discriminate || exact Hv).
    unfold spec_url. rewrite Hl. simpl. now rewrite Hv. }
  split; [eexists; exact Hh|].
  unfold merge. rewrite Hh. simpl. unfold on_hash, push_entry, update_in. simpl.
  rewrite HA. simpl. rewrite Hk. simpl. now rewrite js_get_primitive_updates.
Qed.

End PrimitiveRecord.


(** ** Witnesses, with the comparator of VersionCompare.v *)

Lemma merge_refines_witness :
  let cfg := {| update_output_path := JStr "update.json"; update_link_arg := JStr "https://h/@version@" |} in
  let man := JObj [("applications", JObj [("gecko", JObj [("id", JStr "ext@x")])]); ("version", JStr "1.0")] in
  let doc := JObj [("addons", JObj [])] in
  truthy (update_output_path cfg) = true /\ manifest_view man = Some ("ext@x", JStr "1.0") /\
  doc_updates doc "ext@x" = Some [] /\
  match spec_url (link_template (update_link_arg cfg)) (scan_last []) (JStr "1.0") with
  | Some url =>
      exists update', merge cfg doc man "00" = Ok (Some update') /\
        doc_updates update' "ext@x" = Some (spec_updates [] (JStr "1.0") url "00" "ext@x") /\
        (forall k, k <> "ext@x" -> doc_updates update' k = doc_updates doc k)
  | None => merge cfg doc man "00" = Err StopNoUpdateUrl
  end.
Proof.
  intros cfg man doc. split; [reflexivity|]. split; [reflexivity|]. split; [reflexivity|].
  apply merge_refines; [reflexivity | reflexivity | reflexivity | constructor | right; eexists; reflexivity].
Defined.

Lemma js_filter_scan_witness :
  let man := JObj [("version", JStr "2")] in
  let es := [JObj [("version", JStr "1")]; JObj [("version", JStr "2")]] in
  js_get man "version" = Ok (JStr "2") /\ Forall (fun e => wf_entry e = true) es /\
  js_filter (JArr es []) (scan_step man) None =
  Ok (scan_last es, JArr (filter (keep_entry (JStr "2")) es) []).
Proof.
  intros man es. split; [reflexivity|]. split; [repeat constructor|].
  apply js_filter_scan; [reflexivity | repeat constructor].
Defined.

(** ** Concrete runs, with the comparator of VersionCompare.v *)

(** The archive manifest [{"applications":{"gecko":{"id": id}}, ...}]. *)
Definition gecko_manifest (id : string) (rest : list (string * jsval)) : jsval :=
  JObj ([("applications", JObj [("gecko", JObj [("id", JStr id)])])] ++ rest).

Definition out_cfg (link : jsval) : config :=
  {| update_output_path := JStr "update.json"; update_link_arg := link |}.

Definition entry3 (v : jsval) (hash url : string) : jsval :=
  JObj [("version", v); ("update_hash", JStr ("sha256:" ++ hash)); ("update_link", JStr url)].

Definition one_addon (id : string) (es : list jsval) : jsval :=
  JObj [("addons", JObj [(id, JObj [("updates", JArr es [])])])].

(** Example: the end-to-end scenario of spec section 8: an empty update
    manifest, an archive of [ext@x] version [1.0] and the template
    [https://h/@version@] give exactly
    [{"addons":{"ext@x":{"updates":[{"version":"1.0","update_hash":
    "sha256:<hash>","update_link":"https://h/1.0"}]}}}]. *)
Theorem merge_end_to_end hash :
  merge (out_cfg (JStr "https://h/@version@")) (JObj [("addons", JObj [])])
    (gecko_manifest "ext@x" [("version", JStr "1.0")]) hash =
  Ok (Some (one_addon "ext@x" [entry3 (JStr "1.0") hash "https://h/1.0"])).
Proof. reflexivity. Qed.

(** Example: the URL and carry-forward examples of spec section 8: without a
    template, a previous [1.0.1] with link [https://x/d?v=1.0.1] and a
    [compat] field gives [1.0.2] the link [https://x/d?v=1.0.2] and the
    same [compat]; with the template [https://y/@version@.xpi], version
    [2.0] gets [https://y/2.0.xpi]. *)
Theorem merge_spec_url_examples hash :
  let old := JObj [("version", JStr "1.0.1"); ("update_link", JStr "https://x/d?v=1.0.1");
                   ("compat", JObj [("min", JStr "60")])] in
  merge (out_cfg JUndefined) (one_addon "ext@x" [old])
    (gecko_manifest "ext@x" [("version", JStr "1.0.2")]) hash =
  Ok (Some (one_addon "ext@x"
    [old; JObj [("version", JStr "1.0.2"); ("update_link", JStr "https://x/d?v=1.0.2");
                ("compat", JObj [("min", JStr "60")]); ("update_hash", JStr ("sha256:" ++ hash))]]))
  /\
  merge (out_cfg (JStr "https://y/@version@.xpi")) (JObj [("addons", JObj [])])
    (gecko_manifest "ext@x" [("version", JStr "2.0")]) hash =
  Ok (Some (one_addon "ext@x" [entry3 (JStr "2.0") hash "https://y/2.0.xpi"])).
Proof. split; reflexivity. Qed.

(** Finding, on an example.  Only the first [@version@] of the template is
    replaced (line 137 passes a string pattern to [replace]); the spec
    says every occurrence. *)
Theorem merge_template_first_placeholder_only hash :
  merge (out_cfg (JStr "https://y/@version@/@version@.xpi")) (JObj [("addons", JObj [])])
    (gecko_manifest "ext@x" [("version", JStr "2.0")]) hash =
  Ok (Some (one_addon "ext@x" [entry3 (JStr "2.0") hash "https://y/2.0/@version@.xpi"])).
Proof. reflexivity. Qed.

(** Finding, on an example.  An archive manifest without [version] is not
    rejected: the new entry's [version] is [undefined] (dropped by
    [JSON.stringify]) and its link names version ["undefined"]. *)
Theorem merge_missing_version_accepted hash :
  merge (out_cfg (JStr "https://h/@version@")) (JObj [("addons", JObj [])])
    (gecko_manifest "ext@x" []) hash =
  Ok (Some (one_addon "ext@x" [entry3 JUndefined hash "https://h/undefined"])).
Proof. reflexivity. Qed.

(** ** Witnesses of the theorems with hypotheses *)

Definition doc_one_entry : jsval :=
  one_addon "ext@x" [JObj [("version", JStr "0.9"); ("update_link", JStr "https://h/0.9")]].

Definition merged_doc (cfg : config) (update manifest : jsval) (hash : string) : jsval :=
  match merge cfg update manifest hash with Ok (Some u) => u | _ => JNull end.

Lemma merge_unique_versions_witness :
  exists es', doc_updates (merged_doc (out_cfg JUndefined) doc_one_entry
                             (gecko_manifest "ext@x" [("version", JStr "1.0")]) "00") "ext@x" = Some es' /\
    Forall (fun e => wf_entry e = true) es' /\ NoDup (map ver es') /\ In "1.0" (map ver es').
Proof.
  apply (merge_unique_versions (out_cfg JUndefined) doc_one_entry
           (gecko_manifest "ext@x" [("version", JStr "1.0")]) "00" "ext@x" "1.0"
           [JObj [("version", JStr "0.9"); ("update_link", JStr "https://h/0.9")]]);
    try reflexivity.
  - repeat constructor.
  - repeat constructor. simpl. tauto.
  - left. reflexivity.
Defined.

Lemma merge_twice_replaces_witness :
  exists u1 u2 es2 e2,
    merge (out_cfg (JStr "https://h/@version@")) doc_one_entry
      (gecko_manifest "ext@x" [("version", JStr "1.0")]) "01" = Ok (Some u1) /\
    merge (out_cfg (JStr "https://h/@version@")) u1
      (gecko_manifest "ext@x" [("version", JStr "1.0")]) "02" = Ok (Some u2) /\
    doc_updates u2 "ext@x" = Some es2 /\ filter (fun e => String.eqb (ver e) "1.0") es2 = [e2] /\
    last es2 JNull = e2 /\ js_get e2 "update_hash" = Ok (JStr ("sha256:" ++ "02")).
Proof.
  apply (merge_twice_replaces _ _ _ "ext@x" "1.0"
           [JObj [("version", JStr "0.9"); ("update_link", JStr "https://h/0.9")]]
           "https://h/@version@"); try reflexivity.
  repeat constructor.
Defined.

Lemma new_entry_carry_forward_witness :
  js_get (new_entry {| p_key := "ext@x"; p_last := Some (JObj [("version", JStr "1.0.1");
            ("compat", JObj [("min", JStr "60")])]); p_version := JStr "1.0.2"; p_url := "u" |} "00")
    "compat" = js_get (JObj [("version", JStr "1.0.1"); ("compat", JObj [("min", JStr "60")])]) "compat".
Proof.
  apply new_entry_carry_forward; try discriminate.
  repeat constructor; simpl; intuition discriminate.
Defined.

Lemma merge_no_addon_id_witness :
  merge (out_cfg JUndefined) (JObj [("addons", JObj [])]) (JObj [("version", JStr "1.0")]) "00"
  = Err StopNoAddonId.
Proof. apply (merge_no_addon_id _ _ _ _ JUndefined); reflexivity. Defined.

Lemma merge_no_output_path_witness :
  merge {| update_output_path := JUndefined; update_link_arg := JUndefined |}
    doc_one_entry (gecko_manifest "ext@x" [("version", JStr "1.0")]) "00" = Ok None.
Proof. apply merge_no_output_path. reflexivity. Defined.

Lemma merge_primitive_record_fails_late_witness :
  (exists p, handle_parsed (VC := mozilla_version_comparator) (out_cfg (JStr "https://h/@version@"))
               (JObj [("addons", JObj [("ext@x", JNum 5)])]) (gecko_manifest "ext@x" [("version", JStr "1.0")])
             = Ok (Some (JObj [("addons", JObj [("ext@x", JNum 5)])], p))) /\
  merge (VC := mozilla_version_comparator) (out_cfg (JStr "https://h/@version@"))
    (JObj [("addons", JObj [("ext@x", JNum 5)])]) (gecko_manifest "ext@x" [("version", JStr "1.0")]) "H" =
  Err (StopThenThrow (TypeError "Cannot read properties of undefined (reading 'push')")).
Proof.
  apply (merge_primitive_record_fails_late _ [("addons", JObj [("ext@x", JNum 5)])] [("ext@x", JNum 5)] _
           "ext@x" (JStr "1.0") "H" (JNum 5) "https://h/@version@"); reflexivity.
Defined.
