(* ===== verification/Archive.v ===== *)
(** * The archive scanner: the [unzip.Parse] handlers

    [src/updater.js] lines 75-99 pipe the archive into [unzip.Parse()]
    and register two handlers.  The [entry] handler (lines 77-93) looks
    at each entry's path: [manifest.json] sets [gotManifest], buffers the
    entry's data and calls [HandleManifest] on its text at the entry's
    [end]; [META-INF/mozilla.sf] sets [gotMozillaSign] and does nothing
    else; every other entry is [autodrain()]ed.  The [close] handler
    (lines 94-99) logs an error when no manifest was seen and a warning
    when the archive is unsigned.

    The zip decoding is the [unzip2] library: the model takes its output,
    the sequence of entries with the chunks of their content, as a list
    of [zip_event]s.  The scanner's state is the record [scanner] (the
    two flags); [on_entry] and [on_close] are the handlers; [run_scanner]
    folds the events and returns the outputs in order: the calls to
    [HandleManifest] with their text, the entries drained, the log
    lines.  [Buffer.concat(buffers).toString("utf8")] is modelled as the
    concatenation of the chunks, strings being byte strings (the
    replacement of malformed UTF-8 is not modelled). *)

From Stdlib Require Import List String Bool.
From S2P Require Import Prelude.
Import ListNotations.
Open Scope string_scope.

(** Console output: [console.error], [console.warn], [console.info]
    print their arguments separated by spaces. *)
Inductive log : Type :=
| LogError (msg : string)
| LogWarn (msg : string)
| LogInfo (msg : string).

Definition manifest_path : string := "manifest.json".
Definition mozilla_sign_path : string := "META-INF/mozilla.sf".

(** The two flags of lines 56-57. *)
Record scanner : Type := {
  got_manifest : bool;
  got_mozilla_sign : bool
}.

Definition scanner_init : scanner := {| got_manifest := false; got_mozilla_sign := false |}.

(** What the entry handler does with an entry's content. *)
Inductive disposition : Type :=
| Buffered      (** data collected, [HandleManifest] at [end] (lines 80-87) *)
| Left          (** nothing: neither read nor drained (lines 88-89) *)
| Drained.      (** [entry.autodrain()] (line 91) *)

(** Lines 77-93. *)
Definition on_entry (s : scanner) (path : string) : scanner * disposition :=
  if String.eqb path manifest_path then
    ({| got_manifest := true; got_mozilla_sign := got_mozilla_sign s |}, Buffered)
  else if String.eqb path mozilla_sign_path then
    ({| got_manifest := got_manifest s; got_mozilla_sign := true |}, Left)
  else (s, Drained).

(** Lines 94-99. *)
Definition on_close (file_path : string) (s : scanner) : list log :=
  ((if got_manifest s then [] else [LogError ("No manifest.json found in " ++ file_path)]) ++
   (if got_mozilla_sign s then [] else [LogWarn ("File " ++ file_path ++ " has not been signed by Mozilla")]))%list.

(** What the parser delivers: an entry with the chunks of its content,
    then [close]. *)
Inductive zip_event : Type :=
| ZEntry (path : string) (chunks : list string)
| ZClose.

Inductive scan_output : Type :=
| OutHandleManifest (text : string)   (** [HandleManifest(...)], line 86 *)
| OutDrain (path : string)            (** [entry.autodrain()], line 91 *)
| OutLog (l : log).

(** Lines 82-86: the [data] chunks pushed to [buffers], concatenated
    at [end]. *)
Definition buffered_text (chunks : list string) : string :=
  fold_right String.append EmptyString chunks.

Definition entry_outputs (path : string) (d : disposition) (chunks : list string) : list scan_output :=
  match d with
  | Buffered => [OutHandleManifest (buffered_text chunks)]
  | Left => []
  | Drained => [OutDrain path]
  end.

Fixpoint run_scanner (file_path : string) (s : scanner) (evs : list zip_event)
  : scanner * list scan_output :=
  match evs with
  | [] => (s, [])
  | ZEntry path chunks :: evs' =>
      let '(s1, d) := on_entry s path in
      let '(s2, outs) := run_scanner file_path s1 evs' in
      (s2, (entry_outputs path d chunks ++ outs)%list)
  | ZClose :: evs' =>
      let '(s2, outs) := run_scanner file_path s evs' in
      (s2, (map OutLog (on_close file_path s) ++ outs)%list)
  end.

(** ** Views of the outputs *)

Definition handled_texts (outs : list scan_output) : list string :=
  flat_map (fun o => match o with OutHandleManifest t => [t] | _ => [] end) outs.

Definition drained_paths (outs : list scan_output) : list string :=
  flat_map (fun o => match o with OutDrain p => [p] | _ => [] end) outs.

Definition logs_of (outs : list scan_output) : list log :=
  flat_map (fun o => match o with OutLog l => [l] | _ => [] end) outs.

Definition zentry (e : string * list string) : zip_event := ZEntry (fst e) (snd e).

Definition is_path (p : string) (e : string * list string) : bool := String.eqb (fst e) p.

(** The flags after a sequence of entries. *)
Definition flags_after (s : scanner) (es : list (string * list string)) : scanner :=
  {| got_manifest := got_manifest s || existsb (is_path manifest_path) es;
     got_mozilla_sign := got_mozilla_sign s || existsb (is_path mozilla_sign_path) es |}.

Definition entries_outputs (es : list (string * list string)) : list scan_output :=
  flat_map (fun e => entry_outputs (fst e) (snd (on_entry scanner_init (fst e))) (snd e)) es.

(** ** Lemmas *)

Lemma on_entry_disposition s p : snd (on_entry s p) = snd (on_entry scanner_init p).
Proof. unfold on_entry. now destruct (String.eqb p manifest_path), (String.eqb p mozilla_sign_path). Qed.

Lemma on_entry_flags s p : fst (on_entry s p) = flags_after s [(p, [])].
Proof.
  unfold on_entry, flags_after, is_path. simpl.
  destruct (String.eqb p manifest_path) eqn:E1, (String.eqb p mozilla_sign_path) eqn:E2;
    simpl; rewrite ?orb_true_r, ?orb_false_r; try reflexivity.
  - apply String.eqb_eq in E1, E2. rewrite E1 in E2. discriminate.
  - now destruct s.
Qed.

Lemma flags_after_cons s e es :
  flags_after s (e :: es) = flags_after (flags_after s [e]) es.
Proof. unfold flags_after. simpl. now rewrite !orb_false_r, !orb_assoc. Qed.

Lemma run_scanner_entries fp s es rest :
  run_scanner fp s (map zentry es ++ rest) =
  let '(s', outs) := run_scanner fp (flags_after s es) rest in
  (s', (entries_outputs es ++ outs)%list).
Proof.
  revert s; induction es as [|[p c] es IH]; intros s; simpl.
  - unfold flags_after. simpl. rewrite !orb_false_r. now destruct s, (run_scanner fp _ rest).
  - destruct (on_entry s p) as [s1 d] eqn:He.
    assert (Hs1 : s1 = flags_after s [(p, [])]) by (rewrite <- (on_entry_flags s p), He; reflexivity).
    assert (Hd : d = snd (on_entry scanner_init p)) by (rewrite <- (on_entry_disposition s p), He; reflexivity).
    rewrite IH, Hs1, <- Hd.
    replace (flags_after (flags_after s [(p, [])]) es) with (flags_after s ((p, c) :: es))
      by (rewrite flags_after_cons; unfold flags_after; reflexivity).
    destruct (run_scanner fp _ rest). now rewrite app_assoc.
Qed.

Lemma run_scanner_archive fp es :
  run_scanner fp scanner_init (map zentry es ++ [ZClose]) =
  (flags_after scanner_init es,
   (entries_outputs es ++ map OutLog (on_close fp (flags_after scanner_init es)))%list).
Proof. rewrite run_scanner_entries. simpl. now rewrite app_nil_r. Qed.

Lemma entry_outputs_kind p c :
  entry_outputs p (snd (on_entry scanner_init p)) c =
  if String.eqb p manifest_path then [OutHandleManifest (buffered_text c)]
  else if String.eqb p mozilla_sign_path then [] else [OutDrain p].
Proof. unfold on_entry. now destruct (String.eqb p manifest_path), (String.eqb p mozilla_sign_path). Qed.

(** ** Theorems *)

(** C16: every [manifest.json] entry of the archive, and only those,
    reaches [HandleManifest], once, in archive order, with the
    concatenation of its data chunks (lines 79-87). *)
Theorem archive_handles_each_manifest fp es :
  handled_texts (snd (run_scanner fp scanner_init (map zentry es ++ [ZClose]))) =
  map (fun e => buffered_text (snd e)) (filter (is_path manifest_path) es).
Proof.
  rewrite run_scanner_archive. simpl. unfold handled_texts. rewrite flat_map_app.
  replace (flat_map _ (map OutLog _)) with (@nil string)
    by (induction (on_close _ _); simpl; auto).
  rewrite app_nil_r. induction es as [|[p c] es IH]; [reflexivity|].
  unfold entries_outputs in *. simpl. rewrite flat_map_app, IH, entry_outputs_kind.
  unfold is_path; simpl. destruct (String.eqb p manifest_path); [reflexivity|].
  now destruct (String.eqb p mozilla_sign_path).
Qed.

(** C17: at [close] the scanner logs "No manifest.json found" exactly
    when the archive has no [manifest.json] entry, and the unsigned
    warning exactly when it has no [META-INF/mozilla.sf] entry; both are
    only logged (lines 94-99). *)
Theorem archive_close_logs fp es :
  logs_of (snd (run_scanner fp scanner_init (map zentry es ++ [ZClose]))) =
  ((if existsb (is_path manifest_path) es then [] else [LogError ("No manifest.json found in " ++ fp)]) ++
   (if existsb (is_path mozilla_sign_path) es then []
    else [LogWarn ("File " ++ fp ++ " has not been signed by Mozilla")]))%list.
Proof.
  rewrite run_scanner_archive. simpl. unfold logs_of. rewrite flat_map_app.
  replace (flat_map _ (entries_outputs es)) with (@nil log).
  - simpl. unfold on_close. simpl.
    destruct (existsb (is_path manifest_path) es), (existsb (is_path mozilla_sign_path) es); reflexivity.
  - induction es as [|[p c] es IH]; [reflexivity|]. unfold entries_outputs in *. simpl.
    rewrite flat_map_app, <- IH, entry_outputs_kind.
    destruct (String.eqb p manifest_path); [reflexivity|].
    now destruct (String.eqb p mozilla_sign_path).
Qed.

(** C18: every entry other than [manifest.json] and
    [META-INF/mozilla.sf] is drained, in order; the signature entry is
    never drained nor read (line 89 only sets the flag). *)
Theorem archive_drains fp es :
  drained_paths (snd (run_scanner fp scanner_init (map zentry es ++ [ZClose]))) =
  map fst (filter (fun e => negb (is_path manifest_path e) && negb (is_path mozilla_sign_path e)) es).
Proof.
  rewrite run_scanner_archive. simpl. unfold drained_paths. rewrite flat_map_app.
  replace (flat_map _ (map OutLog _)) with (@nil string)
    by (induction (on_close _ _); simpl; auto).
  rewrite app_nil_r. induction es as [|[p c] es IH]; [reflexivity|].
  unfold entries_outputs in *. simpl. rewrite flat_map_app, IH, entry_outputs_kind.
  unfold is_path; simpl. destruct (String.eqb p manifest_path); [reflexivity|].
  now destruct (String.eqb p mozilla_sign_path).
Qed.
