(* ===== verification/Digest.v ===== *)
(** * The content digest: [Sha256FromFile]

    [src/updater.js] lines 169-183 hash the whole archive file: a
    [crypto] SHA-256 object is fed every [data] chunk of a read stream
    ([shasum.update(data)]); the promise resolves with the hex digest at
    [end] and rejects at [error].

    SHA-256 itself is the [crypto] library.  What the code relies on is
    that hashing is incremental: feeding [a] then [b] is feeding [a ++ b].
    The class [StreamingHash] states this interface; [sha256_hex] is the
    digest of a whole content.  The promise with its hash object is the
    state [pstate]; [digest_step] is the step relation of the three
    stream handlers, [digest_next] the same as a function and
    [digest_run] its fold over a sequence of stream events. *)

From Stdlib Require Import List String.
From S2P Require Import Prelude.
Import ListNotations.
Open Scope string_scope.

Class StreamingHash : Type := {
  hstate : Type;
  h_init : hstate;                         (** [crypto.createHash("sha256")] *)
  h_update : hstate -> string -> hstate;   (** [shasum.update(data)] *)
  h_digest : hstate -> string;             (** [shasum.digest("hex")] *)
  h_update_app : forall h a b, h_update h (a ++ b) = h_update (h_update h a) b;
  h_update_empty : forall h, h_update h EmptyString = h
}.

(** The events of [fs.ReadStream(path)] (line 172). *)
Inductive stream_event : Type :=
| SData (chunk : string)
| SEnd
| SError (err : string).

Section Digest.
Context `{SH : StreamingHash}.

Definition sha256_hex (content : string) : string := h_digest (h_update h_init content).

(** The promise of line 170 with the hash object it closes over. *)
Inductive pstate : Type :=
| Pending (h : hstate)
| Resolved (hex : string)
| Rejected (err : string).

Definition digest_init : pstate := Pending h_init.

(** The handlers of lines 173-181 as a step relation.  A settled
    promise ignores later events: [resolve] and [reject] act once. *)
Inductive digest_step : pstate -> stream_event -> pstate -> Prop :=
| step_data h c : digest_step (Pending h) (SData c) (Pending (h_update h c))
| step_end h : digest_step (Pending h) SEnd (Resolved (h_digest h))
| step_error h e : digest_step (Pending h) (SError e) (Rejected e)
| step_settled_resolved x ev : digest_step (Resolved x) ev (Resolved x)
| step_settled_rejected x ev : digest_step (Rejected x) ev (Rejected x).

Definition digest_next (p : pstate) (ev : stream_event) : pstate :=
  match p, ev with
  | Pending h, SData c => Pending (h_update h c)
  | Pending h, SEnd => Resolved (h_digest h)
  | Pending _, SError e => Rejected e
  | settled, _ => settled
  end.

Definition digest_run (p : pstate) (evs : list stream_event) : pstate :=
  fold_left digest_next evs p.

(** Sequences of steps. *)
Inductive digest_steps : pstate -> list stream_event -> pstate -> Prop :=
| steps_nil p : digest_steps p [] p
| steps_cons p ev p' evs p'' :
    digest_step p ev p' -> digest_steps p' evs p'' -> digest_steps p (ev :: evs) p''.

Definition settled (p : pstate) : bool :=
  match p with Pending _ => false | _ => true end.

Lemma digest_step_next p ev p' : digest_step p ev p' <-> p' = digest_next p ev.
Proof.
  split.
  - intros H. now inversion H.
  - intros ->. destruct p, ev; constructor.
Qed.

Lemma digest_run_data h cs :
  digest_run (Pending h) (map SData cs) = Pending (h_update h (fold_right String.append EmptyString cs)).
Proof.
  revert h; induction cs as [|c cs IH]; intros h; simpl.
  - now rewrite h_update_empty.
  - rewrite IH. now rewrite h_update_app.
Qed.

Lemma digest_run_app p evs evs' : digest_run p (evs ++ evs') = digest_run (digest_run p evs) evs'.
Proof. apply fold_left_app. Qed.

Lemma digest_run_settled p evs : settled p = true -> digest_run p evs = p.
Proof. revert p; induction evs as [|ev evs IH]; intros p Hp; [reflexivity|]. destruct p; try discriminate; apply IH; reflexivity. Qed.

(** ** Theorems *)

(** The step relation of the three stream handlers
    and the function [digest_run] agree: a sequence of events leads
    from [p] to [p'] exactly when [digest_run p] gives [p']. *)
Theorem digest_steps_run p evs p' : digest_steps p evs p' <-> p' = digest_run p evs.
Proof.
  split.
  - induction 1 as [p|p ev p1 evs p2 Hs Hr IH]; [reflexivity|].
    apply digest_step_next in Hs. rewrite IH, Hs. reflexivity.
  - revert p; induction evs as [|ev evs IH]; intros p ->; [constructor|].
    econstructor; [apply digest_step_next; reflexivity | apply IH; reflexivity].
Qed.

(** Once the promise is settled (resolved or
    rejected), no later stream event changes it: by induction on the
    steps. *)
Theorem digest_settled_stable p evs p' :
  digest_steps p evs p' -> settled p = true -> p' = p.
Proof.
  induction 1 as [p|p ev p1 evs p2 Hs Hr IH]; intros Hp; [reflexivity|].
  inversion Hs; subst; try discriminate; now apply IH.
Qed.

(** C19: whatever the chunking of the file, a stream that delivers its
    chunks and ends resolves the promise with the SHA-256 of the whole
    content (spec 4.3: the digest covers the whole file). *)
Theorem digest_whole_file cs :
  digest_run digest_init (map SData cs ++ [SEnd]) =
  Resolved (sha256_hex (fold_right String.append EmptyString cs)).
Proof. unfold digest_init. rewrite digest_run_app, digest_run_data. reflexivity. Qed.

(** C20: a read error before [end] rejects the promise with that error
    and no digest, whatever follows. *)
Theorem digest_error_rejects cs e rest :
  digest_run digest_init (map SData cs ++ SError e :: rest) = Rejected e.
Proof.
  unfold digest_init. rewrite digest_run_app, digest_run_data. simpl.
  now apply digest_run_settled.
Qed.
End Digest.

Lemma string_append_assoc (a b c : string) : a ++ (b ++ c) = (a ++ b) ++ c.
Proof. induction a as [|x a IH]; simpl; [reflexivity|]. now rewrite IH. Qed.

Lemma string_append_empty_r (a : string) : a ++ EmptyString = a.
Proof. induction a as [|x a IH]; simpl; [reflexivity|]. now rewrite IH. Qed.

(** A streaming hash for the witnesses: the content itself. *)
Definition identity_hash : StreamingHash :=
  {| hstate := string; h_init := EmptyString; h_update := String.append; h_digest := fun h => h;
     h_update_app := string_append_assoc;
     h_update_empty := string_append_empty_r |}.

Lemma digest_settled_stable_witness :
  Resolved "ab" = Resolved "ab" (SH := identity_hash).
Proof.
  apply (digest_settled_stable (Resolved "ab") [SData "x"; SEnd] (Resolved "ab")); [|reflexivity].
  repeat econstructor.
Defined.
