(* ===== verification/Json.v ===== *)
(** * JSON text: [JSON.stringify(update, null, 4)] and [JSON.parse]

    [src/updater.js] reads JSON twice with [JSON.parse] (the update
    manifest, line 68, and the archive's [manifest.json], line 104) and
    writes the merged manifest with [JSON.stringify(update,null,4)]
    (line 149).  Both are ECMAScript built-ins (ECMA-262 25.5); this
    file models them on the value trees of [JsValue.v], with texts as
    lists of bytes (the script reads and writes UTF-8; a string value
    is modelled by its UTF-8 bytes).

    The printer [ser] follows SerializeJSONProperty with the gap of
    four spaces: [undefined] properties of objects are skipped,
    [undefined] array elements print as [null], the named properties of
    an array are not printed, object keys are enumerated array indices
    first in increasing order, then the other keys in insertion order
    ([json_order]), strings are quoted by QuoteJSONString
    ([quote_char]).

    The parser [parse_value] reads the JSON grammar with a fuel
    argument (one unit per nested value or list item); [json_parse]
    gives it twice the length of the text plus one, which is always enough
    ([JsonParse.json_parse_terminates]).  Numbers are kept when they are
    integers written without fraction or exponent and of magnitude at
    most [2^53] (where a double represents them exactly and prints
    them back the same); other numbers, and [\u] escapes that denote a
    lone surrogate, are reported as [PUnrepresentable]: valid JSON
    outside the model, not an error of the script.

    The proofs are in [JsonParse.v] (termination) and
    [JsonRoundtrip.v] (what the printer writes, the parser reads back). *)

From Stdlib Require Import List String Ascii ZArith NArith Bool Lia Permutation DecimalString DecimalPos.
From S2P Require Import Prelude JsValue.
Import ListNotations.
Open Scope string_scope.
Open Scope list_scope.
Open Scope faauv_scope.

(** ** Characters *)

Definition ch (n : N) : ascii := ascii_of_N n.

(** The characters the printer emits, by their codes. *)
Definition c_quote : ascii := ch 34.
Definition c_backslash : ascii := ch 92.
Definition c_nl : ascii := ch 10.

Definition bytes (s : string) : list ascii := list_ascii_of_string s.

(** Lower-case hexadecimal digit of a number below 16. *)
Definition hex_lower (n : N) : ascii := ch (if (n <? 10)%N then 48 + n else 87 + n)%N.

(** QuoteJSONString, one code unit (ECMA-262 25.5.2.3, Table 75). *)
Definition quote_char (c : ascii) : list ascii :=
  let n := N_of_ascii c in
  if (n =? 34)%N then [c_backslash; c_quote]
  else if (n =? 92)%N then [c_backslash; c_backslash]
  else if (n =? 8)%N then [c_backslash; "b"%char]
  else if (n =? 12)%N then [c_backslash; "f"%char]
  else if (n =? 10)%N then [c_backslash; "n"%char]
  else if (n =? 13)%N then [c_backslash; "r"%char]
  else if (n =? 9)%N then [c_backslash; "t"%char]
  else if (n <? 32)%N then
    [c_backslash; "u"%char; "0"%char; "0"%char; hex_lower (n / 16); hex_lower (n mod 16)]
  else [c].

Definition quote (s : string) : list ascii :=
  c_quote :: flat_map quote_char (list_ascii_of_string s) ++ [c_quote].

(** ** Key order of [EnumerableOwnProperties] *)

Definition key_index {A} (kv : string * A) : option N := array_index (fst kv).

Definition is_index_key {A} (kv : string * A) : bool :=
  match key_index kv with Some _ => true | None => false end.

Definition index_or_zero {A} (kv : string * A) : N :=
  match key_index kv with Some n => n | None => 0%N end.

Fixpoint insert_by_index {A} (kv : string * A) (ps : list (string * A)) : list (string * A) :=
  match ps with
  | [] => [kv]
  | kv' :: ps' =>
      if (index_or_zero kv <=? index_or_zero kv')%N then kv :: ps
      else kv' :: insert_by_index kv ps'
  end.

Definition sort_by_index {A} (ps : list (string * A)) : list (string * A) :=
  fold_right insert_by_index [] ps.

(** OrdinaryOwnPropertyKeys: array indices ascending, then the other
    string keys in the order they were created. *)
Definition json_order {A} (ps : list (string * A)) : list (string * A) :=
  sort_by_index (filter is_index_key ps) ++ filter (fun kv => negb (is_index_key kv)) ps.

(** ** The printer *)

Definition gap : list ascii := bytes "    ".

Definition indent (d : nat) : list ascii := List.concat (repeat gap d).

Fixpoint join (sep : list ascii) (xs : list (list ascii)) : list ascii :=
  match xs with
  | [] => []
  | [x] => x
  | x :: xs' => x ++ sep ++ join sep xs'
  end.

(** The bracketed form of SerializeJSONObject and SerializeJSONArray
    with a non-empty gap, at depth [d]. *)
Definition bracket (o c : ascii) (d : nat) (items : list (list ascii)) : list ascii :=
  match items with
  | [] => [o; c]
  | _ => o :: c_nl :: indent (S d) ++ join (","%char :: c_nl :: indent (S d)) items ++ c_nl :: indent d ++ [c]
  end.

Definition member_text (k : string) (t : list ascii) : list ascii := quote k ++ bytes ": " ++ t.

(** SerializeJSONProperty at depth [d]; [None] is the [undefined]
    result. *)
Fixpoint ser (d : nat) (v : jsval) : option (list ascii) :=
  match v with
  | JUndefined => None
  | JNull => Some (bytes "null")
  | JBool true => Some (bytes "true")
  | JBool false => Some (bytes "false")
  | JNum n => Some (bytes (string_of_Z n))
  | JStr s => Some (quote s)
  | JArr es _ =>
      Some (bracket "["%char "]"%char d
              (map (fun e => match ser (S d) e with Some t => t | None => bytes "null" end) es))
  | JObj ps =>
      let texts := flat_map (fun kv => match ser (S d) (snd kv) with
                                       | Some t => [(fst kv, t)]
                                       | None => []
                                       end) ps in
      Some (bracket "{"%char "}"%char d (map (fun kt => member_text (fst kt) (snd kt)) (json_order texts)))
  end.

(** [JSON.stringify(v, null, 4)]. *)
Definition json_stringify (v : jsval) : option string :=
  option_map string_of_list_ascii (ser 0 v).

(** ** The parser *)

(** [SyntaxError] of [JSON.parse]; valid JSON outside the model; fuel
    exhausted (never, with the fuel [json_parse] gives). *)
Inductive perr : Type :=
| PSyntax
| PUnrepresentable
| POutOfFuel.

Abbreviation presult A := (result perr A).

Definition code_is (n : N) (c : ascii) : bool := (N_of_ascii c =? n)%N.

Definition is_ws (c : ascii) : bool :=
  code_is 32 c || code_is 9 c || code_is 10 c || code_is 13 c.

Fixpoint skip_ws (s : list ascii) : list ascii :=
  match s with
  | c :: s' => if is_ws c then skip_ws s' else s
  | [] => []
  end.

Definition is_dec_digit (c : ascii) : bool := ((48 <=? N_of_ascii c) && (N_of_ascii c <=? 57))%N.

Definition hex_val (c : ascii) : option N :=
  let n := N_of_ascii c in
  if ((48 <=? n) && (n <=? 57))%N then Some (n - 48)%N
  else if ((97 <=? n) && (n <=? 102))%N then Some (n - 87)%N
  else if ((65 <=? n) && (n <=? 70))%N then Some (n - 55)%N
  else None.

Definition hex4 (a b c d : ascii) : option N :=
  match hex_val a, hex_val b, hex_val c, hex_val d with
  | Some x, Some y, Some z, Some w => Some (((x * 16 + y) * 16 + z) * 16 + w)%N
  | _, _, _, _ => None
  end.

(** The UTF-8 bytes of a code point. *)
Definition utf8 (cp : N) : list ascii :=
  if (cp <? 128)%N then [ch cp]
  else if (cp <? 2048)%N then [ch (192 + cp / 64); ch (128 + cp mod 64)]
  else if (cp <? 65536)%N then
    [ch (224 + cp / 4096); ch (128 + (cp / 64) mod 64); ch (128 + cp mod 64)]
  else [ch (240 + cp / 262144); ch (128 + (cp / 4096) mod 64);
        ch (128 + (cp / 64) mod 64); ch (128 + cp mod 64)].

Definition is_high_surrogate (u : N) : bool := ((55296 <=? u) && (u <=? 56319))%N.
Definition is_low_surrogate (u : N) : bool := ((56320 <=? u) && (u <=? 57343))%N.

(** The single-character escapes of JSON strings. *)
Definition simple_escape (e : ascii) : option ascii :=
  if code_is 34 e || code_is 92 e || code_is 47 e then Some e
  else if Ascii.eqb e "b" then Some (ch 8)
  else if Ascii.eqb e "f" then Some (ch 12)
  else if Ascii.eqb e "n" then Some c_nl
  else if Ascii.eqb e "r" then Some (ch 13)
  else if Ascii.eqb e "t" then Some (ch 9)
  else None.

(** The body of a string literal after its opening quote: its bytes and
    the text after the closing quote. *)
Fixpoint pstring (s : list ascii) : presult (list ascii * list ascii) :=
  match s with
  | [] => Err PSyntax
  | c :: s' =>
      if code_is 34 c then Ok ([], s')
      else if code_is 92 c then
        match s' with
        | [] => Err PSyntax
        | e :: s'' =>
            match simple_escape e with
            | Some x => '(t, r) <- pstring s'' ;; Ok (x :: t, r)
            | None =>
                if Ascii.eqb e "u" then
                  match s'' with
                  | a :: b :: c1 :: d :: s3 =>
                      match hex4 a b c1 d with
                      | None => Err PSyntax
                      | Some u =>
                          if is_high_surrogate u then
                            match s3 with
                            | bs :: uu :: a' :: b' :: c' :: d' :: s4 =>
                                if code_is 92 bs && Ascii.eqb uu "u" then
                                  match hex4 a' b' c' d' with
                                  | Some u' =>
                                      if is_low_surrogate u' then
                                        '(t, r) <- pstring s4 ;;
                                        Ok (utf8 (65536 + (u - 55296) * 1024 + (u' - 56320))%N ++ t, r)
                                      else Err PUnrepresentable
                                  | None => Err PSyntax
                                  end
                                else Err PUnrepresentable
                            | _ => Err PUnrepresentable
                            end
                          else if is_low_surrogate u then Err PUnrepresentable
                          else '(t, r) <- pstring s3 ;; Ok (utf8 u ++ t, r)
                      end
                  | _ => Err PSyntax
                  end
                else Err PSyntax
            end
        end
      else if (N_of_ascii c <? 32)%N then Err PSyntax
      else '(t, r) <- pstring s' ;; Ok (c :: t, r)
  end.

Fixpoint take_digits (s : list ascii) : list ascii * list ascii :=
  match s with
  | c :: s' => if is_dec_digit c then let '(ds, r) := take_digits s' in (c :: ds, r) else ([], s)
  | [] => ([], [])
  end.

Definition dec_value (ds : list ascii) : Z :=
  fold_left (fun acc c => 10 * acc + (Z.of_N (N_of_ascii c) - 48))%Z ds 0%Z.

(** The largest magnitude kept: [2^53]. *)
Definition max_exact : Z := 9007199254740992%Z.

(** The fraction and exponent parts: [Ok true] when one is present and
    well formed, [Ok false] when there is none. *)
Definition frac_exp (s : list ascii) : presult (bool * list ascii) :=
  let frac :=
    match s with
    | c :: s1 =>
        if Ascii.eqb c "." then
          match take_digits s1 with
          | ([], _) => Err PSyntax
          | (_, r) => Ok (true, r)
          end
        else Ok (false, s)
    | [] => Ok (false, s)
    end in
  '(hf, s2) <- frac ;;
  match s2 with
  | c :: s3 =>
      if Ascii.eqb c "e" || Ascii.eqb c "E" then
        let s4 := match s3 with
                  | d :: s5 => if Ascii.eqb d "+" || Ascii.eqb d "-" then s5 else s3
                  | [] => s3
                  end in
        match take_digits s4 with
        | ([], _) => Err PSyntax
        | (_, r) => Ok (true, r)
        end
      else Ok (hf, s2)
  | [] => Ok (hf, s2)
  end.

(** A number: [-]? then [0] or a non-zero digit and digits, then the
    optional fraction and exponent. *)
Definition pnumber (s : list ascii) : presult (jsval * list ascii) :=
  let '(neg, s1) := match s with
                    | c :: s' => if Ascii.eqb c "-" then (true, s') else (false, s)
                    | [] => (false, s)
                    end in
  '(ds, s2) <- match s1 with
               | c :: s' =>
                   if Ascii.eqb c "0" then Ok ([c], s')
                   else if is_dec_digit c then Ok (take_digits s1)
                   else Err PSyntax
               | [] => Err PSyntax
               end ;;
  '(fe, s3) <- frac_exp s2 ;;
  let n := dec_value ds in
  if fe || (max_exact <? n)%Z then Err PUnrepresentable
  else Ok (JNum (if neg then Z.opp n else n), s3).

Fixpoint starts_with (l s : list ascii) : bool :=
  match l, s with
  | [], _ => true
  | a :: l', b :: s' => Ascii.eqb a b && starts_with l' s'
  | _ :: _, [] => false
  end.

Definition literal (lit : string) (v : jsval) (s : list ascii) : presult (jsval * list ascii) :=
  let l := bytes lit in
  if starts_with l s then Ok (v, skipn (List.length l) s)
  else Err PSyntax.

(** A JSON value, an array's elements after [[], an object's members
    after [{]; [JSON.parse] creates object properties with
    CreateDataProperty, so a repeated key keeps its first position and
    its last value ([assoc_set]). *)
Fixpoint parse_value (fuel : nat) (s : list ascii) : presult (jsval * list ascii) :=
  match fuel with
  | O => Err POutOfFuel
  | S f =>
      match skip_ws s with
      | [] => Err PSyntax
      | c :: s1 =>
          if Ascii.eqb c "{" then
            match skip_ws s1 with
            | c' :: s2 => if Ascii.eqb c' "}" then Ok (JObj [], s2) else parse_members f [] s1
            | [] => Err PSyntax
            end
          else if Ascii.eqb c "[" then
            match skip_ws s1 with
            | c' :: s2 => if Ascii.eqb c' "]" then Ok (JArr [] [], s2) else parse_elems f [] s1
            | [] => Err PSyntax
            end
          else if code_is 34 c then
            '(t, s2) <- pstring s1 ;; Ok (JStr (string_of_list_ascii t), s2)
          else if Ascii.eqb c "t" then literal "true" (JBool true) (c :: s1)
          else if Ascii.eqb c "f" then literal "false" (JBool false) (c :: s1)
          else if Ascii.eqb c "n" then literal "null" JNull (c :: s1)
          else if Ascii.eqb c "-" || is_dec_digit c then pnumber (c :: s1)
          else Err PSyntax
      end
  end
with parse_elems (fuel : nat) (acc : list jsval) (s : list ascii) : presult (jsval * list ascii) :=
  match fuel with
  | O => Err POutOfFuel
  | S f =>
      '(v, s1) <- parse_value f s ;;
      match skip_ws s1 with
      | c :: s2 =>
          if Ascii.eqb c "," then parse_elems f (acc ++ [v]) s2
          else if Ascii.eqb c "]" then Ok (JArr (acc ++ [v]) [], s2)
          else Err PSyntax
      | [] => Err PSyntax
      end
  end
with parse_members (fuel : nat) (ps : list (string * jsval)) (s : list ascii)
  : presult (jsval * list ascii) :=
  match fuel with
  | O => Err POutOfFuel
  | S f =>
      match skip_ws s with
      | c :: s1 =>
          if code_is 34 c then
            '(k, s2) <- pstring s1 ;;
            match skip_ws s2 with
            | c2 :: s3 =>
                if Ascii.eqb c2 ":" then
                  '(v, s4) <- parse_value f s3 ;;
                  let ps' := assoc_set (string_of_list_ascii k) v ps in
                  match skip_ws s4 with
                  | c3 :: s5 =>
                      if Ascii.eqb c3 "," then parse_members f ps' s5
                      else if Ascii.eqb c3 "}" then Ok (JObj ps', s5)
                      else Err PSyntax
                  | [] => Err PSyntax
                  end
                else Err PSyntax
            | [] => Err PSyntax
            end
          else Err PSyntax
      | [] => Err PSyntax
      end
  end.

(** [JSON.parse(text)]: one value, then only white space. *)
Definition json_parse (text : string) : presult jsval :=
  let s := list_ascii_of_string text in
  '(v, r) <- parse_value (S (2 * List.length s)) s ;;
  match skip_ws r with
  | [] => Ok v
  | _ => Err PSyntax
  end.

(** ** Normal forms and well-formed values *)

(** What [JSON.parse(JSON.stringify(v))] gives back: [undefined]
    properties dropped, [undefined] elements as [null], the named
    properties of arrays dropped, keys in enumeration order. *)
Fixpoint json_norm (v : jsval) : jsval :=
  match v with
  | JArr es _ => JArr (map (fun e => match e with JUndefined => JNull | _ => json_norm e end) es) []
  | JObj ps =>
      JObj (json_order (flat_map (fun kv => match snd kv with
                                            | JUndefined => []
                                            | _ => [(fst kv, json_norm (snd kv))]
                                            end) ps))
  | _ => v
  end.

Fixpoint keys_distinct {A} (ps : list (string * A)) : bool :=
  match ps with
  | [] => true
  | (k, _) :: ps' => negb (existsb (String.eqb k) (map fst ps')) && keys_distinct ps'
  end.

(** The values [JSON.parse] produces: numbers kept exactly, object keys
    distinct, at every depth. *)
Fixpoint json_wf (v : jsval) : bool :=
  match v with
  | JNum n => (Z.abs n <=? max_exact)%Z
  | JArr es _ => forallb json_wf es
  | JObj ps => keys_distinct ps && forallb (fun kv => json_wf (snd kv)) ps
  | _ => true
  end.

(** Induction on values with a hypothesis for every element of an array
    and every property of an object. *)
Section JsvalInd.
Variable P : jsval -> Prop.
Hypothesis H_undef : P JUndefined.
Hypothesis H_null : P JNull.
Hypothesis H_bool : forall b, P (JBool b).
Hypothesis H_num : forall n, P (JNum n).
Hypothesis H_str : forall s, P (JStr s).
Hypothesis H_arr : forall es ps, Forall P es -> P (JArr es ps).
Hypothesis H_obj : forall ps, Forall (fun kv => P (snd kv)) ps -> P (JObj ps).

Fixpoint jsval_ind' (v : jsval) : P v :=
  match v with
  | JUndefined => H_undef
  | JNull => H_null
  | JBool b => H_bool b
  | JNum n => H_num n
  | JStr s => H_str s
  | JArr es ps =>
      H_arr es ps ((fix F (l : list jsval) : Forall P l :=
                      match l with
                      | [] => Forall_nil _
                      | e :: l' => Forall_cons _ (jsval_ind' e) (F l')
                      end) es)
  | JObj ps =>
      H_obj ps ((fix F (l : list (string * jsval)) : Forall (fun kv => P (snd kv)) l :=
                   match l with
                   | [] => Forall_nil _
                   | kv :: l' => Forall_cons _ (jsval_ind' (snd kv)) (F l')
                   end) ps)
  end.
End JsvalInd.
