(* ===== verification/MergeOutput.v ===== *)
(** * What the merge writes

    The document [Merge.merge] returns is written with
    [JSON.stringify(update, null, 4)] (lines 146-149, Json.v).  The
    printer ignores the named properties of arrays; when the add-on's
    record in [update.json] is an array, the merge puts the add-on's
    [updates] exactly there, and the file written is the file read
    ([merge_array_record_hides_entry]). *)

From Stdlib Require Import List String ZArith Bool.
From S2P Require Import Prelude JsValue JsString VersionCompare Merge Json.
Import ListNotations.
Open Scope string_scope.
Open Scope faauv_scope.

Section ArrayRecord.
Context `{VC : VersionComparator}.

(** [JSON.stringify] does not see a change of a property to a value it
    prints the same at every depth. *)
Lemma ser_assoc_set_congr k v v' ps :
  (forall d, ser d v = ser d v') -> forall d, ser d (JObj (assoc_set k v ps)) = ser d (JObj (assoc_set k v' ps)).
Proof.
  intros H d.
  assert (E : forall ps,
             flat_map (fun kv => match ser (S d) (snd kv) with Some t => [(fst kv, t)] | None => [] end)
               (assoc_set k v ps) =
             flat_map (fun kv => match ser (S d) (snd kv) with Some t => [(fst kv, t)] | None => [] end)
               (assoc_set k v' ps)).
  { induction ps0 as [|[k' x] ps0 IH]; cbn [assoc_set].
    - cbn [flat_map snd fst]. now rewrite H.
    - destruct (String.eqb k k'); cbn [flat_map snd fst]; [now rewrite H|now rewrite IH]. }
  cbn [ser]. now rewrite E.
Qed.

Lemma ser_arr_props es ps ps' d : ser d (JArr es ps) = ser d (JArr es ps').
Proof. reflexivity. Qed.

(** C15: finding.  When the add-on's record in [update.json] is an
    array, line 116 stores the filtered [updates] as a named property
    of that array and line 145 pushes the new entry there; the run
    succeeds, but [JSON.stringify] does not print named properties of
    arrays, so the file written is the update manifest read, byte for
    byte: the new version is silently lost. *)
Theorem merge_array_record_hides_entry cfg ups A manifest id mv hash es ps t :
  truthy (update_output_path cfg) = true -> manifest_view manifest = Some (id, mv) ->
  assoc_get "addons" ups = Some (JObj A) -> assoc_get id A = Some (JArr es ps) ->
  assoc_get "updates" ps = None -> link_template (update_link_arg cfg) = Some t ->
  exists u, merge cfg (JObj ups) manifest hash = Ok (Some u) /\ json_stringify u = json_stringify (JObj ups).
Proof.
  intros Hout Hm HA Hk Hu Hl.
  destruct (addon_id_of_view _ _ _ Hm) as [Hid Hv].
  assert (Hlink : truthy (update_link_arg cfg) = false \/ exists t, update_link_arg cfg = JStr t)
    by (right; exists t; exact (link_template_some _ _ Hl)).
  unfold merge, handle_parsed. rewrite Hout. simpl negb. cbv iota.
  rewrite Hid. simpl bind. simpl truthy. rewrite (manifest_view_id_nonempty _ _ _ Hm). simpl.
  unfold ensure_record. simpl. rewrite HA. simpl. rewrite Hk. simpl.
  unfold filter_updates. simpl. rewrite HA. simpl. rewrite Hk. simpl. rewrite Hu. simpl.
  unfold update_in. simpl. rewrite HA. simpl. rewrite Hk. simpl.
  rewrite (resolve_url_ok _ None manifest mv Hlink) by (discriminate || exact Hv).
  unfold spec_url. rewrite Hl. simpl. rewrite Hv. simpl.
  unfold on_hash, push_entry, update_in. doc_simpl.
  eexists; split; [reflexivity|].
  assert (Eu : JObj ups = JObj (assoc_set "addons" (JObj (assoc_set id (JArr es ps) A)) ups))
    by now rewrite (assoc_set_get_id _ _ _ Hk), (assoc_set_get_id _ _ _ HA).
  rewrite Eu. unfold json_stringify. f_equal.
  apply ser_assoc_set_congr. intros d. apply ser_assoc_set_congr. intros d'. apply ser_arr_props.
Qed.

End ArrayRecord.

Lemma merge_array_record_hides_entry_witness :
  exists u, merge (VC := mozilla_version_comparator) (out_cfg (JStr "https://h/@version@"))
              (JObj [("addons", JObj [("ext@x", JArr [] [])])]) (gecko_manifest "ext@x" [("version", JStr "1.0")])
              "H" = Ok (Some u) /\
            json_stringify u = json_stringify (JObj [("addons", JObj [("ext@x", JArr [] [])])]).
Proof.
  apply (merge_array_record_hides_entry _ _ [("ext@x", JArr [] [])] _ "ext@x" (JStr "1.0") "H" [] []
           "https://h/@version@"); reflexivity.
Defined.
