(* ===== verification/JsonParse.v ===== *)
(** * Termination and well-formedness of the JSON parser

    Every call of [parse_value], [parse_elems] and [parse_members]
    consumes input ([parse_progress]), so the fuel [json_parse] gives,
    twice the length of the text plus one, is never exhausted
    ([json_parse_terminates]).  Every value it returns is well formed
    ([json_parse_wf]): integers within 2^53 and distinct keys, the
    [json_wf] the round trip of JsonRoundtrip.v assumes. *)

From Stdlib Require Import List String Ascii ZArith NArith Bool Lia Permutation DecimalString DecimalPos.
From S2P Require Import Prelude JsValue Json.
Import ListNotations.
Open Scope string_scope.
Open Scope list_scope.
Open Scope faauv_scope.

(** ** Termination: the parser consumes its input *)

(** Splits the hypotheses [e = Ok v] along the matches, conditionals
    and binds of [e], keeping the equations of the scrutinees. *)
Ltac split_ok_step :=
  match goal with
  | H : bind ?r _ = Ok _ |- _ =>
      let a := fresh "a" in let Ha := fresh "Ha" in
      apply bind_eq_ok in H; destruct H as [a [Ha H]]
  | H : (let '(_, _) := ?p in _) = Ok _ |- _ => destruct p eqn:?
  | H : (match ?p with (_, _) => _ end) = Ok _ |- _ => destruct p eqn:?
  | H : (if ?b then _ else _) = Ok _ |- _ => destruct b eqn:?
  | H : (match ?x with _ => _ end) = Ok _ |- _ => destruct x eqn:?
  | H : Err _ = Ok _ |- _ => discriminate H
  | H : Ok _ = Ok _ |- _ => injection H as H
  end.

Ltac split_ok := repeat split_ok_step.

Lemma skip_ws_length s : List.length (skip_ws s) <= List.length s.
Proof. induction s as [|c s IH]; simpl; [lia|]. destruct (is_ws c); simpl; lia. Qed.

Lemma pstring_length s : forall t r, pstring s = Ok (t, r) -> List.length r < List.length s.
Proof.
  induction s as [s IH] using (induction_ltof1 _ (@List.length ascii)); unfold ltof in IH.
  intros t r H. destruct s as [|c s']; [discriminate|]. cbn [pstring] in H.
  split_ok; subst; simpl in *; try lia;
    match goal with Hp : pstring ?x = Ok _ |- _ => apply IH in Hp; simpl in *; lia end.
Qed.

Lemma take_digits_eq s ds r : take_digits s = (ds, r) -> s = ds ++ r.
Proof.
  revert ds r; induction s as [|c s IH]; intros ds r H; simpl in H.
  - now injection H as <- <-.
  - destruct (is_dec_digit c); [|now injection H as <- <-].
    destruct (take_digits s) as [ds' r'] eqn:E. injection H as <- <-.
    simpl. now rewrite (IH ds' r' eq_refl).
Qed.

Ltac take_digits_len :=
  subst;
  repeat match goal with
  | H : take_digits ?s = (?ds, ?r) |- _ =>
      apply take_digits_eq, (f_equal (@List.length ascii)) in H; rewrite length_app in H
  | H : (_, _) = (_, _) |- _ => injection H; clear H; intros; subst
  | H : [] = _ :: _ |- _ => discriminate H
  | H : _ :: _ = [] |- _ => discriminate H
  | H : context [match ?x with _ => _ end] |- _ => destruct x eqn:?
  end; simpl in *; try lia.

Lemma frac_exp_length s b r : frac_exp s = Ok (b, r) -> List.length r <= List.length s.
Proof.
  unfold frac_exp. intros H. split_ok; subst; take_digits_len.
Qed.

Lemma pnumber_length s v r : pnumber s = Ok (v, r) -> List.length r < List.length s.
Proof.
  unfold pnumber. intros H. split_ok; subst;
    repeat match goal with Hf : frac_exp _ = Ok _ |- _ => apply frac_exp_length in Hf end;
    take_digits_len.
Qed.

Lemma starts_with_length l s : starts_with l s = true -> List.length l <= List.length s.
Proof.
  revert s; induction l as [|a l IH]; intros [|b s] H; simpl in *; try lia; try discriminate.
  apply andb_prop in H as [_ H]. apply IH in H. lia.
Qed.

Lemma literal_length lit v s w r :
  lit <> EmptyString -> literal lit v s = Ok (w, r) -> List.length r < List.length s.
Proof.
  unfold literal. intros Hl H. destruct (starts_with (bytes lit) s) eqn:E; [|discriminate].
  injection H as _ <-. apply starts_with_length in E. rewrite length_skipn.
  destruct lit; [easy|]. simpl in *. lia.
Qed.

Lemma bind_no_oof {A B} (r : presult A) (k : A -> presult B) :
  r <> Err POutOfFuel -> (forall a, k a <> Err POutOfFuel) -> bind r k <> Err POutOfFuel.
Proof. destruct r; simpl; [auto | intros H _ He; injection He as ->; now apply H]. Qed.

(** The parser reports [POutOfFuel] only when a sub-parser does; [L]
    discharges the sub-parsers. *)
Ltac no_oof L :=
  repeat match goal with
  | |- Ok _ <> Err _ => discriminate
  | |- Err PSyntax <> Err POutOfFuel => discriminate
  | |- Err PUnrepresentable <> Err POutOfFuel => discriminate
  | |- bind _ _ <> Err POutOfFuel => apply bind_no_oof; [|intros ?]
  | |- (let '(_, _) := ?p in _) <> _ => destruct p eqn:?
  | |- (match ?p with (_, _) => _ end) <> _ => destruct p eqn:?
  | |- (if ?b then _ else _) <> _ => destruct b eqn:?
  | |- (match ?x with _ => _ end) <> _ => destruct x eqn:?
  | |- _ <> _ => progress cbv zeta
  | |- _ <> _ => solve [L]
  end.

Lemma pstring_no_oof s : pstring s <> Err POutOfFuel.
Proof.
  induction s as [s IH] using (induction_ltof1 _ (@List.length ascii)); unfold ltof in IH.
  destruct s as [|c s']; [discriminate|]. cbn [pstring].
  no_oof ltac:(apply IH; subst; simpl; lia).
Qed.

Lemma pnumber_no_oof s : pnumber s <> Err POutOfFuel.
Proof. unfold pnumber, frac_exp. no_oof fail. Qed.

Lemma literal_no_oof lit v s : literal lit v s <> Err POutOfFuel.
Proof. unfold literal. no_oof idtac. Qed.

(** A call on [s] either returns a shorter remainder or fails with an
    error other than [POutOfFuel]. *)
Definition progress_ok {A} (s : list ascii) (res : presult (A * list ascii)) : Prop :=
  match res with
  | Ok (_, r) => List.length r < List.length s
  | Err e => e <> POutOfFuel
  end.

Lemma leaf_progress {A} (res : presult (A * list ascii)) (x s : list ascii) :
  res <> Err POutOfFuel -> (forall v r, res = Ok (v, r) -> List.length r < List.length x) ->
  List.length x <= List.length s -> progress_ok s res.
Proof.
  unfold progress_ok. intros H1 H2 H3. destruct res as [[v r]|e].
  - specialize (H2 v r eq_refl). lia.
  - intros ->. now apply H1.
Qed.

Lemma parse_progress fuel :
  (forall s, 2 * List.length s < fuel -> progress_ok s (parse_value fuel s)) /\
  (forall acc s, 2 * List.length s + 1 < fuel -> progress_ok s (parse_elems fuel acc s)) /\
  (forall ps s, 2 * List.length s + 1 < fuel -> progress_ok s (parse_members fuel ps s)).
Proof.
  induction fuel as [|f [IHv [IHe IHm]]]; [repeat split; intros; lia|].
  unfold progress_ok in *. repeat split.
  - intros s Hs. cbn [parse_value].
    pose proof (skip_ws_length s) as Hw.
    destruct (skip_ws s) as [|c s1]; [discriminate|]. simpl in Hw.
    destruct (Ascii.eqb c "{").
    { pose proof (skip_ws_length s1) as Hw1.
      destruct (skip_ws s1) as [|c' s2]; [discriminate|]. simpl in Hw1.
      destruct (Ascii.eqb c' "}"); [lia|].
      specialize (IHm [] s1 ltac:(lia)). destruct (parse_members f [] s1) as [[v r]|e]; [lia|exact IHm]. }
    destruct (Ascii.eqb c "[").
    { pose proof (skip_ws_length s1) as Hw1.
      destruct (skip_ws s1) as [|c' s2]; [discriminate|]. simpl in Hw1.
      destruct (Ascii.eqb c' "]"); [lia|].
      specialize (IHe [] s1 ltac:(lia)). destruct (parse_elems f [] s1) as [[v r]|e]; [lia|exact IHe]. }
    destruct (code_is 34 c).
    { destruct (pstring s1) as [[t r]|e] eqn:Ep; simpl.
      - apply pstring_length in Ep. lia.
      - intros ->. now apply (pstring_no_oof s1). }
    repeat match goal with
    | |- context [if ?b then _ else _] => destruct b
    end;
      try discriminate;
      (apply (leaf_progress _ (c :: s1));
       [apply literal_no_oof || apply pnumber_no_oof
       | intros v r Hr; (eapply literal_length; [|exact Hr]; discriminate) || exact (pnumber_length _ _ _ Hr)
       | simpl; lia]).
  - intros acc s Hs. cbn [parse_elems].
    specialize (IHv s ltac:(lia)). destruct (parse_value f s) as [[v s1]|e]; simpl; [|exact IHv].
    pose proof (skip_ws_length s1) as Hw.
    destruct (skip_ws s1) as [|c s2]; [discriminate|]. simpl in Hw.
    destruct (Ascii.eqb c ",").
    + specialize (IHe (acc ++ [v]) s2 ltac:(lia)).
      destruct (parse_elems f (acc ++ [v]) s2) as [[w r]|e]; [lia|exact IHe].
    + destruct (Ascii.eqb c "]"); [lia|discriminate].
  - intros ps s Hs. cbn [parse_members].
    pose proof (skip_ws_length s) as Hw.
    destruct (skip_ws s) as [|c s1]; [discriminate|]. simpl in Hw.
    destruct (code_is 34 c); [|discriminate].
    destruct (pstring s1) as [[k s2]|e] eqn:Ep; simpl;
      [|intros ->; now apply (pstring_no_oof s1)].
    apply pstring_length in Ep.
    pose proof (skip_ws_length s2) as Hw2.
    destruct (skip_ws s2) as [|c2 s3]; [discriminate|]. simpl in Hw2.
    destruct (Ascii.eqb c2 ":"); [|discriminate].
    specialize (IHv s3 ltac:(lia)). destruct (parse_value f s3) as [[v s4]|e]; simpl; [|exact IHv].
    pose proof (skip_ws_length s4) as Hw4.
    destruct (skip_ws s4) as [|c3 s5]; [discriminate|]. simpl in Hw4.
    destruct (Ascii.eqb c3 ",").
    + specialize (IHm (assoc_set (string_of_list_ascii k) v ps) s5 ltac:(lia)).
      destruct (parse_members f _ s5) as [[w r]|e]; [lia|exact IHm].
    + destruct (Ascii.eqb c3 "}"); [lia|discriminate].
Qed.

(** ** Theorems *)

(** The parser model is total: [JSON.parse] as modelled always terminates with
    a value, a [SyntaxError] or a value outside the model: the fuel
    [json_parse] gives (twice the length of the text, plus one) is never
    exhausted, because every call consumes input. *)
Theorem json_parse_terminates text : json_parse text <> Err POutOfFuel.
Proof.
  unfold json_parse. set (s := list_ascii_of_string text).
  destruct (parse_progress (S (2 * List.length s))) as [Hv _].
  specialize (Hv s ltac:(lia)). unfold progress_ok in Hv.
  destruct (parse_value _ s) as [[v r]|e]; simpl.
  - destruct (skip_ws r); discriminate.
  - intros H. injection H as ->. now apply Hv.
Qed.

(** ** Well-formedness: what the parser returns *)

Lemma take_digits_digits s : forallb is_dec_digit (fst (take_digits s)) = true.
Proof.
  induction s as [|c s IH]; simpl; [reflexivity|].
  destruct (is_dec_digit c) eqn:E; [|reflexivity].
  destruct (take_digits s) as [ds r]. simpl in *. now rewrite E, IH.
Qed.

Lemma dec_value_nonneg ds : forallb is_dec_digit ds = true -> (0 <= dec_value ds)%Z.
Proof.
  unfold dec_value.
  enough (forall a, (0 <= a)%Z -> forallb is_dec_digit ds = true ->
            (0 <= fold_left (fun acc c => 10 * acc + (Z.of_N (N_of_ascii c) - 48))%Z ds a)%Z)
    by (intros Hd; apply H; [lia|exact Hd]).
  induction ds as [|c ds IH]; intros a Ha Hd; cbn [fold_left forallb] in *; [exact Ha|].
  apply andb_prop in Hd as [Hc Hd]. unfold is_dec_digit in Hc.
  apply andb_prop in Hc as [Hc _]. apply N.leb_le, N2Z.inj_le in Hc.
  apply IH; [lia|exact Hd].
Qed.

Lemma assoc_set_keys x k v ps :
  existsb (String.eqb x) (map fst (assoc_set k v ps)) = String.eqb x k || existsb (String.eqb x) (map fst ps).
Proof.
  induction ps as [|[k' v'] ps IH]; simpl; [now rewrite orb_false_r|].
  destruct (String.eqb k k') eqn:E; simpl.
  - apply String.eqb_eq in E. subst. now destruct (String.eqb x k').
  - rewrite IH. now destruct (String.eqb x k), (String.eqb x k').
Qed.

Lemma assoc_set_distinct k v ps : keys_distinct ps = true -> keys_distinct (assoc_set k v ps) = true.
Proof.
  induction ps as [|[k' v'] ps IH]; simpl; [reflexivity|].
  destruct (String.eqb k k') eqn:E; simpl; [exact id|].
  rewrite assoc_set_keys, andb_true_iff. intros [Hn Hd].
  rewrite String.eqb_sym, E. simpl. now rewrite Hn, IH.
Qed.

Lemma assoc_set_forall (P : jsval -> bool) k v ps :
  P v = true -> forallb (fun kv => P (snd kv)) ps = true ->
  forallb (fun kv => P (snd kv)) (assoc_set k v ps) = true.
Proof.
  intros Hv. induction ps as [|[k' v'] ps IH]; simpl; [now rewrite Hv|].
  rewrite andb_true_iff. intros [H1 H2].
  destruct (String.eqb k k'); simpl; [now rewrite Hv, H2|now rewrite H1, IH].
Qed.

Lemma literal_value lit x s v r : literal lit x s = Ok (v, r) -> v = x.
Proof. unfold literal. destruct (starts_with _ _); [congruence|discriminate]. Qed.

Lemma pnumber_wf s v r : pnumber s = Ok (v, r) -> json_wf v = true.
Proof.
  unfold pnumber. intros H. split_ok; subst;
    apply orb_false_iff in Heqb1 as [_ Hm]; apply Z.ltb_ge in Hm.
  - apply Ascii.eqb_eq in Heqb0. subst. now destruct b.
  - pose proof (take_digits_digits (a1 :: l3)) as T. cbn [take_digits] in T. rewrite Ha in T. cbn [fst] in T.
    apply dec_value_nonneg in T. cbn [json_wf]. apply Z.leb_le. destruct b; lia.
Qed.

Lemma parse_wf fuel :
  (forall s v r, parse_value fuel s = Ok (v, r) -> json_wf v = true) /\
  (forall acc s v r, forallb json_wf acc = true -> parse_elems fuel acc s = Ok (v, r) -> json_wf v = true) /\
  (forall ps s v r, json_wf (JObj ps) = true -> parse_members fuel ps s = Ok (v, r) -> json_wf v = true).
Proof.
  induction fuel as [|f [IHv [IHe IHm]]]; [repeat split; discriminate|].
  repeat split.
  - intros s v r H. cbn [parse_value] in H. split_ok; subst; try reflexivity.
    all: try (match goal with E : parse_members _ _ _ = Ok _ |- _ => now apply IHm in E end).
    all: try (match goal with E : parse_elems _ _ _ = Ok _ |- _ => now apply IHe in E end).
    all: try (apply literal_value in H; now subst).
    all: try (eapply pnumber_wf; eassumption).
  - intros acc s v r Hacc H. cbn [parse_elems] in H. split_ok; subst.
    + apply IHe in H; [exact H|]. apply IHv in Ha. rewrite forallb_app, Hacc; cbn [forallb]; now rewrite Ha.
    + cbn [json_wf]. apply IHv in Ha. rewrite forallb_app, Hacc; cbn [forallb]; now rewrite Ha.
  - intros ps s v r Hps H. cbn [parse_members] in H. split_ok; subst;
      apply IHv in Ha0; cbn [json_wf] in *; apply andb_true_iff in Hps as [Hd Hf];
      [apply IHm in H; [exact H|] |];
      cbn [json_wf]; now rewrite assoc_set_distinct, assoc_set_forall.
Qed.

(** Every value [JSON.parse] returns is well formed: its
    numbers are integers of magnitude at most 2^53 and the keys of each
    of its objects are pairwise distinct, at every depth.  These are the
    values on which the round trip of JsonRoundtrip.v holds. *)
Theorem json_parse_wf text v : json_parse text = Ok v -> json_wf v = true.
Proof.
  unfold json_parse. intros H. split_ok; subst.
  destruct (parse_wf (S (2 * List.length (list_ascii_of_string text)))) as [Hv _].
  eapply Hv. eassumption.
Qed.

(** [{"a":[1,true],"a":-7}]: the repeated key keeps one property. *)
Definition wf_sample_text : string :=
  "{" ++ String c_quote ("a" ++ String c_quote (":[1,true]," ++ String c_quote ("a" ++ String c_quote ":-7}"))).

Lemma json_parse_wf_witness :
  json_parse wf_sample_text = Ok (JObj [("a", JNum (-7))]) /\ json_wf (JObj [("a", JNum (-7))]) = true.
Proof.
  split; [vm_compute; reflexivity|].
  apply (json_parse_wf wf_sample_text). vm_compute. reflexivity.
Defined.
