(* ===== verification/JsonRoundtrip.v ===== *)
(** * The JSON round trip

    [JSON.parse] reads back what [JSON.stringify(v, null, 4)] writes,
    as the normal form [json_norm v] ([json_roundtrip]).  The proof goes
    by induction on the value ([jsval_ind']), with one lemma per kind of
    text: numerals ([pnumber_string_of_Z]), quoted strings
    ([pstring_quote]), array elements ([parse_elems_items]) and object
    members ([parse_members_items]), the fuel bound of [JsonParse.v]
    carried along. *)

From Stdlib Require Import List String Ascii ZArith NArith Bool Lia Permutation DecimalString DecimalPos.
From S2P Require Import Prelude JsValue Json.
Import ListNotations.
Open Scope string_scope.
Open Scope list_scope.
Open Scope faauv_scope.

(** ** Decimal numerals *)

Definition digit_step (acc : Z) (c : ascii) : Z := (10 * acc + (Z.of_N (N_of_ascii c) - 48))%Z.

Lemma dec_value_app ds ds' :
  dec_value (ds ++ ds') = fold_left digit_step ds' (dec_value ds).
Proof. unfold dec_value. now rewrite fold_left_app. Qed.

Lemma of_uint_acc_digits u p :
  Z.pos (Pos.of_uint_acc u p) = fold_left digit_step (bytes (NilEmpty.string_of_uint u)) (Z.pos p).
Proof.
  revert p; induction u as [|u IH|u IH|u IH|u IH|u IH|u IH|u IH|u IH|u IH|u IH]; intros p;
    cbn [Pos.of_uint_acc NilEmpty.string_of_uint bytes list_ascii_of_string fold_left]; [reflexivity|..];
    rewrite IH; f_equal; unfold digit_step; rewrite ?Pos2Z.inj_add, Pos2Z.inj_mul; simpl (N_of_ascii _); lia.
Qed.

Lemma nzhead_not_D0 d u : Decimal.nzhead d <> Decimal.D0 u.
Proof. induction d; simpl; congruence. Qed.

(** The numeral of a positive number has no leading zero. *)
Lemma pos_to_uint_not_D0 p u : Pos.to_uint p <> Decimal.D0 u.
Proof.
  intros H.
  assert (Hn := DecimalPos.Unsigned.to_of (Pos.to_uint p)).
  rewrite DecimalPos.Unsigned.of_to in Hn. simpl in Hn. rewrite H in Hn.
  unfold Decimal.unorm in Hn. simpl in Hn.
  destruct (Decimal.nzhead u) eqn:E; try discriminate.
  - injection Hn as Hu; subst u. exact (DecimalPos.Unsigned.to_uint_nonzero p H).
  - exact (nzhead_not_D0 u _ E).
Qed.

Lemma pos_digits_value p :
  dec_value (bytes (NilEmpty.string_of_uint (Pos.to_uint p))) = Z.pos p.
Proof.
  assert (H := DecimalPos.Unsigned.of_to p).
  assert (H0 := pos_to_uint_not_D0 p).
  assert (Hnil := DecimalPos.Unsigned.to_uint_nonnil p).
  destruct (Pos.to_uint p) as [|u|u|u|u|u|u|u|u|u|u]; try congruence;
    try (exfalso; exact (H0 _ eq_refl));
    cbn in H; injection H as <-; unfold dec_value;
    cbn [NilEmpty.string_of_uint bytes list_ascii_of_string fold_left];
    rewrite of_uint_acc_digits; reflexivity.
Qed.

(** ** Strings read back *)

(** Each code unit QuoteJSONString writes is read back as itself, by
    evaluation on the 256 bytes. *)
Lemma pstring_quote_char c s :
  pstring (quote_char c ++ s) = '(t, r) <- pstring s ;; Ok (c :: t, r).
Proof. destruct c as [[] [] [] [] [] [] [] []]; reflexivity. Qed.

Lemma pstring_quote l rest :
  pstring (flat_map quote_char l ++ c_quote :: rest) = Ok (l, rest).
Proof.
  induction l as [|c l IH]; [reflexivity|].
  cbn [flat_map]. rewrite <- app_assoc, pstring_quote_char, IH. reflexivity.
Qed.

(** ** Numbers read back *)

(** What may follow a number without extending it. *)
Definition delimited (rest : list ascii) : bool :=
  match rest with
  | [] => true
  | c :: _ => negb (is_dec_digit c) && negb (Ascii.eqb c ".") && negb (Ascii.eqb c "e")
             && negb (Ascii.eqb c "E")
  end.

Lemma uint_digits u : forallb is_dec_digit (bytes (NilEmpty.string_of_uint u)) = true.
Proof. induction u; simpl; auto. Qed.

Lemma take_digits_app ds rest :
  forallb is_dec_digit ds = true -> delimited rest = true -> take_digits (ds ++ rest) = (ds, rest).
Proof.
  intros Hds Hr. induction ds as [|c ds IH]; simpl in *.
  - destruct rest as [|c rest]; [reflexivity|]. simpl in Hr. cbn [take_digits].
    destruct (is_dec_digit c); [discriminate|reflexivity].
  - apply andb_prop in Hds as [Hc Hds]. rewrite Hc, IH by exact Hds. reflexivity.
Qed.

Lemma frac_exp_delimited rest : delimited rest = true -> frac_exp rest = Ok (false, rest).
Proof.
  destruct rest as [|c rest]; [reflexivity|]. simpl. intros H.
  repeat (apply andb_prop in H as [H ?]). apply negb_true_iff in H, H0, H1, H2.
  unfold frac_exp. cbn -[Ascii.eqb]. rewrite ?H, ?H0, ?H1, ?H2. cbn -[Ascii.eqb].
  rewrite ?H, ?H0, ?H1, ?H2. reflexivity.
Qed.

Lemma pos_digits_head p :
  exists c cs, bytes (NilEmpty.string_of_uint (Pos.to_uint p)) = c :: cs /\
    Ascii.eqb c "-" = false /\ Ascii.eqb c "0" = false /\ is_dec_digit c = true /\
    forallb is_dec_digit cs = true.
Proof.
  assert (H0 := pos_to_uint_not_D0 p). assert (Hnil := DecimalPos.Unsigned.to_uint_nonnil p).
  destruct (Pos.to_uint p) as [|u|u|u|u|u|u|u|u|u|u]; try congruence;
    try (exfalso; exact (H0 _ eq_refl));
    do 2 eexists; (split; [reflexivity|]); repeat split; apply uint_digits.
Qed.

(** [ToString] of an integer of magnitude at most [2^53] is read back
    as that integer. *)
Lemma pnumber_string_of_Z_range n rest :
  delimited rest = true ->
  pnumber (bytes (string_of_Z n) ++ rest) =
  if (Z.abs n <=? max_exact)%Z then Ok (JNum n, rest) else Err PUnrepresentable.
Proof.
  intros Hr. unfold pnumber, string_of_Z.
  destruct n as [|p|p]; cbn [Z.to_int NilEmpty.string_of_int].
  - cbn. rewrite frac_exp_delimited by exact Hr. reflexivity.
  - destruct (pos_digits_head p) as (c & cs & Hcs & Hm & H0 & Hd & Hds). rewrite Hcs.
    cbn [app]. cbn -[Ascii.eqb is_dec_digit take_digits]. rewrite Hm, H0, Hd.
    change (c :: cs ++ rest) with ((c :: cs) ++ rest).
    rewrite take_digits_app by (cbn [forallb]; rewrite ?Hd, ?Hds; auto). cbn -[frac_exp dec_value].
    rewrite frac_exp_delimited by exact Hr.
    assert (Hv := pos_digits_value p). rewrite Hcs in Hv. rewrite Hv.
    cbn -[Z.ltb Z.leb]. rewrite Z.ltb_antisym. now destruct (Z.pos p <=? max_exact)%Z.
  - destruct (pos_digits_head p) as (c & cs & Hcs & Hm & H0 & Hd & Hds).
    change (bytes (String "-" ?x) ++ rest) with ("-"%char :: (bytes x ++ rest)). rewrite Hcs. cbn [app].
    cbn -[Ascii.eqb is_dec_digit take_digits]. rewrite Ascii.eqb_refl.
    cbn -[Ascii.eqb is_dec_digit take_digits]. rewrite H0, Hd.
    change (c :: cs ++ rest) with ((c :: cs) ++ rest).
    rewrite take_digits_app by (cbn [forallb]; rewrite ?Hd, ?Hds; auto). cbn -[frac_exp dec_value].
    rewrite frac_exp_delimited by exact Hr.
    assert (Hv := pos_digits_value p). rewrite Hcs in Hv. rewrite Hv.
    cbn -[Z.ltb Z.leb]. rewrite Z.ltb_antisym. now destruct (Z.pos p <=? max_exact)%Z.
Qed.

Lemma pnumber_string_of_Z n rest :
  (Z.abs n <= max_exact)%Z -> delimited rest = true ->
  pnumber (bytes (string_of_Z n) ++ rest) = Ok (JNum n, rest).
Proof.
  intros Hn Hr. rewrite pnumber_string_of_Z_range by exact Hr.
  apply Z.leb_le in Hn. now rewrite Hn.
Qed.

(** ** Round trip: what the printer writes, the parser reads back *)

Lemma skip_ws_app w s : forallb is_ws w = true -> skip_ws (w ++ s) = skip_ws s.
Proof.
  induction w as [|c w IH]; simpl; [easy|]. intros H. apply andb_prop in H as [Hc H].
  rewrite Hc. now apply IH.
Qed.

Lemma indent_ws d : forallb is_ws (indent d) = true.
Proof. unfold indent. induction d as [|d IH]; [reflexivity|]. simpl. exact IH. Qed.

Lemma indent_length d : List.length (indent d) = 4 * d.
Proof. unfold indent. induction d as [|d IH]; [reflexivity|]. simpl. lia. Qed.

Lemma parse_value_ws f w s :
  forallb is_ws w = true -> parse_value (S f) (w ++ s) = parse_value (S f) s.
Proof. intros H. cbn [parse_value]. now rewrite skip_ws_app. Qed.

Lemma parse_value_number f c s :
  (is_dec_digit c || Ascii.eqb c "-") = true -> parse_value (S f) (c :: s) = pnumber (c :: s).
Proof. destruct c as [[] [] [] [] [] [] [] []]; try discriminate; reflexivity. Qed.

Lemma parse_value_string f s :
  parse_value (S f) (c_quote :: s) = '(t, s2) <- pstring s ;; Ok (JStr (string_of_list_ascii t), s2).
Proof. reflexivity. Qed.

Lemma parse_value_literal f (lit : string) v s :
  (lit = "true" /\ v = JBool true) \/ (lit = "false" /\ v = JBool false) \/ (lit = "null" /\ v = JNull) ->
  parse_value (S f) (bytes lit ++ s) = Ok (v, s).
Proof. intros [[-> ->]|[[-> ->]|[-> ->]]]; reflexivity. Qed.

(** The first character of a printed value is neither white space nor a
    closing bracket, and a printed value is never empty. *)
Definition starts_value (t : list ascii) : bool :=
  match t with
  | c :: _ => negb (is_ws c) && negb (Ascii.eqb c "]") && negb (Ascii.eqb c "}")
  | [] => false
  end.

Lemma string_of_Z_starts n : starts_value (bytes (string_of_Z n)) = true.
Proof.
  unfold string_of_Z. destruct n as [|p|p]; [reflexivity| |reflexivity].
  destruct (pos_digits_head p) as (c & cs & Hcs & _ & _ & Hd & _). cbn [Z.to_int NilEmpty.string_of_int].
  rewrite Hcs. simpl. destruct c as [[] [] [] [] [] [] [] []]; try discriminate; reflexivity.
Qed.

Lemma ser_starts d v t : ser d v = Some t -> starts_value t = true.
Proof.
  destruct v as [| |[]|n|s|es ps|ps]; simpl; intros H; try discriminate; injection H as <-;
    try reflexivity.
  - apply string_of_Z_starts.
  - destruct (map _ es); reflexivity.
  - destruct (map _ _); reflexivity.
Qed.

Lemma skip_ws_nonws c s : is_ws c = false -> skip_ws (c :: s) = c :: s.
Proof. simpl. now intros ->. Qed.

Definition item_text (d : nat) (e : jsval) : list ascii :=
  match ser (S d) e with Some t => t | None => bytes "null" end.

Definition elem_norm (e : jsval) : jsval :=
  match e with JUndefined => JNull | _ => json_norm e end.

Definition elem_sep (d : nat) : list ascii := ","%char :: c_nl :: indent (S d).

(** An element printed at depth [d] is read back as its normal form. *)
Definition reads_back (d : nat) (e : jsval) : Prop :=
  forall rest fuel, delimited rest = true -> 2 * List.length (item_text d e ++ rest) < fuel ->
  parse_value fuel (item_text d e ++ rest) = Ok (elem_norm e, rest).

Lemma item_text_starts d e : starts_value (item_text d e) = true.
Proof.
  unfold item_text. destruct (ser (S d) e) eqn:E; [|reflexivity]. exact (ser_starts _ _ _ E).
Qed.

Lemma starts_value_length t : starts_value t = true -> 1 <= List.length t.
Proof. destruct t; simpl; [discriminate | lia]. Qed.

Ltac len_lia :=
  repeat match goal with
  | H : context [List.length (_ ++ _)] |- _ => rewrite length_app in H
  | H : context [List.length (_ :: _)] |- _ => rewrite length_cons in H
  | |- context [List.length (_ ++ _)] => rewrite length_app
  | |- context [List.length (_ :: _)] => rewrite length_cons
  end; lia.

Lemma join_cons2 sep x xs : xs <> [] -> join sep (x :: xs) = x ++ sep ++ join sep xs.
Proof. destruct xs; [easy|reflexivity]. Qed.

Lemma skip_ws_nl s : skip_ws (c_nl :: s) = skip_ws s.
Proof. reflexivity. Qed.

Lemma parse_elems_items d es :
  Forall (reads_back d) es ->
  forall acc ws rest fuel, es <> [] -> forallb is_ws ws = true ->
  2 * List.length (ws ++ join (elem_sep d) (map (item_text d) es) ++ c_nl :: indent d ++ "]"%char :: rest) + 1 < fuel ->
  parse_elems fuel acc (ws ++ join (elem_sep d) (map (item_text d) es) ++ c_nl :: indent d ++ "]"%char :: rest)
  = Ok (JArr (acc ++ map elem_norm es) [], rest).
Proof.
  induction 1 as [|e es He Hes IH]; intros acc ws rest fuel Hne Hws Hf; [easy|].
  pose proof (starts_value_length _ (item_text_starts d e)) as Hl.
  destruct fuel as [|f]; [lia|]. cbn [parse_elems]. destruct f as [|f]; [lia|].
  destruct es as [|e' es'].
  - cbn [map join] in *. rewrite parse_value_ws by exact Hws.
    rewrite He; [|reflexivity|len_lia].
    cbn [bind]. rewrite skip_ws_nl, skip_ws_app by exact (indent_ws d).
    rewrite skip_ws_nonws by reflexivity. reflexivity.
  - cbn [map] in *. rewrite join_cons2 in * by discriminate.
    change (item_text d e' :: map (item_text d) es') with (map (item_text d) (e' :: es')) in *.
    rewrite parse_value_ws by exact Hws. rewrite <- !app_assoc.
    unfold elem_sep at 1. cbn [app].
    rewrite He; [|reflexivity|unfold elem_sep in *; len_lia].
    cbn [bind]. rewrite skip_ws_nonws by reflexivity. cbv [Ascii.eqb Bool.eqb andb].
    change (c_nl :: indent (S d) ++ ?r) with ((c_nl :: indent (S d)) ++ r).
    rewrite (IH (acc ++ [elem_norm e]) (c_nl :: indent (S d))); [| easy | exact (indent_ws (S d)) | ].
    + now rewrite <- app_assoc.
    + unfold elem_sep in *; len_lia.
Qed.

Definition member_of (d : nat) (kv : string * jsval) : list ascii :=
  member_text (fst kv) (item_text d (snd kv)).

(** A property printed at depth [d] is read back with its normal form. *)
Definition member_reads_back (d : nat) (kv : string * jsval) : Prop :=
  snd kv <> JUndefined /\ reads_back d (snd kv).

Definition set_members (ps : list (string * jsval)) (kvs : list (string * jsval)) : list (string * jsval) :=
  fold_left (fun acc kv => assoc_set (fst kv) (json_norm (snd kv)) acc) kvs ps.

Lemma member_of_app d kv x :
  member_of d kv ++ x =
  c_quote :: (flat_map quote_char (bytes (fst kv)) ++ c_quote :: ":"%char :: " "%char :: (item_text d (snd kv) ++ x)).
Proof. unfold member_of, member_text, quote. cbn [app]. rewrite <- !app_assoc. reflexivity. Qed.

Lemma parse_members_items d kvs :
  Forall (member_reads_back d) kvs ->
  forall ps ws rest fuel, kvs <> [] -> forallb is_ws ws = true ->
  2 * List.length (ws ++ join (elem_sep d) (map (member_of d) kvs) ++ c_nl :: indent d ++ "}"%char :: rest) + 1 < fuel ->
  parse_members fuel ps (ws ++ join (elem_sep d) (map (member_of d) kvs) ++ c_nl :: indent d ++ "}"%char :: rest)
  = Ok (JObj (set_members ps kvs), rest).
Proof.
  induction 1 as [|kv kvs [Hdef He] Hkvs IH]; intros ps ws rest fuel Hne Hws Hf; [easy|].
  pose proof (starts_value_length _ (item_text_starts d (snd kv))) as Hl.
  destruct fuel as [|f]; [lia|]. cbn [parse_members]. destruct f as [|f]; [lia|].
  destruct kvs as [|kv' kvs'].
  - cbn [map join] in *. rewrite skip_ws_app by exact Hws. rewrite member_of_app in *.
    rewrite skip_ws_nonws by reflexivity. change (code_is 34 c_quote) with true. cbv beta iota.
    rewrite pstring_quote. cbn [bind]. rewrite skip_ws_nonws by reflexivity.
    cbv [Ascii.eqb Bool.eqb andb]. cbv beta iota.
    change (" "%char :: ?r) with ([" "%char] ++ r). rewrite parse_value_ws by reflexivity.
    rewrite He; [|reflexivity|len_lia].
    cbn [bind]. rewrite skip_ws_nl, skip_ws_app by exact (indent_ws d).
    rewrite skip_ws_nonws by reflexivity. cbv [Ascii.eqb Bool.eqb andb]. cbv beta iota.
    unfold set_members. simpl. rewrite string_of_list_ascii_of_string.
    destruct (snd kv); [easy|reflexivity..].
  - cbn [map] in *. rewrite join_cons2 in * by discriminate.
    change (member_of d kv' :: map (member_of d) kvs') with (map (member_of d) (kv' :: kvs')) in *.
    rewrite skip_ws_app by exact Hws. rewrite <- app_assoc, member_of_app.
    rewrite skip_ws_nonws by reflexivity. change (code_is 34 c_quote) with true. cbv beta iota.
    rewrite <- !app_assoc. cbn [app].
    rewrite pstring_quote. cbn [bind]. rewrite skip_ws_nonws by reflexivity.
    cbv [Ascii.eqb Bool.eqb andb]. cbv beta iota.
    change (" "%char :: ?r) with ([" "%char] ++ r). rewrite parse_value_ws by reflexivity.
    unfold elem_sep at 1. cbn [app].
    rewrite He; [|reflexivity|rewrite member_of_app in Hf; unfold elem_sep in *; len_lia].
    cbn [bind]. rewrite skip_ws_nonws by reflexivity. cbv [Ascii.eqb Bool.eqb andb]. cbv beta iota.
    change (c_nl :: indent (S d) ++ ?r) with ((c_nl :: indent (S d)) ++ r).
    rewrite string_of_list_ascii_of_string.
    rewrite IH; [| easy | exact (indent_ws (S d)) | rewrite member_of_app in Hf; unfold elem_sep in *; len_lia].
    unfold set_members. simpl. destruct (snd kv); [easy|reflexivity..].
Qed.

(** *** Key order *)

Definition map_snd {A B} (f : A -> B) (kv : string * A) : string * B := (fst kv, f (snd kv)).

Lemma insert_by_index_map {A B} (f : A -> B) kv ps :
  insert_by_index (map_snd f kv) (map (map_snd f) ps) = map (map_snd f) (insert_by_index kv ps).
Proof.
  induction ps as [|kv' ps IH]; [reflexivity|]. simpl.
  unfold index_or_zero, key_index. simpl. destruct (_ <=? _)%N; simpl; [reflexivity|]. now rewrite IH.
Qed.

Lemma is_index_key_map {A B} (f : A -> B) kv : is_index_key (map_snd f kv) = is_index_key kv.
Proof. reflexivity. Qed.

Lemma json_order_map {A B} (f : A -> B) ps :
  json_order (map (map_snd f) ps) = map (map_snd f) (json_order ps).
Proof.
  unfold json_order, sort_by_index. rewrite map_app. f_equal.
  - induction ps as [|kv ps IH]; [reflexivity|]. simpl. rewrite is_index_key_map.
    destruct (is_index_key kv); simpl; [|exact IH].
    rewrite IH. apply insert_by_index_map.
  - induction ps as [|kv ps IH]; [reflexivity|]. simpl. rewrite is_index_key_map.
    destruct (is_index_key kv); simpl; [exact IH|]. now rewrite IH.
Qed.

Lemma insert_by_index_perm {A} (kv : string * A) ps : Permutation (insert_by_index kv ps) (kv :: ps).
Proof.
  induction ps as [|kv' ps IH]; simpl; [reflexivity|].
  destruct (_ <=? _)%N; [reflexivity|].
  rewrite IH. apply perm_swap.
Qed.

Lemma filter_partition_perm {A} (f : A -> bool) l : Permutation (filter f l ++ filter (fun x => negb (f x)) l) l.
Proof.
  induction l as [|x l IH]; [reflexivity|]. simpl. destruct (f x); simpl.
  - now apply perm_skip.
  - rewrite <- Permutation_middle. now apply perm_skip.
Qed.

Lemma json_order_perm {A} (ps : list (string * A)) : Permutation (json_order ps) ps.
Proof.
  unfold json_order. rewrite <- (filter_partition_perm is_index_key ps) at 3.
  apply Permutation_app_tail. unfold sort_by_index.
  induction (filter is_index_key ps) as [|kv l IH]; simpl; [reflexivity|].
  rewrite insert_by_index_perm. now apply perm_skip.
Qed.

Lemma keys_distinct_NoDup {A} (ps : list (string * A)) : keys_distinct ps = true <-> NoDup (map fst ps).
Proof.
  induction ps as [|[k v] ps IH]; simpl; [split; constructor|].
  rewrite andb_true_iff, negb_true_iff, IH. split.
  - intros [Hn Hd]. constructor; [|exact Hd]. intros Hin.
    assert (existsb (String.eqb k) (map fst ps) = true) by (apply existsb_exists; exists k; split; auto using String.eqb_refl).
    congruence.
  - intros Hnd. inversion Hnd as [|? ? Hnin Hd]; subst. split; [|exact Hd].
    apply not_true_iff_false. intros Hex. apply existsb_exists in Hex as [k' [Hin Heq]].
    apply String.eqb_eq in Heq. subst. contradiction.
Qed.

(** *** Objects: distinct keys are created in order *)

Lemma assoc_set_new k v ps : ~ In k (map fst ps) -> assoc_set k v ps = ps ++ [(k, v)].
Proof.
  induction ps as [|[k' v'] ps IH]; simpl; [reflexivity|]. intros Hn.
  destruct (String.eqb k k') eqn:E.
  - apply String.eqb_eq in E. subst. tauto.
  - rewrite IH by tauto. reflexivity.
Qed.

Lemma set_members_distinct kvs : forall acc,
  NoDup (map fst kvs) -> (forall k, In k (map fst kvs) -> ~ In k (map fst acc)) ->
  set_members acc kvs = acc ++ map (map_snd json_norm) kvs.
Proof.
  induction kvs as [|[k v] kvs IH]; intros acc Hnd Hdis; simpl; [now rewrite app_nil_r|].
  inversion Hnd as [|? ? Hnin Hnd']; subst. unfold set_members in *. simpl.
  rewrite assoc_set_new by (apply Hdis; now left).
  rewrite IH; [now rewrite <- app_assoc| exact Hnd'|].
  intros k' Hk'. rewrite map_app. simpl. intros Hin. apply in_app_or in Hin as [Hin|[<-|[]]].
  - apply (Hdis k'); [now right | exact Hin].
  - contradiction.
Qed.

Definition defined_prop (kv : string * jsval) : bool :=
  match snd kv with JUndefined => false | _ => true end.

Lemma ser_none d v : ser d v = None -> v = JUndefined.
Proof. destruct v as [| |[]| | | |]; simpl; congruence. Qed.

Lemma ser_texts d ps :
  flat_map (fun kv => match ser (S d) (snd kv) with Some t => [(fst kv, t)] | None => [] end) ps =
  map (map_snd (item_text d)) (filter defined_prop ps).
Proof.
  induction ps as [|kv ps IH]; [reflexivity|]. simpl. rewrite IH. unfold defined_prop, map_snd, item_text.
  destruct (ser (S d) (snd kv)) eqn:E.
  - destruct (snd kv) eqn:Ev; [discriminate|..]; simpl; rewrite ?Ev, ?E; reflexivity.
  - apply ser_none in E. now rewrite E.
Qed.

Lemma norm_props ps :
  flat_map (fun kv => match snd kv with JUndefined => [] | _ => [(fst kv, json_norm (snd kv))] end) ps =
  map (map_snd json_norm) (filter defined_prop ps).
Proof.
  induction ps as [|kv ps IH]; [reflexivity|]. simpl. rewrite IH. unfold defined_prop, map_snd.
  destruct (snd kv) eqn:Ev; simpl; rewrite ?Ev; reflexivity.
Qed.

(** *** Brackets *)

Lemma starts_skip s : starts_value s = true -> skip_ws s = s.
Proof.
  destruct s as [|c s]; simpl; [discriminate|]. intros H.
  apply andb_prop in H as [H _]. apply andb_prop in H as [H _]. apply negb_true_iff in H. now rewrite H.
Qed.

Lemma starts_value_app t y : starts_value t = true -> starts_value (t ++ y) = true.
Proof. now destruct t. Qed.

Lemma join_starts sep xs y :
  Forall (fun x => starts_value x = true) xs -> xs <> [] -> starts_value (join sep xs ++ y) = true.
Proof.
  intros Hx Hne. destruct xs as [|x [|x' xs]]; [easy| |]; inversion Hx; subst; simpl.
  - now apply starts_value_app.
  - rewrite <- app_assoc. now apply starts_value_app.
Qed.

Lemma starts_not_close c s :
  starts_value (c :: s) = true -> Ascii.eqb c "]" = false /\ Ascii.eqb c "}" = false.
Proof.
  simpl. intros H. apply andb_prop in H as [H H2]. apply andb_prop in H as [_ H1].
  now apply negb_true_iff in H1, H2.
Qed.

Lemma parse_value_arr_open f W :
  starts_value (skip_ws W) = true -> parse_value (S f) ("["%char :: W) = parse_elems f [] W.
Proof.
  intros H. cbn [parse_value]. rewrite skip_ws_nonws by reflexivity.
  change (Ascii.eqb "["%char "{"%char) with false. change (Ascii.eqb "["%char "["%char) with true.
  cbv beta iota. destruct (skip_ws W) as [|c s]; [discriminate|].
  apply starts_not_close in H as [H _]. now rewrite H.
Qed.

Lemma parse_value_obj_open f W :
  starts_value (skip_ws W) = true -> parse_value (S f) ("{"%char :: W) = parse_members f [] W.
Proof.
  intros H. cbn [parse_value]. rewrite skip_ws_nonws by reflexivity.
  change (Ascii.eqb "{"%char "{"%char) with true. cbv beta iota.
  destruct (skip_ws W) as [|c s]; [discriminate|].
  apply starts_not_close in H as [_ H]. now rewrite H.
Qed.

Lemma string_of_Z_head n :
  exists c cs, bytes (string_of_Z n) = c :: cs /\ (is_dec_digit c || Ascii.eqb c "-") = true.
Proof.
  unfold string_of_Z. destruct n as [|p|p]; cbn [Z.to_int NilEmpty.string_of_int].
  - now exists "0"%char, [].
  - destruct (pos_digits_head p) as (c & cs & Hcs & _ & _ & Hd & _).
    exists c, cs. rewrite Hcs, Hd. auto.
  - now exists "-"%char, (bytes (NilEmpty.string_of_uint (Pos.to_uint p))).
Qed.

(** The statement of the round trip at one value. *)
Definition prints_back (v : jsval) : Prop :=
  forall d t, ser d v = Some t -> forall rest fuel, delimited rest = true ->
  2 * List.length (t ++ rest) < fuel -> parse_value fuel (t ++ rest) = Ok (json_norm v, rest).

Lemma ser_arr d es ps : ser d (JArr es ps) = Some (bracket "["%char "]"%char d (map (item_text d) es)).
Proof. reflexivity. Qed.

Lemma ser_obj d ps :
  ser d (JObj ps) = Some (bracket "{"%char "}"%char d (map (member_of d) (json_order (filter defined_prop ps)))).
Proof. cbn [ser]. rewrite ser_texts, json_order_map, map_map. reflexivity. Qed.

Lemma norm_obj ps : json_norm (JObj ps) = JObj (map (map_snd json_norm) (json_order (filter defined_prop ps))).
Proof. cbn [json_norm]. now rewrite norm_props, json_order_map. Qed.

Lemma reads_back_of d e : json_wf e = true -> (json_wf e = true -> prints_back e) -> reads_back d e.
Proof.
  intros Hwf IH rest fuel Hr Hf. unfold item_text in *.
  destruct (ser (S d) e) as [t|] eqn:E.
  - rewrite (IH Hwf _ _ E rest fuel Hr Hf). destruct e; [discriminate|reflexivity..].
  - apply ser_none in E. subst. destruct fuel as [|f]; [lia|]. apply parse_value_literal. auto.
Qed.

Lemma ser_prints_back v : json_wf v = true -> prints_back v.
Proof.
  induction v as [| |b|n|s|es ps IH|ps IH] using jsval_ind'; intros Hwf d t Ht rest fuel Hr Hf;
    (destruct fuel as [|f]; [lia|]).
  - simpl in Ht. discriminate Ht.
  - cbn [ser] in Ht. injection Ht as <-. apply (parse_value_literal f "null"). auto.
  - cbn [ser] in Ht. destruct b; injection Ht as <-; [apply (parse_value_literal f "true") | apply (parse_value_literal f "false")]; auto.
  - cbn [ser] in Ht. injection Ht as <-. simpl in Hwf. apply Z.leb_le in Hwf.
    destruct (string_of_Z_head n) as (c & cs & Hcs & Hc). rewrite Hcs. cbn [app].
    rewrite parse_value_number by exact Hc. change (c :: cs ++ rest) with ((c :: cs) ++ rest).
    rewrite <- Hcs. now apply pnumber_string_of_Z.
  - cbn [ser] in Ht. injection Ht as <-. unfold quote. cbn [app]. rewrite <- app_assoc. cbn [app].
    rewrite parse_value_string. fold (bytes s). rewrite pstring_quote. cbn [bind].
    now rewrite string_of_list_ascii_of_string.
  - rewrite ser_arr in Ht. injection Ht as <-. simpl in Hwf.
    assert (Hrb : Forall (reads_back d) es).
    { rewrite Forall_forall in IH |- *. rewrite forallb_forall in Hwf. intros e He.
      apply reads_back_of; [now apply Hwf | intros; now apply IH]. }
    change (json_norm (JArr es ps)) with (JArr (map elem_norm es) []).
    destruct es as [|e es']; [reflexivity|].
    unfold bracket in *. cbn [map] in *. change (item_text d e :: map (item_text d) es') with (map (item_text d) (e :: es')) in *.
    cbn [app]. rewrite <- !app_assoc. cbn [app]. rewrite <- !app_assoc. cbn [app].
    change (","%char :: c_nl :: indent (S d)) with (elem_sep d).
    rewrite parse_value_arr_open.
    2:{ rewrite skip_ws_nl, skip_ws_app by apply indent_ws. rewrite starts_skip; apply join_starts;
        try (simpl; discriminate);
        apply (proj2 (Forall_map _ _ _)), Forall_forall; intros; apply item_text_starts. }
    change (c_nl :: indent (S d) ++ ?r) with ((c_nl :: indent (S d)) ++ r).
    rewrite parse_elems_items; [reflexivity | exact Hrb | easy | apply indent_ws | unfold elem_sep; len_lia].
  - rewrite ser_obj in Ht. injection Ht as <-. rewrite norm_obj.
    simpl in Hwf. apply andb_prop in Hwf as [Hkd Hwf]. apply keys_distinct_NoDup in Hkd.
    set (L := json_order (filter defined_prop ps)) in *.
    assert (HinL : forall kv, In kv L -> In kv ps /\ defined_prop kv = true).
    { intros kv Hin. apply (Permutation_in _ (json_order_perm _)), filter_In in Hin. exact Hin. }
    assert (Hnd : NoDup (map fst L)).
    { apply (Permutation_NoDup (Permutation_map fst (Permutation_sym (json_order_perm _)))).
      now apply NoDup_map_filter. }
    assert (Hrb : Forall (member_reads_back d) L).
    { apply Forall_forall. intros kv Hin. apply HinL in Hin as [Hin Hdef].
      rewrite Forall_forall in IH. rewrite forallb_forall in Hwf. split.
      - unfold defined_prop in Hdef. now destruct (snd kv).
      - apply reads_back_of; [now apply Hwf | intros; now apply IH]. }
    clearbody L. destruct L as [|kv L']; [reflexivity|].
    unfold bracket in *. cbn [map] in *. change (member_of d kv :: map (member_of d) L') with (map (member_of d) (kv :: L')) in *.
    cbn [app]. rewrite <- !app_assoc. cbn [app]. rewrite <- !app_assoc. cbn [app].
    change (","%char :: c_nl :: indent (S d)) with (elem_sep d).
    rewrite parse_value_obj_open.
    2:{ rewrite skip_ws_nl, skip_ws_app by apply indent_ws. rewrite starts_skip; apply join_starts;
        try (simpl; discriminate);
        apply (proj2 (Forall_map _ _ _)), Forall_forall; intros; reflexivity. }
    change (c_nl :: indent (S d) ++ ?r) with ((c_nl :: indent (S d)) ++ r).
    rewrite parse_members_items; [| exact Hrb | easy | apply indent_ws | unfold elem_sep; len_lia].
    rewrite set_members_distinct; [reflexivity | exact Hnd | easy].
Qed.

(** The text [JSON.stringify] writes, read back by [JSON.parse]. *)
Lemma json_stringify_parse v text :
  json_wf v = true -> json_stringify v = Some text -> json_parse text = Ok (json_norm v).
Proof.
  unfold json_stringify, json_parse. intros Hwf Hs.
  destruct (ser 0 v) as [t|] eqn:Ht; [|discriminate]. injection Hs as <-.
  rewrite list_ascii_of_string_of_list_ascii.
  rewrite <- (app_nil_r t), (ser_prints_back v Hwf 0 t Ht [] _ eq_refl) by (rewrite length_app; simpl; lia).
  reflexivity.
Qed.

(** C21: round trip.  For a value whose numbers are exact and whose
    object keys are distinct (what [JSON.parse] produces), the text
    [JSON.stringify(v, null, 4)] writes is read back by [JSON.parse] as
    [json_norm v]: [undefined] properties dropped, [undefined] elements
    as [null], named properties of arrays dropped, keys in enumeration
    order, everything else unchanged. *)
Theorem json_roundtrip v text :
  json_wf v = true -> json_stringify v = Some text -> json_parse text = Ok (json_norm v).
Proof. exact (json_stringify_parse v text).
Qed.

(** The manifest of the end-to-end scenario of spec section 8, with an
    [undefined] property and a hole that the printer drops. *)
Definition sample_manifest : jsval :=
  JObj [("addons", JObj [("ext@x", JObj [("updates",
    JArr [JObj [("version", JStr "1.0"); ("update_hash", JStr "sha256:00");
                ("update_link", JStr "https://h/1.0"); ("note", JUndefined)]] [("x", JNull)])])])].

Lemma json_roundtrip_witness :
  json_wf sample_manifest = true /\
  json_parse (string_of_list_ascii (match ser 0 sample_manifest with Some t => t | None => [] end)) =
  Ok (json_norm sample_manifest).
Proof.
  split; [reflexivity|].
  apply (json_roundtrip sample_manifest); reflexivity.
Defined.

(** Integer bounds of the number model: [JSON.parse] reads the
    decimal numeral of an integer [n] back as [n] exactly when
    [|n| <= 2^53], the range in which every integer is a double, and
    reports it as unrepresentable otherwise. This is the bound within
    which the model of numbers as integers is exact. *)
Theorem json_parse_integer n :
  json_parse (string_of_Z n) =
  if (Z.abs n <=? max_exact)%Z then Ok (JNum n) else Err PUnrepresentable.
Proof.
  unfold json_parse. fold (bytes (string_of_Z n)).
  destruct (string_of_Z_head n) as (c & cs & Hcs & Hc).
  rewrite Hcs, parse_value_number by exact Hc. rewrite <- Hcs.
  rewrite <- (app_nil_r (bytes (string_of_Z n))), pnumber_string_of_Z_range by reflexivity.
  now destruct (Z.abs n <=? max_exact)%Z.
Qed.
