(* ===== verification/Run.v ===== *)
(** * The whole run: command line, archive events, digests, write

    [src/updater.js] runs in three phases.  Lines 43-73 run
    synchronously: the usage check, the [statSync] of the archive, the
    resolution of [--update-in], [--update-out] and [--update], and the
    loading of the update manifest ([start]).  Then the event loop
    delivers the events of the [unzip] parser (Archive.v) and of every
    [Sha256FromFile] stream (Digest.v) in some interleaving; each
    [manifest.json] entry runs [HandleManifest] (lines 101-167: the
    [JSON.parse] of line 104, then [Merge.handle_parsed]), which starts
    one digest; when a digest resolves, the [.then] callback (lines
    139-156) pushes the new entry into the update manifest as it is at
    that moment and writes it with [JSON.stringify(update,null,4)];
    a rejected digest reaches the [.catch] of lines 157-160.

    The state is the record [world]: the global [update], the two
    scanner flags, the started digests with their continuations, the
    outputs in order (usage text, console lines, file writes) and the
    status ([Running], [Exited code] after [process.exit], or [Beyond]
    when [JSON.parse] met valid JSON outside the model, see Json.v).
    [step] is one event; [run] is [start] followed by a sequence of
    events, the interleaving being part of the input.  A run that ends
    [Running] exits with status 0.

    The file system is the record [fs_env]: the readable files and
    whether a write to a path succeeds.  Console lines keep the fixed
    text of the script; the messages of exceptions raised by [fs] and
    the [JSON.parse] message are not modelled.  The warning of line 120
    and the information line 131 are console output only and are not
    modelled. *)

From Stdlib Require Import List String ZArith Bool Lia.
From S2P Require Import Prelude JsValue JsString VersionCompare Merge Archive Digest Json JsonRoundtrip.
Import ListNotations.
Open Scope string_scope.
Open Scope faauv_scope.

(** ** Inputs *)

(** What [yargs] gives: [argv._] and the named options. *)
Record argv : Type := {
  positional : list jsval;
  options : list (string * jsval)
}.

Definition arg (a : argv) (name : string) : jsval := option_undef (assoc_get name (options a)).

Record fs_env : Type := {
  fs_files : list (string * string);   (** readable files and their UTF-8 text *)
  fs_write_ok : jsval -> bool          (** [writeFileSync] to this path succeeds *)
}.

Fixpoint file_text (files : list (string * string)) (p : string) : option string :=
  match files with
  | [] => None
  | (p', t) :: fs => if String.eqb p p' then Some t else file_text fs p
  end.

(** [fs.statSync(p)] succeeds on an existing path; a path that is not a
    string throws. *)
Definition stat (env : fs_env) (p : jsval) : bool :=
  match p with
  | JStr s => match file_text (fs_files env) s with Some _ => true | None => false end
  | _ => false
  end.

Definition read_file (env : fs_env) (p : jsval) : option string :=
  match p with JStr s => file_text (fs_files env) s | _ => None end.

(** The events of the event loop: the next event of the [unzip] parser,
    or the next event of the [i]-th digest stream started. *)
Inductive event : Type :=
| EZip (z : zip_event)
| EHash (i : nat) (s : stream_event).

(** ** State *)

Inductive status : Type :=
| Running
| Exited (code : Z)
| Beyond.

Inductive output : Type :=
| OUsage (text : string)               (** [Usage()], lines 19-41 *)
| OLog (l : log)
| OWrite (path : jsval) (text : string). (** [fs.writeFileSync], line 148 *)

Definition dq : string := String (Ascii.ascii_of_nat 34) EmptyString.

(** The text [Usage()] prints with [console.info] (lines 19-41): the
    template literal, its backslash-newline continuations removed. *)
Definition usage_text : string :=
  "Usage: faauv [options] <xpi file path>
Options:
  --update-in <update.json file path>: path to original update.json file
  --update-out <update.json file path>: path to update.json file to be created
  --update <update.json file path>: shortcut to specify both --update-in and --update-out
  --update-link <url where to download xpi>: update link to download new add-on version

Notes:
  When using the --update-link option, you can use the placeholder @version@ to be replaced by the new add-on version string.

  If former versions already exist in the original update.json, all the extra parameters (e.g {" ++ dq ++
  "applications" ++ dq ++
  ":{" ++ dq ++
  "gecko" ++ dq ++
  ":{" ++ dq ++
  "strict-minimum-version" ++ dq ++
  ":" ++ dq ++
  "..." ++ dq ++
  "}}}) from the latest version are re-used in the new entry.

  This is also the case for the update_link property, if not specified as command line parameter, with the version string being replaced in the url. For instance if a previous version " ++ dq ++
  "1.0.1" ++ dq ++
  " had update_link " ++ dq ++
  "https://mysite.com/download?v=1.0.1" ++ dq ++
  " and you add version " ++ dq ++
  "1.0.2" ++ dq ++
  " without specifying the update-link option, the new entry will automatically set update_link to " ++ dq ++
  "https://mysite.com/download?v=1.0.2" ++ dq ++
  ".
".

Section Run.
Context `{VC : VersionComparator} `{SH : StreamingHash}.

Record world : Type := {
  w_update : jsval;
  w_scan : scanner;
  w_digests : list (pstate * pending);
  w_out : list output;
  w_status : status
}.

(** What the handlers read from the synchronous phase. *)
Record run_cfg : Type := {
  rc_file : jsval;      (** [filePath], line 48 *)
  rc_merge : config     (** [updateOutputPath] and [argv["update-link"]] *)
}.

Definition set_update (w : world) (u : jsval) : world :=
  {| w_update := u; w_scan := w_scan w; w_digests := w_digests w; w_out := w_out w; w_status := w_status w |}.

Definition set_scan (w : world) (s : scanner) : world :=
  {| w_update := w_update w; w_scan := s; w_digests := w_digests w; w_out := w_out w; w_status := w_status w |}.

Definition set_digests (w : world) (ds : list (pstate * pending)) : world :=
  {| w_update := w_update w; w_scan := w_scan w; w_digests := ds; w_out := w_out w; w_status := w_status w |}.

Definition emit (w : world) (o : list output) : world :=
  {| w_update := w_update w; w_scan := w_scan w; w_digests := w_digests w; w_out := (w_out w ++ o)%list;
     w_status := w_status w |}.

Definition set_status (w : world) (st : status) : world :=
  {| w_update := w_update w; w_scan := w_scan w; w_digests := w_digests w; w_out := w_out w; w_status := st |}.

(** [console.error(...)] then [process.exit(code)]. *)
Definition exit_with (w : world) (o : list output) (code : Z) : world := set_status (emit w o) (Exited code).

Definition exn_message (e : exn) : string :=
  match e with TypeError m | RangeError m | SyntaxError m => m end.

Fixpoint replace_nth {A} (i : nat) (x : A) (l : list A) : list A :=
  match i, l with
  | O, _ :: l' => x :: l'
  | S i', y :: l' => y :: replace_nth i' x l'
  | _, [] => []
  end.

(** ** The synchronous phase, lines 43-73 *)

Definition default_update : jsval := JObj [("addons", JObj [])].

Definition world0 : world :=
  {| w_update := default_update; w_scan := scanner_init; w_digests := []; w_out := []; w_status := Running |}.

Definition no_cfg : run_cfg := {| rc_file := JUndefined; rc_merge := {| update_output_path := JNull; update_link_arg := JUndefined |} |}.

Definition read_warning (p : jsval) : output :=
  OLog (LogWarn ("Could not read update file " ++ to_string p ++ " : . Assuming new update manifest")).

(** [updateInputPath] and [updateOutputPath], lines 58-59. *)
Definition input_path (a : argv) : jsval := js_or (js_or (arg a "update-in") (arg a "update")) JNull.

Definition output_path (a : argv) : jsval := js_or (js_or (arg a "update-out") (arg a "update")) JNull.

Definition start (env : fs_env) (a : argv) : run_cfg * world :=
  match positional a with
  | [] => (no_cfg, set_status (emit world0 [OUsage usage_text]) (Exited (-1)))
  | fp :: _ =>
      if negb (stat env fp) then
        (no_cfg, exit_with world0 [OLog (LogError ("File " ++ to_string fp ++ " does not exist"))] (-1))
      else
        let inp := input_path a in
        let outp := output_path a in
        let rc := {| rc_file := fp;
                     rc_merge := {| update_output_path := outp; update_link_arg := arg a "update-link" |} |} in
        if truthy inp then
          match (if stat env inp then read_file env inp else None) with
          | Some text =>
              match json_parse text with
              | Ok u => (rc, set_update world0 u)
              | Err PSyntax => (rc, emit world0 [read_warning inp])
              | Err _ => (rc, set_status world0 Beyond)
              end
          | None => (rc, emit world0 [read_warning inp])
          end
        else (rc, world0)
  end.

(** ** The handlers *)

(** [HandleManifest(text)], lines 101-167. *)
Definition handle_manifest (rc : run_cfg) (w : world) (text : string) : world :=
  match json_parse text with
  | Err PSyntax => exit_with w [OLog (LogError "Could not parse manifest")] (-1)
  | Err _ => set_status w Beyond
  | Ok manifest =>
      match handle_parsed (rc_merge rc) (w_update w) manifest with
      | Ok None =>
          emit w [OLog (LogInfo "No update.json output path specified. You may want to use option --update-out or --update")]
      | Ok (Some (u, p)) => set_digests (set_update w u) (w_digests w ++ [(digest_init, p)])
      | Err (StopThrow e) => exit_with w [OLog (LogError ("Could not parse manifest " ++ exn_message e))] (-1)
      | Err StopNoAddonId => exit_with w [OLog (LogError "Add-on id not found in manifest")] (-1)
      | Err StopNoUpdateUrl =>
          exit_with w [OLog (LogError "No update URL specified nor reused. Try using parameter --update-link")] (-1)
      | Err (StopThenThrow e) => exit_with w [OLog (LogError ("Could not compute hash: " ++ exn_message e))] (-1)
      end
  end.

(** The [.then] callback, lines 139-156, on the update manifest as it
    is when the digest resolves; its exceptions reach the [.catch] of
    lines 157-160. *)
Definition then_callback (env : fs_env) (rc : run_cfg) (w : world) (p : pending) (hex : string)
  : world :=
  let outp := update_output_path (rc_merge rc) in
  match on_hash (w_update w) p hex with
  | Ok u =>
      let w1 := set_update w u in
      if truthy outp then
        match json_stringify u with
        | Some text =>
            if fs_write_ok env outp then
              emit w1 [OWrite outp text; OLog (LogInfo ("Update file written " ++ to_string outp))]
            else exit_with w1 [OLog (LogError ("Could not write update file " ++ to_string outp ++ " :"))] (-1)
        | None => exit_with w1 [OLog (LogError ("Could not write update file " ++ to_string outp ++ " :"))] (-1)
        end
      else w1
  | Err (StopThenThrow e) => exit_with w [OLog (LogError ("Could not compute hash: " ++ exn_message e))] (-1)
  | Err _ => exit_with w [OLog (LogError "Could not compute hash: ")] (-1)
  end.

Section Step.
Variable env : fs_env.
Variable rc : run_cfg.

(** One event; after [process.exit] no handler runs. *)
Definition step (w : world) (ev : event) : world :=
  match w_status w with
  | Running =>
      match ev with
      | EZip (ZEntry path chunks) =>
          let '(s', d) := on_entry (w_scan w) path in
          let w1 := set_scan w s' in
          match d with
          | Buffered => handle_manifest rc w1 (buffered_text chunks)
          | _ => w1
          end
      | EZip ZClose => emit w (map OLog (on_close (to_string (rc_file rc)) (w_scan w)))
      | EHash i se =>
          match nth_error (w_digests w) i with
          | Some (ps, p) =>
              let ps' := digest_next ps se in
              let w1 := set_digests w (replace_nth i (ps', p) (w_digests w)) in
              match ps, ps' with
              | Pending _, Resolved hex => then_callback env rc w1 p hex
              | Pending _, Rejected err => exit_with w1 [OLog (LogError ("Could not compute hash: " ++ err))] (-1)
              | _, _ => w1
              end
          | None => w
          end
      end
  | _ => w
  end.

Definition run_events (w : world) (evs : list event) : world := fold_left step evs w.

End Step.

(** [faauv] with its arguments, file system and the events the event
    loop delivers. *)
Definition run (env : fs_env) (a : argv) (evs : list event) : world :=
  let '(rc, w) := start env a in run_events env rc w evs.

(** The exit status: [process.exit]'s code, or 0 when the event loop
    empties; [None] outside the model. *)
Definition exit_code (w : world) : option Z :=
  match w_status w with Running => Some 0%Z | Exited c => Some c | Beyond => None end.

Definition writes (w : world) : list (jsval * string) :=
  flat_map (fun o => match o with OWrite p t => [(p, t)] | _ => [] end) (w_out w).

(** ** Lemmas *)

Section RunFacts.
Variable env : fs_env.
Variable rc : run_cfg.

Lemma step_stopped w ev : w_status w <> Running -> step env rc w ev = w.
Proof. unfold step. destruct (w_status w); congruence. Qed.

(** After [process.exit], and outside the model, nothing more happens. *)
Lemma run_events_stopped w evs : w_status w <> Running -> run_events env rc w evs = w.
Proof.
  revert w; induction evs as [|ev evs IH]; intros w Hs; [reflexivity|].
  unfold run_events. simpl. rewrite step_stopped by exact Hs. now apply IH.
Qed.

Lemma run_events_app w evs evs' :
  run_events env rc w (evs ++ evs') = run_events env rc (run_events env rc w evs) evs'.
Proof. apply fold_left_app. Qed.

Lemma set_scan_twice w a b : set_scan (set_scan w a) b = set_scan w b.
Proof. reflexivity. Qed.

Lemma flags_after_nil s : flags_after s [] = s.
Proof. destruct s. unfold flags_after. simpl. now rewrite !orb_false_r. Qed.

Lemma step_close w :
  w_status w = Running ->
  step env rc w (EZip ZClose) = emit w (map OLog (on_close (to_string (rc_file rc)) (w_scan w))).
Proof. intros Hs. unfold step. now rewrite Hs. Qed.

Lemma step_manifest_entry w chunks :
  w_status w = Running ->
  step env rc w (EZip (ZEntry manifest_path chunks)) =
  handle_manifest rc (set_scan w (flags_after (w_scan w) [(manifest_path, [])])) (buffered_text chunks).
Proof.
  intros Hs. unfold step. rewrite Hs. rewrite <- on_entry_flags.
  unfold on_entry. rewrite String.eqb_refl. reflexivity.
Qed.

Lemma step_hash_end w i h p :
  w_status w = Running -> nth_error (w_digests w) i = Some (Pending h, p) ->
  step env rc w (EHash i SEnd) =
  then_callback env rc (set_digests w (replace_nth i (Resolved (h_digest h), p) (w_digests w))) p (h_digest h).
Proof. intros Hs Hn. unfold step. now rewrite Hs, Hn. Qed.

Lemma step_hash_error w i h p e :
  w_status w = Running -> nth_error (w_digests w) i = Some (Pending h, p) ->
  step env rc w (EHash i (SError e)) =
  exit_with (set_digests w (replace_nth i (Rejected e, p) (w_digests w)))
    [OLog (LogError ("Could not compute hash: " ++ e))] (-1).
Proof. intros Hs Hn. unfold step. now rewrite Hs, Hn. Qed.

Lemma run_events_cons w ev evs : run_events env rc w (ev :: evs) = run_events env rc (step env rc w ev) evs.
Proof. reflexivity. Qed.

Definition zip_events (es : list (string * list string)) : list event :=
  map (fun e => EZip (zentry e)) es.

(** Entries other than [manifest.json] only set the scanner flags. *)
Lemma run_other_entries w es :
  w_status w = Running -> existsb (is_path manifest_path) es = false ->
  run_events env rc w (zip_events es) = set_scan w (flags_after (w_scan w) es).
Proof.
  revert w; induction es as [|[p c] es IH]; intros w Hs Hm.
  - destruct w as [u [g m] ds o st]. unfold flags_after, set_scan. simpl. now rewrite !orb_false_r.
  - simpl in Hm. apply orb_false_iff in Hm as [Hp Hm].
    change (zip_events ((p, c) :: es)) with (EZip (zentry (p, c)) :: zip_events es).
    rewrite run_events_cons. unfold step at 1. rewrite Hs.
    unfold zentry. simpl. pose proof (on_entry_flags (w_scan w) p) as Hf.
    unfold is_path in Hp. simpl in Hp.
    assert (Hd : snd (on_entry (w_scan w) p) <> Buffered).
    { unfold on_entry. rewrite Hp. now destruct (String.eqb p mozilla_sign_path). }
    destruct (on_entry (w_scan w) p) as [s' d] eqn:E. simpl in Hf, Hd.
    replace (match d with Buffered => _ | _ => set_scan w s' end) with (set_scan w s')
      by (destruct d; congruence).
    rewrite IH by assumption. cbn [w_scan set_scan]. subst s'.
    rewrite set_scan_twice, ?flags_after_nil, (flags_after_cons _ (p, c)). reflexivity.
Qed.

Lemma replace_nth_nth {A} i (x : A) l : i < List.length l -> nth_error (replace_nth i x l) i = Some x.
Proof. revert l; induction i as [|i IH]; intros [|y l] H; simpl in *; try lia; auto. apply IH. lia. Qed.

Lemma replace_nth_same {A} i (x : A) l : nth_error l i = Some x -> replace_nth i x l = l.
Proof.
  revert l; induction i as [|i IH]; intros [|y l] H; simpl in *; try discriminate.
  - now injection H as ->.
  - now rewrite IH.
Qed.

Lemma replace_nth_twice {A} i (x y : A) l : replace_nth i y (replace_nth i x l) = replace_nth i y l.
Proof. revert l; induction i as [|i IH]; intros [|z l]; simpl; f_equal; auto. Qed.

Lemma replace_nth_length {A} i (x : A) l : List.length (replace_nth i x l) = List.length l.
Proof. revert l; induction i as [|i IH]; intros [|z l]; simpl; auto. Qed.

Lemma set_digests_twice w a b : set_digests (set_digests w a) b = set_digests w b.
Proof. reflexivity. Qed.

(** The data events of a pending digest feed its hash. *)
Lemma run_hash_data w i h p cs :
  w_status w = Running -> nth_error (w_digests w) i = Some (Pending h, p) ->
  run_events env rc w (map (EHash i) (map SData cs)) =
  set_digests w (replace_nth i (Pending (h_update h (fold_right String.append EmptyString cs)), p) (w_digests w)).
Proof.
  revert w h; induction cs as [|c cs IH]; intros w h Hs Hn.
  - cbn [map fold_right]. rewrite h_update_empty, replace_nth_same by exact Hn. now destruct w.
  - cbn [map]. rewrite run_events_cons. unfold step at 1. rewrite Hs, Hn. simpl.
    assert (Hlt : i < List.length (w_digests w)) by (apply nth_error_Some; congruence).
    rewrite (IH _ (h_update h c)); [| exact Hs | simpl; now apply replace_nth_nth].
    cbn [fold_right w_digests set_digests]. rewrite replace_nth_twice, h_update_app. reflexivity.
Qed.

End RunFacts.

Lemma start_scan env a : w_scan (snd (start env a)) = scanner_init.
Proof.
  unfold start. destruct (positional a); [reflexivity|]. destruct (negb _); [reflexivity|].
  repeat match goal with |- context [match ?x with _ => _ end] => destruct x end; reflexivity.
Qed.

Lemma start_digests env a : w_digests (snd (start env a)) = [].
Proof.
  unfold start. destruct (positional a); [reflexivity|]. destruct (negb _); [reflexivity|].
  repeat match goal with |- context [match ?x with _ => _ end] => destruct x end; reflexivity.
Qed.

Lemma start_writes env a : writes (snd (start env a)) = [].
Proof.
  unfold start. destruct (positional a); [reflexivity|]. destruct (negb _); [reflexivity|].
  repeat match goal with |- context [match ?x with _ => _ end] => destruct x end; reflexivity.
Qed.

Lemma writes_emit w o :
  writes (emit w o) = (writes w ++ flat_map (fun o => match o with OWrite p t => [(p, t)] | _ => [] end) o)%list.
Proof. unfold writes, emit. simpl. now rewrite flat_map_app. Qed.

Lemma writes_logs w ls : writes (emit w (map OLog ls)) = writes w.
Proof. rewrite writes_emit. induction ls as [|l ls IH]; simpl; [apply app_nil_r | exact IH]. Qed.

Lemma writes_set_update w u : writes (set_update w u) = writes w.
Proof. reflexivity. Qed.

Lemma writes_set_scan w s : writes (set_scan w s) = writes w.
Proof. reflexivity. Qed.

Lemma writes_set_digests w ds : writes (set_digests w ds) = writes w.
Proof. reflexivity. Qed.

Lemma writes_set_status w st : writes (set_status w st) = writes w.
Proof. reflexivity. Qed.

#[local] Hint Rewrite writes_logs writes_set_update writes_set_scan writes_set_digests writes_set_status
  : faauv_rw.

Lemma handle_manifest_started rc w text m u p :
  json_parse text = Ok m -> handle_parsed (rc_merge rc) (w_update w) m = Ok (Some (u, p)) ->
  handle_manifest rc w text = set_digests (set_update w u) (w_digests w ++ [(digest_init, p)]).
Proof. intros Hj Hh. unfold handle_manifest. now rewrite Hj, Hh. Qed.

Lemma handle_parsed_some_output cfg u m r :
  handle_parsed cfg u m = Ok (Some r) -> truthy (update_output_path cfg) = true.
Proof. unfold handle_parsed. destruct (truthy (update_output_path cfg)); [reflexivity|discriminate]. Qed.

Lemma then_callback_written env rc w p hex u text :
  on_hash (w_update w) p hex = Ok u -> truthy (update_output_path (rc_merge rc)) = true ->
  json_stringify u = Some text -> fs_write_ok env (update_output_path (rc_merge rc)) = true ->
  then_callback env rc w p hex =
  emit (set_update w u) [OWrite (update_output_path (rc_merge rc)) text;
                         OLog (LogInfo ("Update file written " ++ to_string (update_output_path (rc_merge rc))))].
Proof. intros Ho Ht Hs Hw. unfold then_callback. now rewrite Ho, Ht, Hs, Hw. Qed.

(** The parser's events for an archive whose only [manifest.json]
    entry has the data [chunks], between the entries [es1] and [es2]. *)
Definition archive_events (es1 : list (string * list string)) (chunks : list string)
  (es2 : list (string * list string)) : list event :=
  (zip_events es1 ++ EZip (ZEntry manifest_path chunks) :: zip_events es2 ++ [EZip ZClose])%list.

(** Up to its [manifest.json] entry, the archive starts one digest. *)
Lemma run_to_manifest env rc w0 es1 chunks m u1 p :
  w_status w0 = Running ->
  existsb (is_path manifest_path) es1 = false ->
  json_parse (buffered_text chunks) = Ok m ->
  handle_parsed (rc_merge rc) (w_update w0) m = Ok (Some (u1, p)) ->
  let W := run_events env rc w0 (zip_events es1 ++ [EZip (ZEntry manifest_path chunks)]) in
  w_status W = Running /\ w_update W = u1 /\ w_digests W = (w_digests w0 ++ [(digest_init, p)])%list /\
  writes W = writes w0.
Proof.
  intros Hs Hm Hj Hh.
  rewrite run_events_app, run_other_entries by assumption.
  rewrite run_events_cons, step_manifest_entry by exact Hs.
  rewrite (handle_manifest_started _ _ _ m u1 p) by assumption.
  cbn zeta. cbn [run_events fold_left]. repeat split. exact Hs.
Qed.

(** After the archive events, [HandleManifest] has run once and its
    digest is pending. *)
Lemma run_archive_events env rc w0 es1 es2 chunks m u1 p :
  w_status w0 = Running -> w_digests w0 = [] ->
  existsb (is_path manifest_path) (es1 ++ es2) = false ->
  json_parse (buffered_text chunks) = Ok m ->
  handle_parsed (rc_merge rc) (w_update w0) m = Ok (Some (u1, p)) ->
  let W := run_events env rc w0 (archive_events es1 chunks es2) in
  w_status W = Running /\ w_update W = u1 /\ w_digests W = [(digest_init, p)] /\ writes W = writes w0.
Proof.
  intros Hs Hd Hm Hj Hh. rewrite existsb_app in Hm. apply orb_false_iff in Hm as [Hm1 Hm2].
  destruct (run_to_manifest env rc w0 es1 chunks m u1 p) as (Hs1 & Hu1 & Hd1 & Hw1); try assumption.
  rewrite Hd in Hd1.
  unfold archive_events.
  replace (zip_events es1 ++ EZip (ZEntry manifest_path chunks) :: zip_events es2 ++ [EZip ZClose])%list
    with ((zip_events es1 ++ [EZip (ZEntry manifest_path chunks)]) ++ zip_events es2 ++ [EZip ZClose])%list
    by now rewrite <- app_assoc.
  rewrite run_events_app. rewrite run_events_app, run_other_entries by assumption.
  rewrite run_events_cons, step_close by exact Hs1.
  cbn zeta. cbn [run_events fold_left]. autorewrite with faauv_rw. auto.
Qed.

(** A pending digest whose stream delivers [cs] and ends runs the
    [.then] callback on [sha256_hex] of the whole content: the merged
    manifest is written once. *)
Lemma run_hash_written env rc W i p cs u text :
  w_status W = Running -> nth_error (w_digests W) i = Some (digest_init, p) ->
  on_hash (w_update W) p (sha256_hex (fold_right String.append EmptyString cs)) = Ok u ->
  truthy (update_output_path (rc_merge rc)) = true ->
  fs_write_ok env (update_output_path (rc_merge rc)) = true -> json_stringify u = Some text ->
  let W' := run_events env rc W (map (EHash i) (map SData cs ++ [SEnd])) in
  w_status W' = Running /\ w_update W' = u /\
  w_digests W' = replace_nth i (Resolved (sha256_hex (fold_right String.append EmptyString cs)), p)
                   (w_digests W) /\
  writes W' = (writes W ++ [(update_output_path (rc_merge rc), text)])%list.
Proof.
  intros Hs Hd Ho Ht Hwr Hst. cbv zeta.
  rewrite map_app, run_events_app.
  rewrite (run_hash_data _ _ _ i h_init p) by assumption.
  cbn [run_events fold_left map].
  rewrite step_hash_end with (h := h_update h_init (fold_right String.append EmptyString cs)) (p := p)
    by (simpl; try apply replace_nth_nth; try (apply nth_error_Some; congruence); assumption).
  rewrite (then_callback_written env rc _ p _ u text) by (simpl; assumption).
  repeat split; [exact Hs| |].
  - cbn. now rewrite replace_nth_twice.
  - rewrite writes_emit. autorewrite with faauv_rw. reflexivity.
Qed.

(** A file [readFileSync] can read exists for [statSync]. *)
Lemma stat_read_file env p text : read_file env p = Some text -> stat env p = true.
Proof. unfold read_file, stat. destruct p; try discriminate. now intros ->. Qed.

(** ** Theorems *)

(** C22: an archive without [manifest.json] (spec 6 and 8 require a
    non-zero exit): the close handler logs "No manifest.json found" and
    the process exits with status 0, writing nothing (lines 94-96). *)
Theorem run_missing_manifest env a es :
  w_status (snd (start env a)) = Running ->
  existsb (is_path manifest_path) es = false ->
  let w := run env a (zip_events es ++ [EZip ZClose]) in
  exit_code w = Some 0%Z /\ writes w = nil /\
  In (OLog (LogError ("No manifest.json found in " ++ to_string (rc_file (fst (start env a)))))) (w_out w).
Proof.
  intros Hs Hm. pose proof (start_scan env a) as Hsc. pose proof (start_writes env a) as Hw.
  unfold run. destruct (start env a) as [rc w0]. simpl in Hs, Hsc, Hw |- *.
  rewrite run_events_app, run_other_entries by assumption.
  rewrite run_events_cons, step_close by exact Hs.
  cbn [run_events fold_left]. repeat split.
  - unfold exit_code. simpl. now rewrite Hs.
  - rewrite writes_logs. exact Hw.
  - simpl. apply in_or_app. right. rewrite Hsc. unfold flags_after. simpl. rewrite Hm. now left.
Qed.

(** C23: a read error of the digest stream before its end makes the
    [.catch] of lines 157-160 log "Could not compute hash" and exit
    with -1; nothing is written, whatever events follow. *)
Theorem run_digest_error env a es1 es2 chunks cs e rest m u1 p :
  w_status (snd (start env a)) = Running ->
  existsb (is_path manifest_path) (es1 ++ es2) = false ->
  json_parse (buffered_text chunks) = Ok m ->
  handle_parsed (rc_merge (fst (start env a))) (w_update (snd (start env a))) m = Ok (Some (u1, p)) ->
  let w := run env a (archive_events es1 chunks es2 ++ map (EHash 0) (map SData cs ++ SError e :: rest)) in
  exit_code w = Some (-1)%Z /\ writes w = [] /\
  In (OLog (LogError ("Could not compute hash: " ++ e))) (w_out w).
Proof.
  intros Hs Hm Hj Hh.
  pose proof (start_writes env a) as Hw. pose proof (start_digests env a) as Hd.
  unfold run. destruct (start env a) as [rc w0]. simpl in *.
  destruct (run_archive_events env rc w0 es1 es2 chunks m u1 p) as (Hs1 & Hu1 & Hd1 & Hw1); try assumption.
  rewrite run_events_app, map_app, run_events_app.
  rewrite (run_hash_data _ _ _ 0 h_init p) by (rewrite ?Hd1; reflexivity || assumption).
  cbn [map]. rewrite run_events_cons.
  rewrite step_hash_error with (h := h_update h_init (fold_right String.append EmptyString cs)) (p := p)
    by (simpl; rewrite ?Hd1; reflexivity || assumption).
  rewrite run_events_stopped by (simpl; discriminate).
  repeat split.
  - unfold writes in *. simpl. rewrite flat_map_app, Hw1, Hw. reflexivity.
  - simpl. apply in_or_app. now right; left.
Qed.

(** C24: without a positional argument the run prints the usage text
    and exits with -1 before any other output (lines 43-46), whatever
    events would follow. *)
Theorem run_usage env a evs :
  positional a = [] ->
  w_out (run env a evs) = [OUsage usage_text] /\ exit_code (run env a evs) = Some (-1)%Z.
Proof.
  intros Hp. unfold run, start. rewrite Hp. cbv zeta.
  rewrite run_events_stopped by (simpl; discriminate). split; reflexivity.
Qed.

(** C26: an update manifest that cannot be read, or whose text is not
    JSON, degrades to a warning (lines 69-72, spec 6 "ManifestReadDegraded"):
    the run continues from the default manifest [{addons:{}}] with that
    warning as its only output. *)
Theorem start_update_unreadable env a fp rest :
  positional a = fp :: rest -> stat env fp = true -> truthy (input_path a) = true ->
  match read_file env (input_path a) with None => True | Some t => json_parse t = Err PSyntax end ->
  snd (start env a) = emit world0 [read_warning (input_path a)].
Proof.
  intros Hp Hs Hi Hr. unfold start. rewrite Hp, Hs. cbv zeta. cbn [negb]. rewrite Hi.
  destruct (stat env (input_path a)); [|reflexivity].
  destruct (read_file env (input_path a)) as [t|]; [rewrite Hr|]; reflexivity.
Qed.

(** C28: round trip across runs.  When the input path of a run holds
    the text an earlier run wrote, [JSON.stringify] of a well-formed
    manifest [u] (every manifest [JSON.parse] returns is), the run
    starts from [u] as [JSON.parse] reads it back, [json_norm u], with
    no warning: the update file is a stable format from run to run. *)
Theorem start_loads_written env a fp rest u text :
  positional a = fp :: rest -> stat env fp = true -> truthy (input_path a) = true ->
  read_file env (input_path a) = Some text -> json_wf u = true -> json_stringify u = Some text ->
  w_update (snd (start env a)) = json_norm u /\ w_out (snd (start env a)) = [] /\
  w_status (snd (start env a)) = Running.
Proof.
  intros Hp Hs Hi Hr Hwf Ht. unfold start. rewrite Hp, Hs. cbv zeta. cbn [negb]. rewrite Hi.
  rewrite (stat_read_file env _ text Hr), Hr, (json_stringify_parse u text Hwf Ht).
  auto.
Qed.

End Run.

#[export] Hint Rewrite @writes_logs @writes_set_update @writes_set_scan @writes_set_digests
  @writes_set_status : faauv_rw.

(** ** Two [manifest.json] entries *)

Definition jstr (s : string) : string := dq ++ s ++ dq.

(** [{"version":"1.0","applications":{"gecko":{"id":"ext@x"}}}] *)
Definition dup_manifest_text : string :=
  "{" ++ jstr "version" ++ ":" ++ jstr "1.0" ++ "," ++ jstr "applications" ++ ":{" ++
  jstr "gecko" ++ ":{" ++ jstr "id" ++ ":" ++ jstr "ext@x" ++ "}}}".

Definition dup_env : fs_env := {| fs_files := [("a.xpi", "PK")]; fs_write_ok := fun _ => true |}.

Definition dup_argv : argv :=
  {| positional := [JStr "a.xpi"];
     options := [("update-out", JStr "u.json"); ("update-link", JStr "https://h/@version@")] |}.

Definition dup_entry : jsval :=
  JObj [("version", JStr "1.0"); ("update_hash", JStr "sha256:PK"); ("update_link", JStr "https://h/1.0")].

Definition dup_doc (entries : list jsval) : jsval :=
  JObj [("addons", JObj [("ext@x", JObj [("updates", JArr entries [])])])].

Definition hash_events (i : nat) : list event := [EHash i (SData "PK"); EHash i SEnd].

(** ** Witnesses *)

Definition dup_manifest : jsval :=
  match json_parse dup_manifest_text with Ok m => m | Err _ => JNull end.

Definition dup_cfg : run_cfg := fst (start (SH := identity_hash) dup_env dup_argv).

Definition dup_started : jsval * pending :=
  match handle_parsed (VC := mozilla_version_comparator) (rc_merge dup_cfg)
          (w_update (SH := identity_hash) (snd (start (SH := identity_hash) dup_env dup_argv)))
          dup_manifest with
  | Ok (Some r) => r
  | _ => (JNull, {| p_key := ""; p_last := None; p_version := JUndefined; p_url := "" |})
  end.

Lemma run_missing_manifest_witness :
  w_status (snd (start (SH := identity_hash) dup_env dup_argv)) = Running /\
  existsb (is_path manifest_path) [("META-INF/mozilla.sf", [])] = false /\
  exit_code (run (VC := mozilla_version_comparator) (SH := identity_hash) dup_env dup_argv
               (zip_events [("META-INF/mozilla.sf", [])] ++ [EZip ZClose])) = Some 0%Z.
Proof.
  split; [vm_compute; reflexivity|]. split; [vm_compute; reflexivity|].
  apply (run_missing_manifest dup_env dup_argv [("META-INF/mozilla.sf", [])]); vm_compute; reflexivity.
Defined.

Lemma run_digest_error_witness :
  let w := run (VC := mozilla_version_comparator) (SH := identity_hash) dup_env dup_argv
             (archive_events [] [dup_manifest_text] [] ++ map (EHash 0) (map SData ["P"] ++ SError "EIO" :: [SEnd])) in
  exit_code w = Some (-1)%Z /\ writes w = [] /\ In (OLog (LogError ("Could not compute hash: " ++ "EIO"))) (w_out w).
Proof.
  apply (run_digest_error dup_env dup_argv [] [] [dup_manifest_text] ["P"] "EIO" [SEnd] dup_manifest
           (fst dup_started) (snd dup_started)); vm_compute; reflexivity.
Defined.

Lemma run_usage_witness :
  w_out (run (VC := mozilla_version_comparator) (SH := identity_hash) dup_env {| positional := []; options := [] |}
           [EZip ZClose]) = [OUsage usage_text] /\
  exit_code (run (VC := mozilla_version_comparator) (SH := identity_hash) dup_env {| positional := []; options := [] |}
           [EZip ZClose]) = Some (-1)%Z.
Proof. apply run_usage. reflexivity. Defined.

Definition bad_update_env : fs_env :=
  {| fs_files := [("a.xpi", "PK"); ("u.json", "{" ++ dq ++ "addons" ++ dq ++ ":")];
     fs_write_ok := fun _ => true |}.

Definition bad_update_argv : argv :=
  {| positional := [JStr "a.xpi"]; options := [("update", JStr "u.json")] |}.

Lemma start_update_unreadable_witness :
  snd (start (SH := identity_hash) bad_update_env bad_update_argv) =
  emit world0 [read_warning (input_path bad_update_argv)].
Proof.
  apply (start_update_unreadable bad_update_env bad_update_argv (JStr "a.xpi") []); vm_compute; reflexivity.
Defined.

Lemma start_loads_written_witness :
  let env := {| fs_files := [("a.xpi", "PK");
                             ("u.json", match json_stringify (dup_doc [dup_entry]) with Some t => t | None => "" end)];
                fs_write_ok := fun _ => true |} in
  w_update (snd (start (SH := identity_hash) env bad_update_argv)) = json_norm (dup_doc [dup_entry]) /\
  w_out (snd (start (SH := identity_hash) env bad_update_argv)) = [] /\
  w_status (snd (start (SH := identity_hash) env bad_update_argv)) = Running.
Proof.
  intros env.
  apply (start_loads_written env bad_update_argv (JStr "a.xpi") [] (dup_doc [dup_entry])
           (match json_stringify (dup_doc [dup_entry]) with Some t => t | None => "" end));
    vm_compute; reflexivity.
Defined.
