(* ===== verification/Schedule.v ===== *)
(** * Schedules of the event loop

    The archive parser (lines 75-99) and the read stream of
    [Sha256FromFile] (lines 172-181) are two independent sources of
    events; the event loop delivers them in an order the script does not
    control.  [interleaving l1 l2 l] says that the schedule [l] merges
    [l1] and [l2], each in its own order.

    The events of the archive after its only [manifest.json] entry
    (other entries and [close]) touch only the scanner flags and the
    console, and the digest events read and write only the update
    manifest, the digests, the status and the files written: the
    projection [view] of the state.  Hence every schedule of the two
    sources gives the [view] of the schedule that runs the digest last
    ([run_events_interleaving]), and a run with one [manifest.json]
    writes the merged manifest whatever the schedule
    ([run_one_manifest_any_schedule]). *)

From Stdlib Require Import List String ZArith Bool Lia.
From S2P Require Import Prelude JsValue VersionCompare Merge Archive Digest Json Run.
Import ListNotations.
Open Scope string_scope.
Open Scope faauv_scope.

(** Merge of two sequences that keeps the order of each. *)
Inductive interleaving {A : Type} : list A -> list A -> list A -> Prop :=
| il_nil : interleaving [] [] []
| il_left x l1 l2 l : interleaving l1 l2 l -> interleaving (x :: l1) l2 (x :: l)
| il_right x l1 l2 l : interleaving l1 l2 l -> interleaving l1 (x :: l2) (x :: l).

#[export] Hint Constructors interleaving : faauv.

Section Schedule.
Context `{VC : VersionComparator} `{SH : StreamingHash}.

(** The part of the state the digest's continuation reads or writes. *)
Definition view (w : world) : jsval * list (pstate * pending) * status * list (jsval * string) :=
  (w_update w, w_digests w, w_status w, writes w).

(** Archive events that are neither the [manifest.json] entry nor a
    digest event. *)
Definition benign (ev : event) : bool :=
  match ev with
  | EZip (ZEntry path _) => negb (String.eqb path manifest_path)
  | EZip ZClose => true
  | EHash _ _ => false
  end.

Definition is_hash (ev : event) : bool :=
  match ev with EHash _ _ => true | EZip _ => false end.

(** ** The world operations respect [view] *)

Lemma view_emit w w' o : view w = view w' -> view (emit w o) = view (emit w' o).
Proof.
  unfold view. rewrite !writes_emit. cbn [emit w_update w_digests w_status].
  intros H. injection H. congruence.
Qed.

Lemma view_set_update w w' u : view w = view w' -> view (set_update w u) = view (set_update w' u).
Proof. unfold view. autorewrite with faauv_rw. cbn [set_update w_update w_digests w_status]. intros H. injection H. congruence. Qed.

Lemma view_set_digests w w' d : view w = view w' -> view (set_digests w d) = view (set_digests w' d).
Proof. unfold view. autorewrite with faauv_rw. cbn [set_digests w_update w_digests w_status]. intros H. injection H. congruence. Qed.

Lemma view_set_status w w' st : view w = view w' -> view (set_status w st) = view (set_status w' st).
Proof. unfold view. autorewrite with faauv_rw. cbn [set_status w_update w_digests w_status]. intros H. injection H. congruence. Qed.

Lemma view_exit_with w w' o c : view w = view w' -> view (exit_with w o c) = view (exit_with w' o c).
Proof. intros H. unfold exit_with. now apply view_set_status, view_emit. Qed.

#[local] Hint Resolve view_emit view_set_update view_set_digests view_set_status view_exit_with : faauv.

Lemma view_update w w' : view w = view w' -> w_update w = w_update w'.
Proof. unfold view. intros H. now injection H. Qed.

Lemma view_digests w w' : view w = view w' -> w_digests w = w_digests w'.
Proof. unfold view. intros H. now injection H. Qed.

Lemma view_status w w' : view w = view w' -> w_status w = w_status w'.
Proof. unfold view. intros H. now injection H. Qed.

Section Steps.
Variable env : fs_env.
Variable rc : run_cfg.

Lemma then_callback_view w w' p hex :
  view w = view w' -> view (then_callback env rc w p hex) = view (then_callback env rc w' p hex).
Proof.
  intros H. unfold then_callback. rewrite (view_update _ _ H).
  destruct (on_hash _ p hex) as [u|[]]; auto with faauv.
  destruct (truthy _); [|auto with faauv].
  destruct (json_stringify u); [destruct (fs_write_ok _ _)|]; auto with faauv.
Qed.

Lemma step_benign w ev : benign ev = true -> view (step env rc w ev) = view w.
Proof.
  destruct ev as [[path chunks|]|i se]; cbn [benign]; intros H; try discriminate;
    unfold step; destruct (w_status w); try reflexivity.
  - apply negb_true_iff in H. unfold on_entry. rewrite H.
    destruct (String.eqb path mozilla_sign_path); reflexivity.
  - unfold view. now rewrite writes_logs.
Qed.

Lemma step_hash_view w w' ev :
  is_hash ev = true -> view w = view w' -> view (step env rc w ev) = view (step env rc w' ev).
Proof.
  destruct ev as [z|i se]; [discriminate|]. intros _ H. unfold step.
  rewrite (view_status _ _ H), (view_digests _ _ H).
  destruct (w_status w'); [|assumption|assumption].
  destruct (nth_error (w_digests w') i) as [[ps p]|]; [|assumption].
  destruct ps, (digest_next _ se); auto using then_callback_view with faauv.
Qed.

(** Every schedule of the benign archive events [l1] and the digest
    events [l2] ends in the [view] of running [l2] alone. *)
Lemma run_events_interleaving l1 l2 l :
  interleaving l1 l2 l -> forallb benign l1 = true -> forallb is_hash l2 = true ->
  forall w w', view w = view w' -> view (run_events env rc w l) = view (run_events env rc w' l2).
Proof.
  induction 1 as [|x l1 l2 l Hi IH|x l1 l2 l Hi IH]; cbn [forallb]; intros H1 H2 w w' Hv.
  - exact Hv.
  - apply andb_prop in H1 as [Hx H1].
    rewrite run_events_cons. apply IH; auto. now rewrite step_benign.
  - apply andb_prop in H2 as [Hx H2].
    rewrite !run_events_cons. apply IH; auto using step_hash_view.
Qed.

End Steps.

Lemma benign_zip_events es :
  existsb (is_path manifest_path) es = false -> forallb benign (zip_events es) = true.
Proof.
  induction es as [|[p c] es IH]; [reflexivity|].
  change (zip_events ((p, c) :: es)) with (EZip (zentry (p, c)) :: zip_events es).
  cbn [forallb existsb benign zentry fst]. unfold is_path. cbn [fst].
  intros H. apply orb_false_iff in H as [Hp Hes]. now rewrite Hp, IH.
Qed.

Lemma is_hash_events i ses : forallb is_hash (map (EHash i) ses) = true.
Proof. induction ses; cbn; auto. Qed.

(** ** Liveness *)

(** C27: liveness.  However the event loop interleaves the archive's
    events after the [manifest.json] entry (the remaining entries and
    [close]) with the events of the digest stream (the chunks of the
    file, then its end), a run with one [manifest.json] whose merge
    succeeds eventually writes [JSON.stringify] of the merged manifest,
    once, and exits with status 0: no schedule loses or duplicates the
    write. *)
Theorem run_one_manifest_any_schedule env a es1 es2 chunks cs m u text l :
  w_status (snd (start env a)) = Running ->
  existsb (is_path manifest_path) (es1 ++ es2) = false ->
  json_parse (buffered_text chunks) = Ok m ->
  merge (rc_merge (fst (start env a))) (w_update (snd (start env a))) m
        (sha256_hex (fold_right String.append EmptyString cs)) = Ok (Some u) ->
  fs_write_ok env (update_output_path (rc_merge (fst (start env a)))) = true ->
  json_stringify u = Some text ->
  interleaving (zip_events es2 ++ [EZip ZClose]) (map (EHash 0) (map SData cs ++ [SEnd])) l ->
  let w := run env a (zip_events es1 ++ EZip (ZEntry manifest_path chunks) :: l) in
  exit_code w = Some 0%Z /\ w_update w = u /\
  writes w = [(update_output_path (rc_merge (fst (start env a))), text)].
Proof.
  intros Hs Hm Hj Hmerge Hwr Ht Hl.
  rewrite existsb_app in Hm. apply orb_false_iff in Hm as [Hm1 Hm2].
  unfold merge in Hmerge. inv_bind Hmerge. destruct a0 as [[u1 p]|]; [|discriminate].
  inv_bind Hmerge. injection Hmerge as <-.
  pose proof (handle_parsed_some_output _ _ _ _ Ha) as Hout.
  pose proof (start_writes env a) as Hw. pose proof (start_digests env a) as Hd.
  unfold run. destruct (start env a) as [rc w0]. simpl in *.
  destruct (run_to_manifest env rc w0 es1 chunks m u1 p) as (Hs1 & Hu1 & Hd1 & Hw1); try assumption.
  rewrite Hd in Hd1.
  replace (zip_events es1 ++ EZip (ZEntry manifest_path chunks) :: l)%list
    with ((zip_events es1 ++ [EZip (ZEntry manifest_path chunks)]) ++ l)%list by now rewrite <- app_assoc.
  rewrite run_events_app.
  set (W := run_events env rc w0 _).
  pose proof (run_events_interleaving env rc _ _ _ Hl) as Hv.
  specialize (Hv ltac:(rewrite forallb_app, benign_zip_events by exact Hm2; reflexivity)
                (is_hash_events _ _) W W eq_refl).
  destruct (run_hash_written env rc W 0 p cs a0 text Hs1) as (Hs2 & Hu2 & _ & Hw2);
    [unfold W; now rewrite Hd1 | unfold W; now rewrite Hu1 | assumption.. |].
  unfold exit_code. rewrite (view_status _ _ Hv), (view_update _ _ Hv).
  unfold view in Hv. injection Hv as _ _ _ Hv.
  rewrite Hv, Hs2, Hu2, Hw2. unfold W. rewrite Hw1, Hw. auto.
Qed.

End Schedule.

(** Chunks of the file delivered between the signature entry and the
    close of the archive. *)
Definition mixed_schedule : list event :=
  [EHash 0 (SData "P"); EZip (ZEntry mozilla_sign_path []); EHash 0 (SData "K"); EZip ZClose; EHash 0 SEnd].

Lemma run_one_manifest_any_schedule_witness :
  let w := run (VC := mozilla_version_comparator) (SH := identity_hash) dup_env dup_argv
             (zip_events [] ++ EZip (ZEntry manifest_path [dup_manifest_text]) :: mixed_schedule) in
  exit_code w = Some 0%Z /\ w_update w = dup_doc [dup_entry] /\
  writes w = [(JStr "u.json", match json_stringify (dup_doc [dup_entry]) with Some t => t | None => "" end)].
Proof.
  apply (run_one_manifest_any_schedule dup_env dup_argv [] [(mozilla_sign_path, [])] [dup_manifest_text]
           ["P"; "K"] dup_manifest); try (vm_compute; reflexivity).
  unfold mixed_schedule. cbn. repeat constructor.
Defined.
