(* ===== verification/TwoManifests.v ===== *)
(** * Two [manifest.json] entries in one archive

    Every [manifest.json] entry of the archive runs [HandleManifest]
    (lines 77-87), and every call starts its own [Sha256FromFile]
    stream on the shared global [update] (lines 101-160).  When two
    entries of the same add-on and version are read before either
    digest ends, the second call filters [updates] before the first
    entry is pushed ([concurrent_handlers]).  From then on each digest
    stream, interleaved with the other in any order, pushes its entry
    at its end and writes the file: the invariant [inv] counts the
    entries pushed and the files written, [slot] tracks each stream
    ([stream_step], [two_streams]).  Hence the manifest written last
    holds the version twice ([run_two_manifests_duplicate]). *)

From Stdlib Require Import List String ZArith Bool Lia.
From S2P Require Import Prelude JsValue VersionCompare Merge Archive Digest Json Run Schedule.
Import ListNotations.
Open Scope string_scope.
Open Scope faauv_scope.

(** The events of the [i]-th digest stream: its chunks, then its end. *)
Definition stream_events (i : nat) (ds : list string) : list event :=
  map (EHash i) (map SData ds ++ [SEnd]).

(** 1 for a stream whose events are all delivered. *)
Definition ended (R : list event) : nat := match R with [] => 1 | _ => 0 end.

Lemma ended_stream i ds : ended (stream_events i ds) = 0.
Proof. destruct ds; reflexivity. Qed.

Lemma nth_error_replace_nth_ne {X} i j (x : X) l :
  i <> j -> nth_error (replace_nth i x l) j = nth_error l j.
Proof.
  revert j l; induction i as [|i IH]; intros [|j] [|y l] H; simpl; try reflexivity; try congruence.
  apply IH. congruence.
Qed.

Lemma interleaving_forallb {A} (f : A -> bool) l1 l2 l :
  interleaving l1 l2 l -> forallb f l1 = true -> forallb f l2 = true -> forallb f l = true.
Proof.
  induction 1; cbn [forallb]; intros H1 H2; rewrite ?andb_true_iff in *; intuition.
Qed.

Lemma filter_all_ver V pushed :
  Forall (fun e => ver e = V) pushed -> filter (fun e => String.eqb (ver e) V) pushed = pushed.
Proof.
  induction 1 as [|e l He _ IH]; simpl; [reflexivity|]. now rewrite He, String.eqb_refl, IH.
Qed.

Lemma json_stringify_record U A key r : exists t, json_stringify (set_record U A key r) = Some t.
Proof. eexists. reflexivity. Qed.

Lemma Forall_filter_wf (f : jsval -> bool) es :
  Forall (fun e => wf_entry e = true) es -> Forall (fun e => wf_entry e = true) (filter f es).
Proof. intros H. apply Forall_forall. intros e He. apply filter_In in He as [He _]. now apply (proj1 (Forall_forall _ _) H). Qed.

Section TwoManifests.
Context `{VC : VersionComparator} `{SH : StreamingHash}.

(** ** The two [HandleManifest] calls *)

(** Two [HandleManifest] calls on the shared [update] before either
    digest resolves: the second filters [updates] before the first
    entry is pushed, and both continuations hold version [V]. *)
Lemma concurrent_handlers cfg ups A manifest1 manifest2 id V es t :
  truthy (update_output_path cfg) = true ->
  manifest_view manifest1 = Some (id, JStr V) -> manifest_view manifest2 = Some (id, JStr V) ->
  assoc_get "addons" ups = Some (JObj A) ->
  record_updates (assoc_get id A) = Some es -> Forall (fun e => wf_entry e = true) es ->
  link_template (update_link_arg cfg) = Some t ->
  exists u1 p1 u2 p2 U A' r B,
    handle_parsed cfg (JObj ups) manifest1 = Ok (Some (u1, p1)) /\
    handle_parsed cfg u1 manifest2 = Ok (Some (u2, p2)) /\
    u2 = set_record U A' id r /\ assoc_get "updates" r = Some (JArr B []) /\
    filter (fun e => String.eqb (ver e) V) B = [] /\
    p_key p1 = id /\ p_key p2 = id /\ p_version p1 = JStr V /\ p_version p2 = JStr V.
Proof.
  intros Hout Hm1 Hm2 HA Hr Hes Ht.
  assert (Hlink : truthy (update_link_arg cfg) = false \/ exists t, update_link_arg cfg = JStr t)
    by (right; exists t; exact (link_template_some _ _ Ht)).
  pose proof (handle_parsed_shape cfg ups A manifest1 id (JStr V) es Hout Hm1 HA Hr Hes Hlink) as H1.
  unfold spec_url in H1 at 1. rewrite Ht in H1.
  set (es1 := filter (keep_entry (JStr V)) es) in H1.
  set (r1 := assoc_set "updates" (JArr es1 []) (rec0 A id)) in H1.
  assert (Hdoc1 : record_updates (assoc_get id (assoc_set id (JObj r1) A)) = Some es1)
    by (rewrite assoc_get_set_eq; simpl; unfold r1; now rewrite assoc_get_set_eq).
  pose proof (handle_parsed_shape cfg (assoc_set "addons" (JObj (assoc_set id (JObj r1) A)) ups)
                (assoc_set id (JObj r1) A) manifest2 id (JStr V) es1 Hout Hm2 (assoc_get_set_eq _ _ _)
                Hdoc1 (Forall_filter_wf _ _ Hes) Hlink) as H2.
  unfold spec_url in H2 at 1. rewrite Ht in H2.
  eexists _, _, _, _, _, _, _, _. split; [exact H1|]. split; [exact H2|].
  split; [reflexivity|]. split; [apply assoc_get_set_eq|].
  split; [|repeat split].
  apply filter_filter_none. intros e He. rewrite keep_entry_str. now rewrite He.
Qed.

(** ** The two digest streams *)

Section TwoStreams.
Variable env : fs_env.
Variable rc : run_cfg.
Variables (U A : list (string * jsval)) (id V : string) (B : list jsval).
Hypothesis Hout : truthy (update_output_path (rc_merge rc)) = true.
Hypothesis Hwr : fs_write_ok env (update_output_path (rc_merge rc)) = true.

(** The continuation a stream resolves: the add-on [id], version [V]. *)
Definition pending_ok (p : pending) : Prop := p_key p = id /\ p_version p = JStr V.

(** The stream [i] of continuation [p] still has the events [R]: none,
    or some chunks and its end, its promise pending. *)
Definition slot (w : world) (i : nat) (p : pending) (R : list event) : Prop :=
  R = [] \/ exists ds h, R = stream_events i ds /\ nth_error (w_digests w) i = Some (Pending h, p).

(** After [n] digests resolved: the run goes on, [updates] is [B]
    followed by [n] entries of version [V], and [n] files were written,
    the last one [JSON.stringify] of the current [update]. *)
Definition inv (w : world) (n : nat) : Prop :=
  w_status w = Running /\
  (exists r pushed, w_update w = set_record U A id r /\ assoc_get "updates" r = Some (JArr (B ++ pushed) []) /\
     Forall (fun e => ver e = V) pushed /\ List.length pushed = n) /\
  (exists ts, writes w = map (fun t => (update_output_path (rc_merge rc), t)) ts /\ List.length ts = n /\
     (ts = [] \/ json_stringify (w_update w) = Some (last ts ""))).

Lemma slot_other w w' j q Rj :
  nth_error (w_digests w') j = nth_error (w_digests w) j -> slot w j q Rj -> slot w' j q Rj.
Proof. intros E [H|(ds & h & HR & Hn)]; [now left|right]. exists ds, h. split; [exact HR|]. congruence. Qed.

(** One event of stream [i] keeps the invariant; its end pushes one
    entry and writes the file once. *)
Lemma stream_step w i p j q x R' Rj n :
  i <> j -> pending_ok p ->
  slot w i p (x :: R') -> slot w j q Rj -> inv w n ->
  slot (step env rc w x) i p R' /\ slot (step env rc w x) j q Rj /\ inv (step env rc w x) (n + ended R').
Proof.
  intros Hij [Hk Hv] Hi Hj (Hs & (r & pushed & Hu & Hr & Hf & Hl) & (ts & Hw & Hts & Hlast)).
  destruct Hi as [Hi|(ds & h & Hi & Hn)]; [discriminate|].
  destruct ds as [|d ds]; unfold stream_events in Hi; simpl in Hi; injection Hi as -> ->.
  - rewrite step_hash_end with (h := h) (p := p) by assumption.
    set (w1 := set_digests w _).
    set (r' := assoc_set "updates" (JArr ((B ++ pushed) ++ [new_entry p (h_digest h)]) []) r).
    destruct (json_stringify_record U A id r') as [t Ht].
    rewrite (then_callback_written env rc w1 p (h_digest h) (set_record U A id r') t)
      by (try assumption; unfold w1; cbn; rewrite Hu; now apply on_hash_shape).
    split; [now left|]. split.
    { apply (slot_other w); [|exact Hj]. cbn. now apply nth_error_replace_nth_ne. }
    split; [exact Hs|]. split.
    + exists r', (pushed ++ [new_entry p (h_digest h)])%list. split; [reflexivity|].
      split; [unfold r'; rewrite assoc_get_set_eq; now rewrite app_assoc|].
      split; [apply Forall_app; split; [exact Hf|constructor; [exact (proj2 (new_entry_wf p _ V Hv))|constructor]]|].
      rewrite length_app, Hl. reflexivity.
    + exists (ts ++ [t])%list. rewrite writes_emit. unfold w1. autorewrite with faauv_rw.
      split; [rewrite Hw, map_app; reflexivity|]. split; [rewrite length_app, Hts; reflexivity|].
      right. cbn. now rewrite last_last.
  - unfold step. rewrite Hs, Hn. cbn [digest_next].
    split.
    { right. exists ds, (h_update h d). split; [reflexivity|]. cbn.
      apply replace_nth_nth, nth_error_Some. congruence. }
    split; [apply (slot_other w); [cbn; now apply nth_error_replace_nth_ne|exact Hj]|].
    change (map (EHash i) (map SData ds ++ [SEnd])) with (stream_events i ds).
    rewrite ended_stream, Nat.add_0_r. split; [exact Hs|]. split.
    + exists r, pushed. cbn. auto.
    + exists ts. autorewrite with faauv_rw. cbn. auto.
Qed.

(** Every interleaving of the two streams resolves both. *)
Lemma two_streams l1 l2 l :
  interleaving l1 l2 l -> forall w p q, pending_ok p -> pending_ok q ->
  slot w 0 p l1 -> slot w 1 q l2 -> inv w (ended l1 + ended l2) -> inv (run_events env rc w l) 2.
Proof.
  induction 1 as [|x l1 l2 l Hi IH|x l1 l2 l Hi IH]; intros w p q Hp Hq H1 H2 Hinv.
  - exact Hinv.
  - destruct (stream_step w 0 p 1 q x l1 l2 _ ltac:(discriminate) Hp H1 H2 Hinv) as (H1' & H2' & Hinv').
    rewrite run_events_cons. apply (IH _ p q); auto.
    replace (ended l1 + ended l2) with (ended (x :: l1) + ended l2 + ended l1) by (simpl; lia). exact Hinv'.
  - destruct (stream_step w 1 q 0 p x l2 l1 _ ltac:(discriminate) Hq H2 H1 Hinv) as (H2' & H1' & Hinv').
    rewrite run_events_cons. apply (IH _ p q); auto.
    replace (ended l1 + ended l2) with (ended l1 + ended (x :: l2) + ended l2) by (simpl; lia). exact Hinv'.
Qed.

End TwoStreams.

(** ** The run *)

(** C25: ordering.  An archive with two [manifest.json] entries of the
    same add-on and version [V] starts two digests.  When both
    [HandleManifest] calls run before either digest ends, then for
    every interleaving of the two digest streams with each other (in
    either order of their ends) and with the remaining entries and
    [close], each [.then] pushes its entry into the shared [update]:
    the file is written twice, and the manifest written last holds
    version [V] twice, although a single merge replaces an entry of the
    same version (spec 4.4, [Merge.merge_unique_versions]). *)
Theorem run_two_manifests_duplicate env a es1 es2 es3 c1 c2 m1 m2 id V es t cs1 cs2 l' l :
  w_status (snd (start env a)) = Running ->
  existsb (is_path manifest_path) (es1 ++ es2 ++ es3) = false ->
  json_parse (buffered_text c1) = Ok m1 -> json_parse (buffered_text c2) = Ok m2 ->
  manifest_view m1 = Some (id, JStr V) -> manifest_view m2 = Some (id, JStr V) ->
  truthy (update_output_path (rc_merge (fst (start env a)))) = true ->
  link_template (update_link_arg (rc_merge (fst (start env a)))) = Some t ->
  doc_updates (w_update (snd (start env a))) id = Some es -> Forall (fun e => wf_entry e = true) es ->
  fs_write_ok env (update_output_path (rc_merge (fst (start env a)))) = true ->
  interleaving (stream_events 0 cs1) (stream_events 1 cs2) l' ->
  interleaving (zip_events es3 ++ [EZip ZClose]) l' l ->
  let w := run env a (zip_events es1 ++ EZip (ZEntry manifest_path c1) ::
                      zip_events es2 ++ EZip (ZEntry manifest_path c2) :: l) in
  exists es' t1 t2,
    exit_code w = Some 0%Z /\ doc_updates (w_update w) id = Some es' /\
    List.length (filter (fun e => String.eqb (ver e) V) es') = 2 /\
    json_stringify (w_update w) = Some t2 /\
    writes w = [(update_output_path (rc_merge (fst (start env a))), t1);
                (update_output_path (rc_merge (fst (start env a))), t2)].
Proof.
  intros Hs Hm Hj1 Hj2 Hv1 Hv2 Hout Ht Hdoc Hes Hwr Hl' Hl.
  rewrite !existsb_app in Hm. apply orb_false_iff in Hm as [Hm1 Hm]. apply orb_false_iff in Hm as [Hm2 Hm3].
  pose proof (start_writes env a) as Hw. pose proof (start_digests env a) as Hd.
  unfold run. destruct (start env a) as [rc w0]. simpl in *.
  unfold doc_updates in Hdoc. destruct (doc_addons (w_update w0)) as [A|] eqn:HA; [|discriminate].
  destruct (doc_addons_inv _ _ HA) as (ups & Hu0 & Hups).
  destruct (concurrent_handlers (rc_merge rc) ups A m1 m2 id V es t)
    as (u1 & p1 & u2 & p2 & U & A' & r & B & E1 & E2 & Hu2 & Hr & HB & Hk1 & Hk2 & Hp1 & Hp2);
    try assumption.
  rewrite <- Hu0 in E1.
  destruct (run_to_manifest env rc w0 es1 c1 m1 u1 p1) as (Hs1 & Hu1 & Hd1 & Hw1); try assumption.
  set (W1 := run_events env rc w0 (zip_events es1 ++ [EZip (ZEntry manifest_path c1)])) in *.
  rewrite <- Hu1 in E2.
  destruct (run_to_manifest env rc W1 es2 c2 m2 u2 p2) as (Hs2 & Hu2' & Hd2 & Hw2); try assumption.
  set (W2 := run_events env rc W1 (zip_events es2 ++ [EZip (ZEntry manifest_path c2)])) in *.
  replace (zip_events es1 ++ EZip (ZEntry manifest_path c1) :: zip_events es2 ++ EZip (ZEntry manifest_path c2) :: l)%list
    with (((zip_events es1 ++ [EZip (ZEntry manifest_path c1)]) ++ (zip_events es2 ++ [EZip (ZEntry manifest_path c2)])) ++ l)%list
    by (now rewrite <- !app_assoc).
  rewrite run_events_app, (run_events_app env rc w0 (zip_events es1 ++ _)). fold W1. fold W2.
  pose proof (run_events_interleaving env rc _ _ _ Hl) as Hv.
  specialize (Hv ltac:(rewrite forallb_app, benign_zip_events by exact Hm3; reflexivity)
                (interleaving_forallb is_hash _ _ _ Hl' (is_hash_events _ _) (is_hash_events _ _)) W2 W2 eq_refl).
  assert (Hinv : inv rc U A' id V B (run_events env rc W2 l') 2).
  { apply (two_streams env rc U A' id V B Hout Hwr _ _ _ Hl' W2 p1 p2); try (split; assumption).
    - right. exists cs1, h_init. split; [reflexivity|]. now rewrite Hd2, Hd1, Hd.
    - right. exists cs2, h_init. split; [reflexivity|]. now rewrite Hd2, Hd1, Hd.
    - rewrite !ended_stream. split; [exact Hs2|]. split.
      + exists r, []. rewrite app_nil_r. rewrite Hu2', Hu2. auto.
      + exists []. rewrite Hw2, Hw1, Hw. auto. }
  destruct Hinv as (Hs' & (r' & pushed & Hu' & Hr' & Hf' & Hlen) & (ts & Hw' & Hts & Hlast)).
  destruct ts as [|t1 [|t2 [|]]]; simpl in Hts; try discriminate.
  destruct Hlast as [Hlast|Hlast]; [discriminate|].
  exists (B ++ pushed)%list, t1, t2.
  unfold exit_code. rewrite (view_status _ _ Hv), (view_update _ _ Hv).
  unfold view in Hv. injection Hv as _ _ _ Hv. rewrite Hv, Hs', Hu', Hw'.
  rewrite doc_updates_set_eq. cbn [record_updates]. rewrite Hr'.
  rewrite filter_app, HB, filter_all_ver by exact Hf'. rewrite <- Hu'.
  repeat split; auto.
Qed.

End TwoManifests.

(** Digest 1 ends before digest 0, [close] first. *)
Definition dup_streams : list event :=
  [EHash 1 (SData "PK"); EHash 0 (SData "PK"); EHash 1 SEnd; EHash 0 SEnd].

(** The second conjunct is another schedule: the first digest resolves
    between the two entries and the version is written once. *)
Lemma run_two_manifests_duplicate_witness :
  (let w := run (VC := mozilla_version_comparator) (SH := identity_hash) dup_env dup_argv
              (zip_events [] ++ EZip (ZEntry manifest_path [dup_manifest_text]) ::
               zip_events [] ++ EZip (ZEntry manifest_path [dup_manifest_text]) :: EZip ZClose :: dup_streams) in
   exists es' t1 t2,
     exit_code w = Some 0%Z /\ doc_updates (w_update w) "ext@x" = Some es' /\
     List.length (filter (fun e => String.eqb (ver e) "1.0") es') = 2 /\
     json_stringify (w_update w) = Some t2 /\
     writes w = [(JStr "u.json", t1); (JStr "u.json", t2)]) /\
  w_update (run (VC := mozilla_version_comparator) (SH := identity_hash) dup_env dup_argv
     ([EZip (ZEntry manifest_path [dup_manifest_text])] ++ hash_events 0 ++
      [EZip (ZEntry manifest_path [dup_manifest_text]); EZip ZClose] ++ hash_events 1)) = dup_doc [dup_entry].
Proof.
  split; [|vm_compute; reflexivity].
  apply (run_two_manifests_duplicate dup_env dup_argv [] [] [] [dup_manifest_text] [dup_manifest_text]
           dup_manifest dup_manifest "ext@x" "1.0" [] "https://h/@version@" ["PK"] ["PK"] dup_streams);
    try (vm_compute; reflexivity).
  - constructor.
  - unfold dup_streams, stream_events. cbn. repeat constructor.
  - unfold dup_streams. cbn. repeat constructor.
Defined.
